(** * fitcheck: the scraping pipeline and the fit scorer

    A shallow embedding of [src/lib/scraper-service.ts] and of
    [checkFitCompatibility] from [src/lib/gemini-service.ts], with the
    properties the specification states about them; of [fileToPart] and
    [handleApiResponse] from the same file; and of the route that
    imports a product from a URL, which calls the scraper.

    Conventions of the embedding:
    - a JavaScript string is the list of its UTF-16 code units;
    - a JavaScript number is an IEEE 754 binary64 value (the kernel's
      primitive [float]);
    - an object used as a dictionary ([Record<string, T>]) is a finite map
      over its own properties, or the list of its entries where the source
      enumerates them; where the source reads or writes such an object
      under a key it does not control, what [Object.prototype] adds is
      modelled too ([read_property], [set_property]);
    - [throw] and [try]/[catch] are an error monad ([outcome]);
    - the network and the URL parser are a parameter ([platform]), and
      so are the session, the request, the measurement service and the
      database of the import route ([services]). *)

From Stdlib Require Import ZArith NArith List Bool Lia String Ascii.
From Stdlib Require Import PrimFloat SpecFloat FloatOps.
From Stdlib Require FloatAxioms.
From stdpp Require Import gmap.

Set Default Proof Using "Type".
#[local] Set Warnings "-register-all,-inexact-float".

(* ================================================================== *)
(** * Strings *)
(* ================================================================== *)

Abbreviation cu := N (only parsing).
Abbreviation jsstring := (list N) (only parsing).

(** A source literal, written in ASCII. *)
Definition str (s : string) : jsstring :=
  List.map N_of_ascii (list_ascii_of_string s).
Arguments str s%_string.

Definition dquote : N := 34%N.
Definition squote : N := 39%N.

(** [WhiteSpace] and [LineTerminator] of ECMAScript: what [\s] matches and
    what [trim] and [parseFloat] strip. *)
Definition is_space (c : N) : bool :=
  ((9 <=? c) && (c <=? 13) || (c =? 32) || (c =? 160) || (c =? 5760)
   || (8192 <=? c) && (c <=? 8202) || (c =? 8232) || (c =? 8233)
   || (c =? 8239) || (c =? 8287) || (c =? 12288) || (c =? 65279))%N.

Definition is_digit (c : N) : bool := ((48 <=? c) && (c <=? 57))%N.
Definition is_upper (c : N) : bool := ((65 <=? c) && (c <=? 90))%N.
Definition is_lower (c : N) : bool := ((97 <=? c) && (c <=? 122))%N.

(** Case mapping of one code unit. Only ASCII letters are mapped; the
    Unicode case mapping of other code units is not modelled. *)
Definition upper_cu (c : N) : N := if is_lower c then (c - 32)%N else c.
Definition lower_cu (c : N) : N := if is_upper c then (c + 32)%N else c.

Definition toUpperCase (s : jsstring) : jsstring := List.map upper_cu s.
Definition toLowerCase (s : jsstring) : jsstring := List.map lower_cu s.

Definition cu_eqb (a b : N) : bool := (a =? b)%N.

(** A literal in which every back quote stands for a double quote. *)
Definition dq (s : jsstring) : jsstring :=
  List.map (fun c => if cu_eqb c 96 then dquote else c) s.

Fixpoint str_eqb (a b : jsstring) : bool :=
  match a, b with
  | [], [] => true
  | x :: a', y :: b' => cu_eqb x y && str_eqb a' b'
  | _, _ => false
  end.

(** [s.startsWith(p)] *)
Fixpoint startsWith (s p : jsstring) {struct p} : bool :=
  match p, s with
  | [], _ => true
  | x :: p', y :: s' => cu_eqb x y && startsWith s' p'
  | _ :: _, [] => false
  end.

(** [s.includes(p)] *)
Fixpoint includes (s p : jsstring) : bool :=
  startsWith s p ||
  match s with
  | [] => false
  | _ :: s' => includes s' p
  end.

Fixpoint trimStart (s : jsstring) : jsstring :=
  match s with
  | c :: s' => if is_space c then trimStart s' else s
  | [] => []
  end.

Definition trimEnd (s : jsstring) : jsstring := rev (trimStart (rev s)).

(** [s.trim()] *)
Definition trim (s : jsstring) : jsstring := trimEnd (trimStart s).

(** [s.replace(/,/g, '')] *)
Definition remove_commas (s : jsstring) : jsstring :=
  List.filter (fun c => negb (cu_eqb c 44)) s.

(** [s.split(sep)] for a separator of one code unit. *)
Fixpoint split_on (sep : N) (s : jsstring) : list jsstring :=
  match s with
  | [] => [[]]
  | c :: s' =>
      if cu_eqb c sep then [] :: split_on sep s'
      else match split_on sep s' with
           | w :: ws => (c :: w) :: ws
           | [] => [[c]]
           end
  end.

(** The longest prefix whose code units satisfy [p], and the rest. *)
Fixpoint span (p : N -> bool) (s : jsstring) : jsstring * jsstring :=
  match s with
  | c :: s' =>
      if p c then let '(a, b) := span p s' in (c :: a, b) else ([], s)
  | [] => ([], [])
  end.

(* ================================================================== *)
(** * Numbers *)
(* ================================================================== *)

(** The binary64 value nearest to [±d·10^e] (ties to even): the value
    ECMAScript assigns to a decimal literal. *)
Definition decimal_to_float (neg : bool) (d e : Z) : float :=
  match d with
  | Z0 => if neg then neg_zero else zero
  | _ =>
      let '(p, q) := if (0 <=? e)%Z then (d * 10 ^ e, 1)%Z
                     else (d, 10 ^ (- e))%Z in
      let '(mz, ez, lz) := SFdiv_core_binary prec emax p 0 q 0 in
      SF2Prim (binary_round_aux prec emax neg mz ez lz)
  end.

Definition digits_value (ds : jsstring) : Z :=
  fold_left (fun acc c => (10 * acc + (Z.of_N c - 48))%Z) ds 0%Z.

(** An optional [ExponentPart]: its value and what follows it. A
    malformed exponent is not part of the literal. *)
Definition parse_exponent (s : jsstring) : Z * jsstring :=
  match s with
  | c :: s1 =>
      if cu_eqb c 101 || cu_eqb c 69 then
        let '(neg, s2) :=
          match s1 with
          | 43%N :: t => (false, t)
          | 45%N :: t => (true, t)
          | _ => (false, s1)
          end in
        let '(ds, s3) := span is_digit s2 in
        match ds with
        | [] => (0%Z, s)
        | _ => ((if neg then - digits_value ds else digits_value ds)%Z, s3)
        end
      else (0%Z, s)
  | [] => (0%Z, s)
  end.

(** [parseFloat(s)]: leading white space is skipped and the longest
    prefix that is a [StrDecimalLiteral] is converted; [NaN] when there
    is none. *)
Definition parseFloat (input : jsstring) : float :=
  let s := trimStart input in
  let '(neg, s1) :=
    match s with
    | 43%N :: t => (false, t)
    | 45%N :: t => (true, t)
    | _ => (false, s)
    end in
  if startsWith s1 (str "Infinity") then
    (if neg then neg_infinity else infinity)
  else
    let '(ip, s2) := span is_digit s1 in
    let '(fp, s3) :=
      match s2 with
      | 46%N :: t => span is_digit t
      | _ => ([], s2)
      end in
    match ip ++ fp with
    | [] => nan
    | ds =>
        let '(ex, _) := parse_exponent s3 in
        decimal_to_float neg (digits_value ds) (ex - Z.of_nat (length fp))
    end.

(** [isNaN(x)] on a number. *)
Definition isNaN (x : float) : bool := is_nan x.

(** [ToBoolean] on a number: [0], [-0] and [NaN] are falsy. *)
Definition truthy_num (x : float) : bool := negb (is_zero x || is_nan x).

(** [Math.max(a, b)] *)
Definition Math_max (a b : float) : float :=
  if is_nan a || is_nan b then nan
  else if PrimFloat.ltb a b then b
  else if PrimFloat.ltb b a then a
  else if is_zero a && get_sign a then b else a.

(** [Math.abs(x)] *)
Definition Math_abs (x : float) : float := PrimFloat.abs x.

(** Decimal digits of a natural number. *)
Fixpoint uint_digits (u : Decimal.uint) : jsstring :=
  match u with
  | Decimal.Nil => []
  | Decimal.D0 u' => 48%N :: uint_digits u'
  | Decimal.D1 u' => 49%N :: uint_digits u'
  | Decimal.D2 u' => 50%N :: uint_digits u'
  | Decimal.D3 u' => 51%N :: uint_digits u'
  | Decimal.D4 u' => 52%N :: uint_digits u'
  | Decimal.D5 u' => 53%N :: uint_digits u'
  | Decimal.D6 u' => 54%N :: uint_digits u'
  | Decimal.D7 u' => 55%N :: uint_digits u'
  | Decimal.D8 u' => 56%N :: uint_digits u'
  | Decimal.D9 u' => 57%N :: uint_digits u'
  end.

Definition Z_digits (n : Z) : jsstring := uint_digits (N.to_uint (Z.to_N n)).

(** The integer value of a finite number that has no fractional part,
    and the integer nearest to a finite number (ties upwards), both for
    the magnitude. *)
Definition round_half_up (m : positive) (e : Z) : Z :=
  if (0 <=? e)%Z then (Z.pos m * 2 ^ e)%Z
  else ((Z.pos m + 2 ^ (- e - 1)) / 2 ^ (- e))%Z.

(** The binary64 value nearest to the integer [n]. *)
Definition Z_to_float (n : Z) : float :=
  SF2Prim (binary_normalize prec emax n 0 false).

(** [Number::toString] for a finite [x >= 10^21] given as the integer
    [X]: the shortest digit string [s] (of [k] digits) and exponent [n]
    with [s·10^(n-k)] rounding to [x], the closest to [X] among them;
    written [d.ddde+N]. *)
Definition shortest_candidate (x : float) (X : Z) (nd k : Z) : option (Z * Z) :=
  let scale := (10 ^ (nd - k))%Z in
  let lo := (X / scale)%Z in
  let hi := (lo + 1)%Z in
  let ok v := PrimFloat.eqb (Z_to_float v) x in
  let dlo := (X - lo * scale)%Z in
  let dhi := (hi * scale - X)%Z in
  let norm s := if (s =? 10 ^ k)%Z then (10 ^ (k - 1), nd + 1)%Z else (s, nd) in
  match ok (lo * scale)%Z, ok (hi * scale)%Z with
  | true, true =>
      if (dlo <? dhi)%Z then Some (lo, nd)
      else if (dhi <? dlo)%Z then Some (norm hi)
      else if Z.even lo then Some (lo, nd) else Some (norm hi)
  | true, false => Some (lo, nd)
  | false, true => Some (norm hi)
  | false, false => None
  end.

Fixpoint shortest_digits (fuel : nat) (x : float) (X : Z) (nd k : Z) : Z * Z :=
  match fuel with
  | O => (X, nd)
  | S f =>
      match shortest_candidate x X nd k with
      | Some r => r
      | None => shortest_digits f x X nd (k + 1)
      end
  end.

Definition toString_exponential (x : float) (X : Z) : jsstring :=
  let nd := Z.of_nat (length (Z_digits X)) in
  let '(s, n) := shortest_digits 17 x X nd 1 in
  let ds := Z_digits s in
  match ds with
  | d :: [] => d :: str "e+" ++ Z_digits (n - 1)
  | d :: rest => d :: 46%N :: rest ++ str "e+" ++ Z_digits (n - 1)
  | [] => []
  end.

(** [x.toFixed(0)] *)
Definition toFixed0 (x : float) : jsstring :=
  match Prim2SF x with
  | S754_nan => str "NaN"
  | S754_infinity s => if s then str "-Infinity" else str "Infinity"
  | S754_zero _ => str "0"
  | S754_finite s m e =>
      let sign := if s then str "-" else [] in
      if PrimFloat.ltb (PrimFloat.abs x) (Z_to_float (10 ^ 21)) then
        sign ++ Z_digits (round_half_up m e)
      else
        sign ++ toString_exponential (PrimFloat.abs x) (Z.pos m * 2 ^ e)
  end.

(* ================================================================== *)
(** * Regular expressions *)
(* ================================================================== *)

(** The syntax of the patterns the source uses. *)
Inductive class_item : Type :=
| CChar (c : N)
| CRange (lo hi : N)
| CSpace (negated : bool)
| CDigit.

Inductive regex : Type :=
| Empty
| Char (c : N)
| Class (negated : bool) (items : list class_item)
| Seq (a b : regex)
| Alt (a b : regex)
| Star (greedy : bool) (a : regex)
| Group (n : nat) (a : regex)
| Bol
| Eol
| WordBoundary.

(** A pattern with its [i] flag. The [g] flag only matters to [exec],
    which is [exec_all] below. *)
Record RegExp : Type := mkRegExp { pattern : regex; ignoreCase : bool }.

Definition Plus (a : regex) : regex := Seq a (Star true a).
Definition Opt (a : regex) : regex := Alt a Empty.
Definition Lit (s : jsstring) : regex :=
  fold_right (fun c r => Seq (Char c) r) Empty s.
Definition Seqs (rs : list regex) : regex := fold_right Seq Empty rs.
Definition Alts (r : regex) (rs : list regex) : regex := fold_left Alt rs r.

(** [Canonicalize] of the specification, without the [u] flag. On the
    ASCII patterns of the source the full upper-case mapping and
    [upper_cu] accept the same code units: a pattern letter below 128
    never equals the canonical form of a code unit above 127, and the
    members of [\s] have no case mapping. *)
Definition canon (ic : bool) (c : N) : N := if ic then upper_cu c else c.

Definition in_range (lo hi c : N) : bool := ((lo <=? c) && (c <=? hi))%N.

Definition item_matches (ic : bool) (i : class_item) (c : N) : bool :=
  match i with
  | CChar a => cu_eqb (canon ic a) (canon ic c)
  | CRange lo hi =>
      in_range lo hi c
      || (ic && (in_range lo hi (upper_cu c) || in_range lo hi (lower_cu c)))
  | CSpace negated => xorb negated (is_space c)
  | CDigit => is_digit c
  end.

Definition class_matches (ic negated : bool) (items : list class_item) (c : N) : bool :=
  xorb negated (existsb (fun i => item_matches ic i c) items).

Definition is_word_char (c : N) : bool :=
  is_digit c || is_upper c || is_lower c || cu_eqb c 95.

(** The matcher's state: the code unit before the current position, the
    input from the current position on, the position, and the captures so
    far (latest first). *)
Record mstate : Type := mkState {
  m_prev : option N;
  m_rest : jsstring;
  m_idx : nat;
  m_caps : list (nat * jsstring)
}.

Definition cont : Type := mstate -> option mstate.

Definition advance (st : mstate) (c : N) (rest : jsstring) : mstate :=
  mkState (Some c) rest (S (m_idx st)) (m_caps st).

(** The text between two states of one run. *)
Definition consumed (st st' : mstate) : jsstring :=
  firstn (m_idx st' - m_idx st) (m_rest st).

Definition set_capture (n : nat) (w : jsstring) (st : mstate) : mstate :=
  mkState (m_prev st) (m_rest st) (m_idx st) ((n, w) :: m_caps st).

Fixpoint assoc_nat (n : nat) (l : list (nat * jsstring)) : option jsstring :=
  match l with
  | [] => None
  | (k, w) :: l' => if Nat.eqb k n then Some w else assoc_nat n l'
  end.

(** [match[n]] for a group that took part in the match. *)
Definition capture (n : nat) (st : mstate) : jsstring :=
  match assoc_nat n (m_caps st) with
  | Some w => w
  | None => []
  end.

(** [r*] and [r*?]: an iteration that consumes nothing is rejected, as in
    RepeatMatcher, so at most [length (m_rest st)] iterations can
    succeed and the fuel below never cuts a match short. *)
Fixpoint star_loop (greedy : bool) (body : mstate -> cont -> option mstate)
    (fuel : nat) (st : mstate) (k : cont) : option mstate :=
  let again :=
    match fuel with
    | O => None
    | S f =>
        body st (fun st' =>
          if Nat.eqb (m_idx st') (m_idx st) then None
          else star_loop greedy body f st' k)
    end in
  if greedy then
    match again with
    | Some r => Some r
    | None => k st
    end
  else
    match k st with
    | Some r => Some r
    | None => again
    end.

(** The backtracking matcher, in continuation-passing style as in the
    specification of ECMAScript: [k] is what remains to be matched. *)
Fixpoint rmatch (ic : bool) (r : regex) (st : mstate) (k : cont) {struct r}
  : option mstate :=
  match r with
  | Empty => k st
  | Char c =>
      match m_rest st with
      | x :: rest =>
          if cu_eqb (canon ic c) (canon ic x) then k (advance st x rest) else None
      | [] => None
      end
  | Class negated items =>
      match m_rest st with
      | x :: rest =>
          if class_matches ic negated items x then k (advance st x rest) else None
      | [] => None
      end
  | Seq a b => rmatch ic a st (fun st' => rmatch ic b st' k)
  | Alt a b =>
      match rmatch ic a st k with
      | Some r => Some r
      | None => rmatch ic b st k
      end
  | Star greedy a => star_loop greedy (rmatch ic a) (length (m_rest st)) st k
  | Group n a =>
      rmatch ic a st (fun st' => k (set_capture n (consumed st st') st'))
  | Bol => if Nat.eqb (m_idx st) 0 then k st else None
  | Eol => match m_rest st with [] => k st | _ :: _ => None end
  | WordBoundary =>
      let a := match m_prev st with Some c => is_word_char c | None => false end in
      let b := match m_rest st with c :: _ => is_word_char c | [] => false end in
      if xorb a b then k st else None
  end.

(** A match starting exactly at the state's position. *)
Definition match_here (re : RegExp) (prev : option N) (idx : nat) (s : jsstring)
  : option mstate :=
  rmatch (ignoreCase re) (pattern re) (mkState prev s idx []) Some.

(** The leftmost match at or after the current position: the end state
    of the match, with its captures. *)
Fixpoint search_from (re : RegExp) (prev : option N) (idx : nat) (s : jsstring)
  : option mstate :=
  match match_here re prev idx s with
  | Some st => Some st
  | None =>
      match s with
      | [] => None
      | c :: s' => search_from re (Some c) (S idx) s'
      end
  end.

(** [s.match(re)] for a pattern without the [g] flag. *)
Definition str_match (re : RegExp) (s : jsstring) : option mstate :=
  search_from re None 0 s.

(** [re.test(s)] for a pattern without the [g] flag. *)
Definition regex_test (re : RegExp) (s : jsstring) : bool :=
  match str_match re s with Some _ => true | None => false end.

(** The successive results of [re.exec(s)] for a pattern with the [g]
    flag, until it returns [null]: each search resumes at [lastIndex],
    the end of the previous match. *)
Fixpoint exec_loop (fuel : nat) (re : RegExp) (prev : option N) (idx : nat)
    (s : jsstring) : list mstate :=
  match fuel with
  | O => []
  | S f =>
      match search_from re prev idx s with
      | None => []
      | Some st => st :: exec_loop f re (m_prev st) (m_idx st) (m_rest st)
      end
  end.

Definition exec_all (re : RegExp) (s : jsstring) : list mstate :=
  exec_loop (S (length s)) re None 0 s.

(** Shorthands for writing the patterns. *)
Definition ws : regex := Class false [CSpace false].
Definition quote : regex := Class false [CChar dquote; CChar squote].
Definition not_quote : regex := Class true [CChar dquote; CChar squote].
Definition none_of (c : N) : regex := Class true [CChar c].
Definition any : regex := Class false [CSpace false; CSpace true].
Definition digit : regex := Class false [CDigit].

(* ================================================================== *)
(** * Exceptions *)
(* ================================================================== *)

(** What a [catch] clause can receive: an instance of [Error] with its
    message, or some other value. *)
Inductive thrown : Type :=
| ErrorObject (message : jsstring)
| OtherValue.

Inductive outcome (A : Type) : Type :=
| Return (a : A)
| Throw (e : thrown).
Arguments Return {A} a.
Arguments Throw {A} e.

Definition bind {A B : Type} (c : outcome A) (k : A -> outcome B) : outcome B :=
  match c with
  | Return a => k a
  | Throw e => Throw e
  end.

Notation "'let!' x ':=' c 'in' k" := (bind c (fun x => k))
  (at level 10, x name, c at level 100, k at level 200).

(** [try { body } catch (e) { handler e }] *)
Definition try_catch {A : Type} (body : outcome A) (handler : thrown -> outcome A)
  : outcome A :=
  match body with
  | Return a => Return a
  | Throw e => handler e
  end.

(** The loop [for (const x of l) { body }] over a mutable state. *)
Fixpoint for_of {A S : Type} (body : S -> A -> outcome S) (l : list A) (s : S)
  : outcome S :=
  match l with
  | [] => Return s
  | x :: l' => let! s' := body s x in for_of body l' s'
  end.

(* ================================================================== *)
(** * Values and JSON *)
(* ================================================================== *)

(** The values [JSON.parse] produces, and [undefined]. *)
Inductive value : Type :=
| VUndefined
| VNull
| VBool (b : bool)
| VNum (x : float)
| VStr (s : jsstring)
| VArr (items : list value)
| VObj (fields : list (jsstring * value)).

(** [ToBoolean] *)
Definition truthy (v : value) : bool :=
  match v with
  | VUndefined | VNull => false
  | VBool b => b
  | VNum x => truthy_num x
  | VStr s => match s with [] => false | _ :: _ => true end
  | VArr _ | VObj _ => true
  end.

(** [a || b] *)
Definition js_or (a b : value) : value := if truthy a then a else b.

(** An own property of an object; with a repeated key the last entry is
    the one [JSON.parse] keeps. *)
Fixpoint field (k : jsstring) (fields : list (jsstring * value)) : value :=
  match fields with
  | [] => VUndefined
  | (k', v) :: rest =>
      match field k rest with
      | VUndefined => if str_eqb k' k then v else VUndefined
      | later => later
      end
  end.

(** The message of V8's TypeError for a property read on [null] or
    [undefined]. *)
Definition cannot_read (what prop : jsstring) : thrown :=
  ErrorObject (str "Cannot read properties of " ++ what ++ str " (reading '"
               ++ prop ++ str "')").

(** [v.k] and [v['k']]. None of the names the source reads is a property
    of a string, a number, a boolean or an array, so only objects answer
    with something other than [undefined]. *)
Definition get (v : value) (k : jsstring) : outcome value :=
  match v with
  | VUndefined => Throw (cannot_read (str "undefined") k)
  | VNull => Throw (cannot_read (str "null") k)
  | VObj fields => Return (field k fields)
  | _ => Return VUndefined
  end.

(** [v?.k] *)
Definition get_opt (v : value) (k : jsstring) : outcome value :=
  match v with
  | VUndefined | VNull => Return VUndefined
  | _ => get v k
  end.

(** [v[0]] where [v] is an array. *)
Definition first_item (v : value) : value :=
  match v with
  | VArr (x :: _) => x
  | _ => VUndefined
  end.

Definition isArray (v : value) : bool :=
  match v with VArr _ => true | _ => false end.

Definition is_string (v : value) : bool :=
  match v with VStr _ => true | _ => false end.

(** [v === 'literal'] *)
Definition strict_eq_str (v : value) (s : jsstring) : bool :=
  match v with VStr w => str_eqb w s | _ => false end.

(** [parseFloat(v)] on a value: [parseFloat(ToString(v))]. A number
    prints as a literal that reads back as itself (with [-0] printed
    [0]); an array prints its items separated by commas, and a comma ends
    any literal, so only the first item counts; [true], [false] and
    [[object Object]] are not numeric. *)
Fixpoint parseFloat_value (v : value) : float :=
  match v with
  | VNum x => if is_zero x then zero else x
  | VStr s => parseFloat s
  | VArr (x :: _) =>
      match x with
      | VNull | VUndefined => nan
      | _ => parseFloat_value x
      end
  | _ => nan
  end.

Definition is_json_ws (c : N) : bool :=
  cu_eqb c 32 || cu_eqb c 9 || cu_eqb c 10 || cu_eqb c 13.

Fixpoint skip_json_ws (s : jsstring) : jsstring :=
  match s with
  | c :: s' => if is_json_ws c then skip_json_ws s' else s
  | [] => []
  end.

Definition hex_value (c : N) : option N :=
  if is_digit c then Some (c - 48)%N
  else if in_range 97 102 c then Some (c - 87)%N
  else if in_range 65 70 c then Some (c - 55)%N
  else None.

Definition json_escape (c : N) : option N :=
  if cu_eqb c 34 then Some 34%N
  else if cu_eqb c 92 then Some 92%N
  else if cu_eqb c 47 then Some 47%N
  else if cu_eqb c 98 then Some 8%N
  else if cu_eqb c 102 then Some 12%N
  else if cu_eqb c 110 then Some 10%N
  else if cu_eqb c 114 then Some 13%N
  else if cu_eqb c 116 then Some 9%N
  else None.

(** The rest of a JSON string after its opening quote. *)
Fixpoint json_string (s : jsstring) : option (jsstring * jsstring) :=
  match s with
  | [] => None
  | c :: rest =>
      if cu_eqb c 34 then Some ([], rest)
      else if cu_eqb c 92 then
        match rest with
        | e :: rest1 =>
            if cu_eqb e 117 then
              match rest1 with
              | h1 :: h2 :: h3 :: h4 :: rest2 =>
                  match hex_value h1, hex_value h2, hex_value h3, hex_value h4 with
                  | Some a, Some b, Some c', Some d =>
                      match json_string rest2 with
                      | Some (w, r) => Some ((((a * 16 + b) * 16 + c') * 16 + d)%N :: w, r)
                      | None => None
                      end
                  | _, _, _, _ => None
                  end
              | _ => None
              end
            else
              match json_escape e with
              | Some x =>
                  match json_string rest1 with
                  | Some (w, r) => Some (x :: w, r)
                  | None => None
                  end
              | None => None
              end
        | [] => None
        end
      else if (c <? 32)%N then None
      else
        match json_string rest with
        | Some (w, r) => Some (c :: w, r)
        | None => None
        end
  end.

(** A JSON number: an optional minus, an integer part without a leading
    zero, an optional fraction and an optional exponent, both with at
    least one digit. *)
Definition json_number (s : jsstring) : option (value * jsstring) :=
  let '(neg, s1) := match s with 45%N :: t => (true, t) | _ => (false, s) end in
  let int_part :=
    match s1 with
    | 48%N :: t => Some ([48%N], t)
    | _ => match span is_digit s1 with
           | ([], _) => None
           | r => Some r
           end
    end in
  match int_part with
  | None => None
  | Some (ip, s2) =>
      let frac :=
        match s2 with
        | 46%N :: t =>
            match span is_digit t with
            | ([], _) => None
            | r => Some r
            end
        | _ => Some ([], s2)
        end in
      match frac with
      | None => None
      | Some (fp, s3) =>
          let after_exp :=
            match s3 with
            | c :: _ =>
                if cu_eqb c 101 || cu_eqb c 69 then
                  match parse_exponent s3 with
                  | (ex, s4) =>
                      if Nat.eqb (length s4) (length s3) then None else Some (ex, s4)
                  end
                else Some (0%Z, s3)
            | [] => Some (0%Z, s3)
            end in
          match after_exp with
          | None => None
          | Some (ex, s4) =>
              Some (VNum (decimal_to_float neg (digits_value (ip ++ fp))
                            (ex - Z.of_nat (length fp))), s4)
          end
      end
  end.

Fixpoint json_value (fuel : nat) (s : jsstring) : option (value * jsstring) :=
  match fuel with
  | O => None
  | S f =>
      match skip_json_ws s with
      | [] => None
      | c :: s1 =>
          if cu_eqb c 123 then
            match skip_json_ws s1 with
            | 125%N :: s2 => Some (VObj [], s2)
            | _ => json_members f s1 []
            end
          else if cu_eqb c 91 then
            match skip_json_ws s1 with
            | 93%N :: s2 => Some (VArr [], s2)
            | _ => json_elements f s1 []
            end
          else if cu_eqb c 34 then
            match json_string s1 with
            | Some (w, r) => Some (VStr w, r)
            | None => None
            end
          else if startsWith (c :: s1) (str "true") then
            Some (VBool true, skipn 4 (c :: s1))
          else if startsWith (c :: s1) (str "false") then
            Some (VBool false, skipn 5 (c :: s1))
          else if startsWith (c :: s1) (str "null") then
            Some (VNull, skipn 4 (c :: s1))
          else json_number (c :: s1)
      end
  end
with json_elements (fuel : nat) (s : jsstring) (acc : list value)
  : option (value * jsstring) :=
  match fuel with
  | O => None
  | S f =>
      match json_value f s with
      | Some (v, s1) =>
          match skip_json_ws s1 with
          | 44%N :: s2 => json_elements f s2 (v :: acc)
          | 93%N :: s2 => Some (VArr (rev (v :: acc)), s2)
          | _ => None
          end
      | None => None
      end
  end
with json_members (fuel : nat) (s : jsstring) (acc : list (jsstring * value))
  : option (value * jsstring) :=
  match fuel with
  | O => None
  | S f =>
      match skip_json_ws s with
      | 34%N :: s1 =>
          match json_string s1 with
          | Some (k, s2) =>
              match skip_json_ws s2 with
              | 58%N :: s3 =>
                  match json_value f s3 with
                  | Some (v, s4) =>
                      match skip_json_ws s4 with
                      | 44%N :: s5 => json_members f s5 ((k, v) :: acc)
                      | 125%N :: s5 => Some (VObj (rev ((k, v) :: acc)), s5)
                      | _ => None
                      end
                  | None => None
                  end
              | _ => None
              end
          | None => None
          end
      | _ => None
      end
  end.

(** [JSON.parse(text)]; [None] is the SyntaxError. Every nested call
    below follows at least one consumed code unit within two levels, so
    the fuel is not exhausted on any input. *)
Definition JSON_parse (text : jsstring) : option value :=
  match json_value (2 * length text + 2) text with
  | Some (v, rest) =>
      match skip_json_ws rest with
      | [] => Some v
      | _ :: _ => None
      end
  | None => None
  end.

(** ** Plain objects

    An object written [{}] has [Object.prototype] as its prototype.
    Reading [o[key]] for a key the object does not have finds what the
    prototype has under that name, and writing [o[key] = v] for the key
    [__proto__] reaches the setter inherited from the prototype. *)

(** The names of the properties of [Object.prototype]. *)
Definition Object_prototype : list jsstring :=
  [str "constructor"; str "__defineGetter__"; str "__defineSetter__";
   str "hasOwnProperty"; str "__lookupGetter__"; str "__lookupSetter__";
   str "isPrototypeOf"; str "propertyIsEnumerable"; str "toString";
   str "valueOf"; str "__proto__"; str "toLocaleString"].

(** [o[key] = v] on a plain object, for [v] a string or a number. Under
    [__proto__] the inherited setter ignores a value that is neither an
    object nor [null], and nothing is stored; every other key becomes an
    own property of [o]. *)
Definition set_property {V : Type} (key : jsstring) (v : V) (o : gmap (list N) V)
  : gmap (list N) V :=
  if str_eqb key (str "__proto__") then o else <[key := v]> o.

(* ================================================================== *)
(** * scraper-service.ts *)
(* ================================================================== *)

(** What the module takes from its environment: the body of the response
    to [axios.get(url, ...)] (a text document) or the rejection,
    [new URL(url, base).toString()] and [new URL(url).hostname], each of
    which throws on an invalid URL. *)
Record platform : Type := mkPlatform {
  axios_get : jsstring -> outcome jsstring;
  URL_href : jsstring -> jsstring -> outcome jsstring;
  URL_hostname : jsstring -> outcome jsstring
}.

(** A [Set<string>]: its members in insertion order. *)
Definition set_add (x : jsstring) (s : list jsstring) : list jsstring :=
  if existsb (str_eqb x) s then s else s ++ [x].

(** ** extractMetaTags *)

Definition meta_pattern (attr prefix : jsstring) : regex :=
  Seqs [Lit (str "<meta"); Plus ws; Lit attr; quote; Lit prefix;
        Group 1 (Plus not_quote); quote; Plus ws; Lit (str "content=");
        quote; Group 2 (Plus not_quote); quote].

Definition ogRegex : RegExp :=
  mkRegExp (meta_pattern (str "property=") (str "og:")) true.
Definition twitterRegex : RegExp :=
  mkRegExp (meta_pattern (str "name=") (str "twitter:")) true.
Definition metaRegex : RegExp :=
  mkRegExp (meta_pattern (str "name=") []) true.

(** One [while ((match = re.exec(html)) !== null)] loop that stores
    [prefix + match[1]] with the content [match[2]]. *)
Definition store_tags (prefix : jsstring) (ms : list mstate)
    (metaTags : gmap (list N) (list N)) : gmap (list N) (list N) :=
  fold_left (fun tags st => set_property (prefix ++ capture 1 st) (capture 2 st) tags)
    ms metaTags.

Definition extractMetaTags (html : jsstring) : gmap (list N) (list N) :=
  let metaTags := ∅ in
  let metaTags := store_tags (str "og:") (exec_all ogRegex html) metaTags in
  let metaTags := store_tags (str "twitter:") (exec_all twitterRegex html) metaTags in
  let metaTags := store_tags [] (exec_all metaRegex html) metaTags in
  metaTags.

(** ** extractJsonLd *)

Definition jsonLdRegex : RegExp :=
  mkRegExp
    (Seqs [Lit (str "<script"); Plus ws; Lit (str "type="); quote;
           Lit (str "application/ld+json"); quote; Lit (str ">");
           Group 1 (Plus (none_of 60)); Lit (str "</script>")])
    true.

Definition extractJsonLd (html : jsstring) : list value :=
  fold_left
    (fun jsonLdData st =>
       match JSON_parse (capture 1 st) with
       | Some data => jsonLdData ++ [data]
       | None => jsonLdData
       end)
    (exec_all jsonLdRegex html) [].

(** ** extractImages *)

Definition imgRegex : RegExp :=
  mkRegExp
    (Seqs [Lit (str "<img"); Plus (none_of 62); Lit (str "src="); quote;
           Group 1 (Plus not_quote); quote])
    true.

Definition dataSrcRegex : RegExp :=
  mkRegExp
    (Seqs [Lit (str "data-src="); quote; Group 1 (Plus not_quote); quote])
    true.

Definition nonempty (s : jsstring) : bool :=
  match s with [] => false | _ :: _ => true end.

(** [url.startsWith('http') ? url : new URL(url, baseUrl).toString()] *)
Definition absolute (p : platform) (url baseUrl : jsstring) : outcome jsstring :=
  if startsWith url (str "http") then Return url else URL_href p url baseUrl.

Definition add_src (p : platform) (baseUrl : jsstring)
    (images : list jsstring) (st : mstate) : outcome (list jsstring) :=
  let url := capture 1 st in
  if nonempty url && negb (includes url (str "icon"))
     && negb (includes url (str "logo"))
  then let! u := absolute p url baseUrl in Return (set_add u images)
  else Return images.

Definition add_data_src (p : platform) (baseUrl : jsstring)
    (images : list jsstring) (st : mstate) : outcome (list jsstring) :=
  let url := capture 1 st in
  if nonempty url
  then let! u := absolute p url baseUrl in Return (set_add u images)
  else Return images.

Definition extractImages (p : platform) (html baseUrl : jsstring)
  : outcome (list jsstring) :=
  let! images := for_of (add_src p baseUrl) (exec_all imgRegex html) [] in
  let! images := for_of (add_data_src p baseUrl) (exec_all dataSrcRegex html) images in
  Return images.

(** ** extractSizes *)

Definition sizePatterns : list RegExp :=
  [ mkRegExp
      (Seqs [WordBoundary;
             Group 1 (Alts (Lit (str "XXS"))
                        [Lit (str "XS"); Lit (str "S"); Lit (str "M");
                         Lit (str "L"); Lit (str "XL"); Lit (str "XXL");
                         Lit (str "XXXL")]);
             WordBoundary])
      false;
    mkRegExp
      (Seqs [WordBoundary;
             Group 1 (Seqs [Lit (str "size"); Star true ws;
                            Plus (Class false [CRange 48 57])]);
             WordBoundary])
      true;
    mkRegExp
      (Seqs [WordBoundary;
             Group 1 (Seqs [Plus (Class false [CRange 48 57]);
                            Class false [CRange 65 90]]);
             WordBoundary])
      false ].

Definition extractSizes (html : jsstring) : list jsstring :=
  fold_left
    (fun sizes re =>
       fold_left (fun sizes st => set_add (toUpperCase (capture 1 st)) sizes)
         (exec_all re html) sizes)
    sizePatterns [].

(** ** extractPrice *)

Definition currency_symbol : regex :=
  Class false [CChar 36; CChar 163; CChar 8364].

(** The captured amount: one or more digits or commas, an optional dot,
    any number of digits. *)
Definition amount : regex :=
  Group 1 (Seqs [Plus (Class false [CRange 48 57; CChar 44]); Opt (Char 46);
                 Star true (Class false [CRange 48 57])]).

Definition symbolFirst : RegExp :=
  mkRegExp (Seqs [currency_symbol; Star true ws; amount]) false.
Definition symbolLast : RegExp :=
  mkRegExp (Seqs [amount; Star true ws; currency_symbol]) false.
Definition jsonPrice : RegExp :=
  mkRegExp (Seqs [Char dquote; Lit (str "price"); Char dquote; Star true ws;
                  Lit (str ":"); Star true ws; Opt (Char dquote); amount;
                  Opt (Char dquote)]) true.
Definition dataPrice : RegExp :=
  mkRegExp (Seqs [Lit (str "data-price="); quote; amount]) true.

Definition pricePatterns : list RegExp :=
  [symbolFirst; symbolLast; jsonPrice; dataPrice].

Definition pound : N := 163%N.
Definition euro : N := 8364%N.

Definition detect_currency (html : jsstring) : jsstring :=
  let currency := str "USD" in
  if includes html [pound] then str "GBP"
  else if includes html [euro] then str "EUR"
  else currency.

(** The [for (const pattern of pricePatterns)] loop; [None] is the empty
    object returned after it. *)
Fixpoint price_loop (html : jsstring) (patterns : list RegExp)
  : option (float * jsstring) :=
  match patterns with
  | [] => None
  | pattern :: rest =>
      match str_match pattern html with
      | Some st =>
          let price := parseFloat (remove_commas (capture 1 st)) in
          if negb (isNaN price) then Some (price, detect_currency html)
          else price_loop html rest
      | None => price_loop html rest
      end
  end.

Definition extractPrice (html : jsstring) : option (float * jsstring) :=
  price_loop html pricePatterns.

(** ** scrapeProductPage *)

(** The fields [scrapeProductPage] assigns. Those filled from JSON-LD
    hold whatever value the page supplied. *)
Record ProductData : Type := mkProductData {
  name : value;
  brand : value;
  price : value;
  currency : value;
  imageUrl : value;
  sizes : option (list jsstring);
  description : value;
  category : option jsstring
}.

Definition tag (metaTags : gmap (list N) (list N)) (k : jsstring) : value :=
  match metaTags !! k with
  | Some v => VStr v
  | None => VUndefined
  end.

(** The object literal built from the extractors' results. *)
Definition initial_product (metaTags : gmap (list N) (list N))
    (images sizes : list jsstring) (priceData : option (float * jsstring))
  : ProductData :=
  {| name := js_or (tag metaTags (str "og:title")) (tag metaTags (str "twitter:title"));
     description :=
       js_or (tag metaTags (str "og:description")) (tag metaTags (str "description"));
     imageUrl :=
       js_or (tag metaTags (str "og:image"))
         (match images with x :: _ => VStr x | [] => VUndefined end);
     price := match priceData with Some (x, _) => VNum x | None => VUndefined end;
     currency := match priceData with Some (_, c) => VStr c | None => VUndefined end;
     sizes := match sizes with [] => None | _ :: _ => Some sizes end;
     brand := VUndefined;
     category := None |}.

Definition set_name (v : value) (pd : ProductData) : ProductData :=
  mkProductData v (brand pd) (price pd) (currency pd) (imageUrl pd) (sizes pd)
    (description pd) (category pd).
Definition set_brand (v : value) (pd : ProductData) : ProductData :=
  mkProductData (name pd) v (price pd) (currency pd) (imageUrl pd) (sizes pd)
    (description pd) (category pd).
Definition set_price (v : value) (pd : ProductData) : ProductData :=
  mkProductData (name pd) (brand pd) v (currency pd) (imageUrl pd) (sizes pd)
    (description pd) (category pd).
Definition set_currency (v : value) (pd : ProductData) : ProductData :=
  mkProductData (name pd) (brand pd) (price pd) v (imageUrl pd) (sizes pd)
    (description pd) (category pd).
Definition set_imageUrl (v : value) (pd : ProductData) : ProductData :=
  mkProductData (name pd) (brand pd) (price pd) (currency pd) v (sizes pd)
    (description pd) (category pd).
Definition set_description (v : value) (pd : ProductData) : ProductData :=
  mkProductData (name pd) (brand pd) (price pd) (currency pd) (imageUrl pd)
    (sizes pd) v (category pd).
Definition set_category (c : option jsstring) (pd : ProductData) : ProductData :=
  mkProductData (name pd) (brand pd) (price pd) (currency pd) (imageUrl pd)
    (sizes pd) (description pd) c.

(** [typeof v === 'string' ? v : undefined] *)
Definition string_or_undefined (v : value) : value :=
  if is_string v then v else VUndefined.

(** [product['@type'] === 'Product' || product.type === 'Product'] *)
Definition is_product (product : value) : outcome bool :=
  let! t := get product (str "@type") in
  if strict_eq_str t (str "Product") then Return true
  else let! t' := get product (str "type") in
       Return (strict_eq_str t' (str "Product")).

(** [productData.price || (offer.price ? parseFloat(offer.price) : undefined)];
    the right operand is not evaluated when the left one is truthy. *)
Definition backfill_price (current offer : value) : outcome value :=
  if truthy current then Return current
  else let! p := get offer (str "price") in
       Return (if truthy p then VNum (parseFloat_value p) else VUndefined).

(** [productData.currency || offer.priceCurrency] *)
Definition backfill_currency (current offer : value) : outcome value :=
  if truthy current then Return current
  else get offer (str "priceCurrency").

(** [productData.imageUrl || (typeof img === 'string' ? img : img?.url)] *)
Definition backfill_image (current img : value) : outcome value :=
  if truthy current then Return current
  else if is_string img then Return img
  else get_opt img (str "url").

(** [product.brand?.name || product.manufacturer] *)
Definition jsonld_brand (product : value) : outcome value :=
  let! b := get product (str "brand") in
  let! n := get_opt b (str "name") in
  if truthy n then Return n else get product (str "manufacturer").

(** The body of [for (const data of jsonLd)]. *)
Definition jsonld_step (productData : ProductData) (data : value)
  : outcome ProductData :=
  let product := data in
  let! is_p := is_product product in
  if is_p then
    let! n := get product (str "name") in
    let productData := set_name (js_or (name productData) (string_or_undefined n)) productData in
    let! b := jsonld_brand product in
    let productData := set_brand b productData in
    let! d := get product (str "description") in
    let productData :=
      set_description (js_or (description productData) (string_or_undefined d)) productData in
    let! offers := get product (str "offers") in
    let! productData :=
      if truthy offers then
        let offer := if isArray offers then first_item offers else offers in
        let! pr := backfill_price (price productData) offer in
        let productData := set_price pr productData in
        let! cur := backfill_currency (currency productData) offer in
        Return (set_currency cur productData)
      else Return productData in
    let! image := get product (str "image") in
    if truthy image then
      let img := if isArray image then first_item image else image in
      let! u := backfill_image (imageUrl productData) img in
      Return (set_imageUrl u productData)
    else Return productData
  else Return productData.

(** [urlParts[urlParts.length - 2]] *)
Definition second_to_last (parts : list jsstring) : value :=
  match rev parts with
  | _ :: x :: _ => VStr x
  | _ => VUndefined
  end.

Definition keywords (w : jsstring) (ws' : list jsstring) : RegExp :=
  mkRegExp (Alts (Lit w) (List.map Lit ws')) true.

Definition categoryPatterns : list (jsstring * RegExp) :=
  [ (str "shirt", keywords (str "shirt") [str "blouse"; str "top"]);
    (str "pants", keywords (str "pants") [str "trousers"; str "jeans"; str "bottoms"]);
    (str "dress", keywords (str "dress") [str "gown"]);
    (str "shoes", keywords (str "shoes") [str "sneakers"; str "boots"; str "footwear"]);
    (str "jacket", keywords (str "jacket") [str "coat"; str "blazer"; str "outerwear"]) ].

Fixpoint detect_category (url html : jsstring) (ps : list (jsstring * RegExp))
  : option jsstring :=
  match ps with
  | [] => None
  | (category, pattern) :: rest =>
      if regex_test pattern url || regex_test pattern html then Some category
      else detect_category url html rest
  end.

Definition failed_to_scrape (e : thrown) : thrown :=
  ErrorObject (str "Failed to scrape product page: " ++
               match e with
               | ErrorObject message => message
               | OtherValue => str "Unknown error"
               end).

(** The [try] block of [scrapeProductPage]. *)
Definition scrapeProductPage_body (p : platform) (url : jsstring)
  : outcome ProductData :=
  let! html := axios_get p url in
  let metaTags := extractMetaTags html in
  let jsonLd := extractJsonLd html in
  let! images := extractImages p html url in
  let sizes := extractSizes html in
  let priceData := extractPrice html in
  let productData := initial_product metaTags images sizes priceData in
  let! productData := for_of jsonld_step jsonLd productData in
  let! productData :=
    if negb (truthy (brand productData)) then
      let! hostname := URL_hostname p url in
      let urlParts := split_on 46 hostname in
      Return (set_brand (second_to_last urlParts) productData)
    else Return productData in
  let productData :=
    match detect_category url html categoryPatterns with
    | Some c => set_category (Some c) productData
    | None => productData
    end in
  Return productData.

Definition scrapeProductPage (p : platform) (url : jsstring) : outcome ProductData :=
  try_catch (scrapeProductPage_body p url)
    (fun error => Throw (failed_to_scrape error)).

(** ** scrapeSizeChart *)

Definition element (tagname : jsstring) (body : regex) : regex :=
  Seqs [Lit (str "<" ++ tagname); Star true (none_of 62); Lit (str ">");
        Group 1 body; Lit (str "</" ++ tagname ++ str ">")].

Definition tableRegex : RegExp := mkRegExp (element (str "table") (Star false any)) true.
Definition headerRegex : RegExp := mkRegExp (element (str "th") (Plus (none_of 60))) true.
Definition rowRegex : RegExp := mkRegExp (element (str "tr") (Star false any)) true.
Definition cellRegex : RegExp := mkRegExp (element (str "td") (Plus (none_of 60))) true.

(** [/size|chest|waist|length/i] *)
Definition sizeInfoRegex : RegExp :=
  keywords (str "size") [str "chest"; str "waist"; str "length"].

(** [/^(XXS|XS|S|M|L|XL|XXL|XXXL|\d+)$/i] *)
Definition sizeLabelRegex : RegExp :=
  mkRegExp
    (Seqs [Bol;
           Group 1 (Alts (Lit (str "XXS"))
                      [Lit (str "XS"); Lit (str "S"); Lit (str "M");
                       Lit (str "L"); Lit (str "XL"); Lit (str "XXL");
                       Lit (str "XXXL"); Plus digit]);
           Eol])
    true.

(** The texts [match[1].trim()] pushed by one [exec] loop. *)
Definition trimmed_captures (re : RegExp) (s : jsstring) : list jsstring :=
  List.map (fun st => trim (capture 1 st)) (exec_all re s).

(** [sizeChart[size] = {}] followed by the loop over
    [i = 1 .. min(cells.length, headers.length) - 1]. *)
Definition measurements (headers cells : list jsstring) : gmap (list N) float :=
  fold_left
    (fun row i =>
       let measurement := parseFloat (nth i cells []) in
       if negb (isNaN measurement)
       then set_property (toLowerCase (nth i headers [])) measurement row
       else row)
    (seq 1 (Nat.min (length cells) (length headers) - 1)) ∅.

(** The body of the loop over the rows of one table. *)
Definition row_step (headers : list jsstring)
    (sizeChart : gmap (list N) (gmap (list N) float)) (rowMatch : mstate)
  : gmap (list N) (gmap (list N) float) :=
  let cells := trimmed_captures cellRegex (capture 1 rowMatch) in
  match cells with
  | size :: _ =>
      if regex_test sizeLabelRegex size
      then <[size := measurements headers cells]> sizeChart
      else sizeChart
  | [] => sizeChart
  end.

(** The rows of one table added to the chart. *)
Definition table_rows (tableHtml : jsstring)
    (sizeChart : gmap (list N) (gmap (list N) float))
  : gmap (list N) (gmap (list N) float) :=
  let headers := trimmed_captures headerRegex tableHtml in
  fold_left (row_step headers) (exec_all rowRegex tableHtml) sizeChart.

(** The loop over the tables, with its [continue] and its [break]. *)
Fixpoint scan_tables (tables : list jsstring)
    (sizeChart : gmap (list N) (gmap (list N) float))
  : gmap (list N) (gmap (list N) float) :=
  match tables with
  | [] => sizeChart
  | tableHtml :: rest =>
      if negb (regex_test sizeInfoRegex tableHtml) then scan_tables rest sizeChart
      else
        let sizeChart := table_rows tableHtml sizeChart in
        if Nat.ltb 0 (size sizeChart) then sizeChart
        else scan_tables rest sizeChart
  end.

(** [tableMatch[1]] of every table the scan finds, in document order. *)
Definition tables_of (html : jsstring) : list jsstring :=
  List.map (capture 1) (exec_all tableRegex html).

Definition parse_size_chart (html : jsstring) : gmap (list N) (gmap (list N) float) :=
  scan_tables (tables_of html) ∅.

Definition scrapeSizeChart (p : platform) (url : jsstring)
  : outcome (gmap (list N) (gmap (list N) float)) :=
  try_catch
    (let! html := axios_get p url in
     Return (parse_size_chart html))
    (fun error => Return ∅).

(** ** getSizeChartUrl *)

(** What is left of one code unit after [toLowerCase()] and the removal
    of everything outside [a-z]. An ASCII letter gives its lower-case
    form. Two other code units have a lower-case mapping that holds an
    ASCII letter: the Kelvin sign U+212A maps to k, and the capital I
    with a dot above, U+0130, maps to i followed by the combining dot
    U+0307, which the replacement removes. Every other code unit maps
    outside [a-z] and disappears. *)
Definition lower_letters (c : N) : jsstring :=
  if is_lower c then [c]
  else if is_upper c then [(c + 32)%N]
  else if (c =? 8490)%N then [107%N]
  else if (c =? 304)%N then [105%N]
  else [].

(** [brand.toLowerCase().replace(/[^a-z]/g, '')] *)
Definition brand_key (brand : jsstring) : jsstring := flat_map lower_letters brand.

Definition sizeCharts : list (jsstring * jsstring) :=
  [ (str "nike", str "https://www.nike.com/size-fit-guide");
    (str "adidas", str "https://www.adidas.com/us/help/size_guide");
    (str "zara", str "https://www.zara.com/us/en/help/size-guide");
    (str "hm", str "https://www2.hm.com/en_us/customer-service/size-guide.html");
    (str "uniqlo", str "https://www.uniqlo.com/us/en/size-guide");
    (str "gap", str "https://www.gap.com/browse/sizeChart.do");
    (str "allsaints", str "https://www.allsaints.com/size-guide/") ].

(** What [sizeCharts[brandKey] || null] can be: a URL of the table,
    [null], or the function [Object], which the object literal inherits
    from [Object.prototype] under the key "constructor", the only
    inherited property whose name is made of the letters a to z. *)
Inductive chart_url : Type :=
| ChartUrl (url : jsstring)
| NoChart
| ObjectFunction.

(** [sizeCharts[brandKey]] followed by [|| null]. *)
Definition size_chart_entry (brandKey : jsstring) : chart_url :=
  match find (fun entry => str_eqb (fst entry) brandKey) sizeCharts with
  | Some (_, url) => ChartUrl url
  | None => if str_eqb brandKey (str "constructor") then ObjectFunction else NoChart
  end.

Definition getSizeChartUrl (brand : jsstring) (category : option jsstring) : chart_url :=
  let brandKey := brand_key brand in
  size_chart_entry brandKey.

(* ================================================================== *)
(** * gemini-service.ts: checkFitCompatibility *)
(* ================================================================== *)

Record FitResult : Type := mkFitResult {
  fits : bool;
  score : float;
  warnings : list jsstring;
  recommendations : list jsstring
}.

(** The variables the loop updates. *)
Record fit_state : Type := mkFitState {
  st_warnings : list jsstring;
  st_recommendations : list jsstring;
  totalDiff : float;
  measurementCount : float
}.

(** [((itemValue - userValue) / userValue) * 100] *)
Definition percent_diff (userValue itemValue : float) : float :=
  (((itemValue - userValue) / userValue) * 100)%float.

Definition tight_warning (key : jsstring) (diff : float) : jsstring :=
  key ++ str " may be tight (" ++ toFixed0 (Math_abs diff) ++ str "% smaller)".
Definition tight_recommendation (key : jsstring) : jsstring :=
  str "Consider sizing up for better " ++ key ++ str " fit".
Definition loose_warning (key : jsstring) (diff : float) : jsstring :=
  key ++ str " may be loose (" ++ toFixed0 diff ++ str "% larger)".
Definition loose_recommendation (key : jsstring) : jsstring :=
  str "Consider sizing down or tailoring the " ++ key.

(** What [itemMeasurements[key]] reads: the number stored under the key;
    for a key the mapping does not have, what a plain object inherits
    under that name from [Object.prototype] (a function, or the
    prototype itself under [__proto__]); otherwise [undefined]. *)
Inductive property_value : Type :=
| OwnNumber (x : float)
| InheritedObject
| NoProperty.

Definition read_property (o : gmap (list N) float) (key : jsstring) : property_value :=
  match o !! key with
  | Some x => OwnNumber x
  | None =>
      if existsb (str_eqb key) Object_prototype then InheritedObject else NoProperty
  end.

(** [ToBoolean]: an object is truthy. *)
Definition truthy_property (v : property_value) : bool :=
  match v with
  | OwnNumber x => truthy_num x
  | InheritedObject => true
  | NoProperty => false
  end.

(** [ToNumber], as the subtraction applies it: neither a function nor
    [Object.prototype] converts to a number. *)
Definition property_number (v : property_value) : float :=
  match v with
  | OwnNumber x => x
  | InheritedObject | NoProperty => nan
  end.

(** The body of [for (const [key, userValue] of Object.entries(userMeasurements))]. *)
Definition fit_step (itemMeasurements : gmap (list N) float) (st : fit_state)
    (entry : list N * float) : fit_state :=
  let '(key, userValue) := entry in
  let itemValue := read_property itemMeasurements key in
  if truthy_property itemValue then
    let diff := percent_diff userValue (property_number itemValue) in
    let total := (totalDiff st + Math_abs diff)%float in
    let count := (measurementCount st + 1)%float in
    if PrimFloat.ltb diff (-5)%float then
      mkFitState (st_warnings st ++ [tight_warning key diff])
        (st_recommendations st ++ [tight_recommendation key]) total count
    else if PrimFloat.ltb 10%float diff then
      mkFitState (st_warnings st ++ [loose_warning key diff])
        (st_recommendations st ++ [loose_recommendation key]) total count
    else mkFitState (st_warnings st) (st_recommendations st) total count
  else st.

(** [userMeasurements] is given by its entries, in the order
    [Object.entries] lists them. *)
Definition checkFitCompatibility (userMeasurements : list (list N * float))
    (itemMeasurements : gmap (list N) float) : FitResult :=
  let st := fold_left (fit_step itemMeasurements) userMeasurements
              (mkFitState [] [] 0%float 0%float) in
  let avgDiff :=
    if PrimFloat.ltb 0%float (measurementCount st)
    then (totalDiff st / measurementCount st)%float
    else 100%float in
  let score := Math_max 0%float (100 - avgDiff)%float in
  let fits := PrimFloat.ltb 70%float score && Nat.eqb (length (st_warnings st)) 0 in
  {| fits := fits;
     score := score;
     warnings := st_warnings st;
     recommendations := st_recommendations st |}.

(* ================================================================== *)
(** * gemini-service.ts: fileToPart and handleApiResponse *)
(* ================================================================== *)

(** The parts of the SDK's types that the two functions read. An
    optional property is an [option]: [None] when it is absent or
    holds [undefined] or [null]. *)
Record InlineData : Type := mkInlineData {
  mimeType : jsstring;
  data : jsstring
}.

Record Part : Type := mkPart {
  inlineData : option InlineData;
  text : option jsstring
}.

(** A candidate, with [parts] for its [content?.parts]. *)
Record Candidate : Type := mkCandidate {
  parts : option (list Part);
  finishReason : option jsstring
}.

Record PromptFeedback : Type := mkPromptFeedback {
  blockReason : option jsstring;
  blockReasonMessage : option jsstring
}.

Record GenerateContentResponse : Type := mkResponse {
  promptFeedback : option PromptFeedback;
  candidates : option (list Candidate)
}.

(** [ToBoolean] of an optional string. *)
Definition truthy_str (s : option jsstring) : bool :=
  match s with
  | Some (_ :: _) => true
  | _ => false
  end.

(** [s || fallback] for an optional string. *)
Definition or_else (s : option jsstring) (fallback : jsstring) : jsstring :=
  match s with
  | Some (c :: s') => c :: s'
  | _ => fallback
  end.

(** The argument of [fileToPart]: a browser [File], given by what
    [FileReader.readAsDataURL] delivers for it, or a [Buffer], given by
    its [toString('base64')]. *)
Inductive file_or_buffer : Type :=
| FileObject (readAsDataURL : outcome jsstring)
| BufferObject (base64 : jsstring).

(** The dot of a pattern without the [s] flag: any code unit but a line
    terminator. *)
Definition not_newline : regex :=
  Class true [CChar 10; CChar 13; CChar 8232; CChar 8233].

(** The pattern of [fileToPart]: a colon, a lazy run of code units in
    group 1, a semicolon. *)
Definition mimeRegex : RegExp :=
  mkRegExp (Seqs [Lit (str ":"); Group 1 (Star false not_newline); Lit (str ";")]) false.

Definition fileToPart (file : file_or_buffer) (mimeType : option jsstring)
  : outcome Part :=
  match file with
  | FileObject readAsDataURL =>
      let! dataUrl := readAsDataURL in
      let arr := split_on 44 dataUrl in
      if Nat.ltb (length arr) 2 then Throw (ErrorObject (str "Invalid data URL"))
      else
        let mimeMatch := str_match mimeRegex (nth 0 arr []) in
        match mimeMatch with
        | Some m =>
            if nonempty (capture 1 m)
            then Return (mkPart (Some (mkInlineData (capture 1 m) (nth 1 arr []))) None)
            else Throw (ErrorObject (str "Could not parse MIME type"))
        | None => Throw (ErrorObject (str "Could not parse MIME type"))
        end
  | BufferObject base64 =>
      Return (mkPart (Some (mkInlineData (or_else mimeType (str "image/jpeg")) base64))
                None)
  end.

(** [part => 'inlineData' in part && part.inlineData] *)
Definition has_inline_data (part : Part) : bool :=
  match inlineData part with Some _ => true | None => false end.

(** [response.candidates?.[0]] *)
Definition first_candidate (response : GenerateContentResponse) : option Candidate :=
  match candidates response with
  | Some (c :: _) => Some c
  | _ => None
  end.

Definition handleApiResponse (response : GenerateContentResponse) (context : jsstring)
  : outcome jsstring :=
  let blocked :=
    match promptFeedback response with
    | Some feedback =>
        if truthy_str (blockReason feedback) then Some feedback else None
    | None => None
    end in
  match blocked with
  | Some feedback =>
      Throw (ErrorObject (str "Request blocked: " ++ or_else (blockReason feedback) []
                          ++ str ". " ++ or_else (blockReasonMessage feedback) []))
  | None =>
      let imagePart :=
        match first_candidate response with
        | Some c =>
            match parts c with
            | Some ps => find has_inline_data ps
            | None => None
            end
        | None => None
        end in
      match imagePart with
      | Some {| inlineData := Some image |} =>
          Return (str "data:" ++ mimeType image ++ str ";base64," ++ data image)
      | _ =>
          let finishReason :=
            match first_candidate response with
            | Some c => finishReason c
            | None => None
            end in
          if truthy_str finishReason
             && negb (str_eqb (or_else finishReason []) (str "STOP"))
          then Throw (ErrorObject (str "Generation stopped for " ++ context ++ str ": "
                                   ++ or_else finishReason []))
          else Throw (ErrorObject (str "No image generated for " ++ context))
      end
  end.

(* ================================================================== *)
(** * The import route: POST *)
(* ================================================================== *)

(** [{...sizingData, ...measurements}], kept as its two operands: the
    size chart, when one was found, and the object whose own properties
    are laid over it, when the measurement succeeded. *)
Record SizingData : Type := mkSizingData {
  sizeChart : option (gmap (list N) (gmap (list N) float));
  measured : option value
}.

(** The [data] of the record that the route stores. *)
Record ItemData : Type := mkItemData {
  item_userId : value;
  item_name : value;
  item_category : jsstring;
  item_brand : value;
  item_sourceUrl : jsstring;
  item_imageUrl : value;
  item_price : value;
  item_currency : value;
  item_sizingData : SizingData;
  item_description : value;
  item_sizes : option (list jsstring);
  item_importedAt : jsstring
}.

(** What the handler asks of its surroundings: the session, the parsed
    body of the request, the inner [try] block up to the result of
    [extractClothingMeasurements] (given the image URL and the
    category), the database, the clock, and what [axios.get] does when
    it is handed the function [Object] instead of a URL. *)
Record services : Type := mkServices {
  getServerSession : outcome value;
  req_json : outcome value;
  measure : value -> option jsstring -> outcome value;
  clothingItem_create : ItemData -> outcome value;
  toISOString_now : jsstring;
  axios_get_Object : outcome jsstring
}.

Inductive response_body : Type :=
| ErrorBody (error : jsstring) (details : option jsstring)
| ImportedBody (item : value) (productData : ProductData) (sizingData : SizingData).

(** [NextResponse.json(body, { status })] *)
Record response : Type := json { body : response_body; status : nat }.

(** [const { k } = v] *)
Definition destructure (v : value) (k : jsstring) : outcome value :=
  match v with
  | VUndefined =>
      Throw (ErrorObject (str "Cannot destructure property '" ++ k
                          ++ str "' of '(intermediate value)' as it is undefined."))
  | VNull =>
      Throw (ErrorObject (str "Cannot destructure property '" ++ k
                          ++ str "' of '(intermediate value)' as it is null."))
  | _ => get v k
  end.

Definition not_a_function (callee : jsstring) : thrown :=
  ErrorObject (callee ++ str " is not a function").

(** [session?.user?.id] *)
Definition session_user_id (session : value) : outcome value :=
  let! user := get_opt session (str "user") in
  get_opt user (str "id").

(** The test [!url || !url.startsWith('http')], where [url] can be any
    JSON value: [None] when the test holds, the URL when it does not. *)
Definition checked_url (url : value) : outcome (option jsstring) :=
  if negb (truthy url) then Return None
  else match url with
       | VStr u => Return (if startsWith u (str "http") then Some u else None)
       | _ => Throw (not_a_function (str "url.startsWith"))
       end.

(** The block that starts with [let sizingData = {}] and ends before the
    measurement: the size chart that goes into [sizingData], if any.
    [getSizeChartUrl] calls [toLowerCase] on the brand, which only a
    string has. *)
Definition brand_size_chart (p : platform) (s : services) (productData : ProductData)
  : outcome (option (gmap (list N) (gmap (list N) float))) :=
  if truthy (brand productData) then
    let! sizeChartUrl :=
      match brand productData with
      | VStr b => Return (getSizeChartUrl b (category productData))
      | _ => Throw (not_a_function (str "brand.toLowerCase"))
      end in
    match sizeChartUrl with
    | ChartUrl u =>
        if nonempty u then
          let! chart := scrapeSizeChart p u in
          Return (if Nat.ltb 0 (size chart) then Some chart else None)
        else Return None
    | NoChart => Return None
    | ObjectFunction =>
        let! chart :=
          try_catch (let! html := axios_get_Object s in Return (parse_size_chart html))
            (fun error => Return ∅) in
        Return (if Nat.ltb 0 (size chart) then Some chart else None)
    end
  else Return None.

(** The inner [try] block: a failure leaves [sizingData] as it was. *)
Definition with_measurements (s : services) (productData : ProductData)
    (chart : option (gmap (list N) (gmap (list N) float))) : SizingData :=
  if truthy (imageUrl productData) then
    match measure s (imageUrl productData) (category productData) with
    | Return measurements => mkSizingData chart (Some measurements)
    | Throw error => mkSizingData chart None
    end
  else mkSizingData chart None.

Definition item_data (s : services) (userId : value) (url : jsstring)
    (productData : ProductData) (sizingData : SizingData) : ItemData :=
  {| item_userId := userId;
     item_name := js_or (name productData) (VStr (str "Imported Item"));
     item_category := or_else (category productData) (str "other");
     item_brand := brand productData;
     item_sourceUrl := url;
     item_imageUrl := imageUrl productData;
     item_price := price productData;
     item_currency := currency productData;
     item_sizingData := sizingData;
     item_description := description productData;
     item_sizes := sizes productData;
     item_importedAt := toISOString_now s |}.

(** The [try] block of the handler. *)
Definition POST_body (p : platform) (s : services) : outcome response :=
  let! session := getServerSession s in
  let! id := session_user_id session in
  if negb (truthy id) then Return (json (ErrorBody (str "Unauthorized") None) 401)
  else
    let! parsed := req_json s in
    let! url := destructure parsed (str "url") in
    let! checked := checked_url url in
    match checked with
    | None => Return (json (ErrorBody (str "Invalid URL provided") None) 400)
    | Some url =>
        let! productData := scrapeProductPage p url in
        if negb (truthy (imageUrl productData)) then
          Return (json (ErrorBody (str "Could not extract product image from URL") None)
                    400)
        else
          let! chart := brand_size_chart p s productData in
          let sizingData := with_measurements s productData chart in
          let! clothingItem :=
            clothingItem_create s (item_data s id url productData sizingData) in
          Return (json (ImportedBody clothingItem productData sizingData) 200)
    end.

Definition POST (p : platform) (s : services) : response :=
  match POST_body p s with
  | Return r => r
  | Throw error =>
      json (ErrorBody (str "Failed to import from URL")
              (Some (match error with
                     | ErrorObject message => message
                     | OtherValue => str "Unknown error"
                     end)))
        500
  end.

(* ================================================================== *)
(** * The meaning of a pattern *)
(* ================================================================== *)

(** [Matches ic r st st']: the pattern [r] can take the matcher from
    [st] to [st'], recording the captures of its groups on the way. The
    matcher [rmatch] explores these runs in priority order. *)
Inductive Matches (ic : bool) : regex -> mstate -> mstate -> Prop :=
| M_Empty st : Matches ic Empty st st
| M_Char c x rest st :
    m_rest st = x :: rest ->
    cu_eqb (canon ic c) (canon ic x) = true ->
    Matches ic (Char c) st (advance st x rest)
| M_Class negated items x rest st :
    m_rest st = x :: rest ->
    class_matches ic negated items x = true ->
    Matches ic (Class negated items) st (advance st x rest)
| M_Seq a b st1 st2 st3 :
    Matches ic a st1 st2 -> Matches ic b st2 st3 ->
    Matches ic (Seq a b) st1 st3
| M_AltL a b st st' : Matches ic a st st' -> Matches ic (Alt a b) st st'
| M_AltR a b st st' : Matches ic b st st' -> Matches ic (Alt a b) st st'
| M_StarStop g a st : Matches ic (Star g a) st st
| M_StarStep g a st1 st2 st3 :
    Matches ic a st1 st2 -> m_idx st2 <> m_idx st1 ->
    Matches ic (Star g a) st2 st3 ->
    Matches ic (Star g a) st1 st3
| M_Group n a st st' :
    Matches ic a st st' ->
    Matches ic (Group n a) st (set_capture n (consumed st st') st')
| M_Bol st : m_idx st = 0 -> Matches ic Bol st st
| M_Eol st : m_rest st = [] -> Matches ic Eol st st
| M_WordBoundary st :
    xorb (match m_prev st with Some c => is_word_char c | None => false end)
         (match m_rest st with c :: _ => is_word_char c | [] => false end) = true ->
    Matches ic WordBoundary st st.

(** A pattern that can match the empty string. *)
Fixpoint nullable (r : regex) : bool :=
  match r with
  | Empty | Star _ _ | Bol | Eol | WordBoundary => true
  | Char _ | Class _ _ => false
  | Seq a b => nullable a && nullable b
  | Alt a b => nullable a || nullable b
  | Group _ a => nullable a
  end.

(** A pattern without capturing groups. *)
Fixpoint group_free (r : regex) : bool :=
  match r with
  | Group _ _ => false
  | Seq a b | Alt a b => group_free a && group_free b
  | Star _ a => group_free a
  | _ => true
  end.

(** The code unit before the position reached after reading [pre]. *)
Fixpoint prev_after (prev : option N) (pre : jsstring) : option N :=
  match pre with
  | [] => prev
  | c :: pre' => prev_after (Some c) pre'
  end.

(* ================================================================== *)
(** * Statements about the fit scorer *)
(* ================================================================== *)

(** The key is in the item mapping with a value that is neither [0] nor
    [NaN]. *)
Definition comparable (itemMeasurements : gmap (list N) float) (key : jsstring) : bool :=
  match itemMeasurements !! key with
  | Some itemValue => truthy_num itemValue
  | None => false
  end.

(** The test [if (itemValue)] holds for the key: what
    [itemMeasurements[key]] reads is truthy. *)
Definition compared (itemMeasurements : gmap (list N) float) (key : jsstring) : bool :=
  truthy_property (read_property itemMeasurements key).

(** The user's entries without those of one key. *)
Definition without_key (key : jsstring) (user : list (list N * float))
  : list (list N * float) :=
  List.filter (fun e => negb (str_eqb (fst e) key)) user.

(** The warnings one entry adds, read off the loop body itself. *)
Definition entry_warnings (itemMeasurements : gmap (list N) float)
    (entry : list N * float) : list jsstring :=
  st_warnings (fit_step itemMeasurements (mkFitState [] [] 0%float 0%float) entry).

(** The thresholds as the specification words them, on the values
    themselves: below [userValue * 0.95] tight, above [userValue * 1.10]
    loose, otherwise nothing for that key. *)
Definition thresholds_on_values (user : list (list N * float))
    (item : gmap (list N) float) : Prop :=
  forall key u i,
    In (key, u) user -> item !! key = Some i -> PrimFloat.ltb 0%float u = true ->
    let ws := warnings (checkFitCompatibility user item) in
    (PrimFloat.ltb i (u * 0.95)%float = true ->
       exists d, In (tight_warning key d) ws)
    /\ (PrimFloat.ltb (u * 1.10)%float i = true ->
       exists d, In (loose_warning key d) ws)
    /\ (PrimFloat.ltb i (u * 0.95)%float = false ->
        PrimFloat.ltb (u * 1.10)%float i = false ->
        forall d, ~ In (tight_warning key d) ws /\ ~ In (loose_warning key d) ws).

(* ================================================================== *)
(** * Fixtures *)
(* ================================================================== *)

(** A platform that serves one document at every URL and parses URLs
    the simplest way: a relative reference is appended to the base, and
    every page is hosted at [www.nike.com]. *)
Definition serving (html : jsstring) : platform :=
  {| axios_get := fun _ => Return html;
     URL_href := fun url base => Return (base ++ url);
     URL_hostname := fun _ => Return (str "www.nike.com") |}.

(** A platform whose every request is rejected with a network error. *)
Definition unreachable : platform :=
  {| axios_get := fun _ => Throw (ErrorObject (str "Network Error"));
     URL_href := fun url base => Return (base ++ url);
     URL_hostname := fun _ => Return (str "www.nike.com") |}.

Definition chest : jsstring := str "chest".
Definition waist : jsstring := str "waist".

(* ================================================================== *)
(** * Statements about extractMetaTags *)
(* ================================================================== *)












(** The same state, [d] positions further in a longer document. *)
Definition shift (d : nat) (st : mstate) : mstate :=
  mkState (m_prev st) (m_rest st) (d + m_idx st) (m_caps st).

(* ================================================================== *)
(** * Statements about extractPrice *)
(* ================================================================== *)







(* ================================================================== *)
(** * Statements about scrapeSizeChart *)
(* ================================================================== *)

(** The text contains the word, in any letter case. *)
Definition mentions (word text : jsstring) : bool :=
  includes (toUpperCase text) (toUpperCase word).

(** The words that make a table a candidate. *)
Definition size_words : list jsstring :=
  [str "size"; str "chest"; str "waist"; str "length"].

(** A table that the scan keeps and that yields at least one size. *)
Definition yields_sizes (tableHtml : jsstring) : bool :=
  existsb (fun w => mentions w tableHtml) size_words
  && Nat.ltb 0 (size (table_rows tableHtml ∅)).

(** C4, first half, as worded: with two tables of which only the second
    contains "chest", the chart is that of the second table. *)
Definition only_chest_table_wins (html : jsstring) : Prop :=
  forall t1 t2,
    tables_of html = [t1; t2] ->
    mentions chest t1 = false -> mentions chest t2 = true ->
    parse_size_chart html = table_rows t2 ∅.

Definition waist_then_chest : jsstring :=
  str "<table><tr><th>Size</th><th>Waist</th></tr><tr><td>M</td><td>30</td></tr></table><table><tr><th>Size</th><th>Chest</th></tr><tr><td>M</td><td>38</td></tr></table>".

Definition care_then_chest : jsstring :=
  str "<table><tr><td>Wash</td><td>30</td></tr></table><table><tr><th>Label</th><th>Chest</th></tr><tr><td>M</td><td>38</td></tr></table>".

(* ================================================================== *)
(** * Statements about the JSON-LD backfill *)
(* ================================================================== *)

(** The fields the loop fills with [field = field || ...]. *)
Inductive backfilled_field : Type :=
| FName
| FDescription
| FPrice
| FCurrency
| FImageUrl.

Definition field_of (f : backfilled_field) (pd : ProductData) : value :=
  match f with
  | FName => name pd
  | FDescription => description pd
  | FPrice => price pd
  | FCurrency => currency pd
  | FImageUrl => imageUrl pd
  end.

(** What a Product block offers for a field: the right operand of the
    field's [||] in the loop body, and [undefined] when the block has no
    [offers] (for the price and the currency) or no [image]. *)
Definition offered (f : backfilled_field) (product : value) : outcome value :=
  match f with
  | FName =>
      let! n := get product (str "name") in Return (string_or_undefined n)
  | FDescription =>
      let! d := get product (str "description") in Return (string_or_undefined d)
  | FPrice =>
      let! offers := get product (str "offers") in
      if truthy offers
      then backfill_price VUndefined (if isArray offers then first_item offers else offers)
      else Return VUndefined
  | FCurrency =>
      let! offers := get product (str "offers") in
      if truthy offers
      then backfill_currency VUndefined (if isArray offers then first_item offers else offers)
      else Return VUndefined
  | FImageUrl =>
      let! image := get product (str "image") in
      if truthy image
      then backfill_image VUndefined (if isArray image then first_item image else image)
      else Return VUndefined
  end.

(** What any block offers: nothing unless it is a Product. *)
Definition candidate (f : backfilled_field) (data : value) : outcome value :=
  let! is_p := is_product data in
  if is_p then offered f data else Return VUndefined.

(** The values the extractors gave, before the JSON-LD loop. *)
Definition preferred (html : jsstring) (images : list jsstring) : ProductData :=
  initial_product (extractMetaTags html) images (extractSizes html) (extractPrice html).

(** The first block that is a Product. *)
Definition first_product (blocks : list value) : option value :=
  find (fun d => match is_product d with Return true => true | _ => false end) blocks.

(** C3 as worded: a field keeps a preferred value that is present, and
    otherwise takes what the first Product block offers, whatever later
    blocks hold. *)
Definition first_block_only (f : backfilled_field) (p : platform) (url : jsstring) : Prop :=
  forall html images pd,
    axios_get p url = Return html ->
    extractImages p html url = Return images ->
    scrapeProductPage p url = Return pd ->
    field_of f pd
    = match field_of f (preferred html images) with
      | VUndefined =>
          match first_product (extractJsonLd html) with
          | Some d => match offered f d with Return v => v | Throw _ => VUndefined end
          | None => VUndefined
          end
      | present => present
      end.

(** The same for the brand, which has no preferred source. *)
Definition brand_of_first_block (p : platform) (url : jsstring) : Prop :=
  forall html pd d v,
    axios_get p url = Return html ->
    scrapeProductPage p url = Return pd ->
    first_product (extractJsonLd html) = Some d ->
    jsonld_brand d = Return v -> truthy v = true ->
    brand pd = v.

Definition two_products : jsstring :=
  dq (str "<script type=`application/ld+json`>{`@type`:`Product`,`brand`:{`name`:`Acme`}}</script><script type=`application/ld+json`>{`@type`:`Product`,`name`:`Linen shirt`,`brand`:{`name`:`Bolt`}}</script>").

Definition free_gift : jsstring :=
  dq (str "<p>Gift: $0</p><script type=`application/ld+json`>{`@type`:`Product`,`offers`:{`price`:`25`,`priceCurrency`:`CAD`}}</script>").

Definition shop_url : jsstring := str "https://www.nike.com/t/linen-shirt".

Definition icon_page : jsstring :=
  str "<img src='http://cdn.example/icon.png'><div data-src='http://cdn.example/logo.png'></div>".

(** The patterns the source runs in an [exec] loop. *)
Definition exec_patterns : list RegExp :=
  [ogRegex; twitterRegex; metaRegex; jsonLdRegex; imgRegex; dataSrcRegex;
   tableRegex; headerRegex; rowRegex; cellRegex] ++ sizePatterns.

Definition lt_in_json_string : jsstring :=
  dq (str "<script type=`application/ld+json`>{`@type`:`Product`,`name`:`Tee <b>new</b>`}</script>").

(** A text that is not empty and holds neither kind of quote. *)
Definition quote_free (w : jsstring) : Prop :=
  w <> [] /\ ~ In dquote w /\ ~ In squote w.

Definition apostrophe_page : jsstring :=
  dq (str "<meta name=`description` content=`Men's linen shirt`>").

(* ================================================================== *)
(** * Statements about the category and the brand *)
(* ================================================================== *)

(** The keywords of [categoryPatterns], by category, in declaration
    order. *)
Definition category_words : list (list N * list (list N)) :=
  [ (str "shirt", [str "shirt"; str "blouse"; str "top"]);
    (str "pants", [str "pants"; str "trousers"; str "jeans"; str "bottoms"]);
    (str "dress", [str "dress"; str "gown"]);
    (str "shoes", [str "shoes"; str "sneakers"; str "boots"; str "footwear"]);
    (str "jacket", [str "jacket"; str "coat"; str "blazer"; str "outerwear"]) ].

(** One of the words occurs in the URL or in the page, in any letter
    case. *)
Definition mentioned_in (url html : jsstring) (words : list (list N)) : bool :=
  existsb (fun w => mentions w url || mentions w html) words.

(** [labels.join(sep)] *)
Fixpoint join (sep : N) (labels : list jsstring) : jsstring :=
  match labels with
  | [] => []
  | [l] => l
  | l :: rest => l ++ sep :: join sep rest
  end.

Definition dot : N := 46%N.

Definition null_block_page : jsstring :=
  dq (str "<meta property=`og:image` content=`https://cdn.example/a.png`><script type=`application/ld+json`>null</script>").

Definition coat_page : jsstring :=
  dq (str "<title>Wool coat | laptop sleeves</title>").

Definition dotless (label : jsstring) : Prop := ~ In dot label.

Definition plain_url : jsstring := str "https://store.example/p/1042".

(** A platform that serves [html] from the host [hostname]. *)
Definition hosted (hostname html : jsstring) : platform :=
  {| axios_get := fun _ => Return html;
     URL_href := fun url base => Return (base ++ url);
     URL_hostname := fun _ => Return hostname |}.

Definition uk_host : jsstring := str "shop.example.co.uk".

(* ================================================================== *)
(** * Statements about extractImages *)
(* ================================================================== *)

(** A platform whose URL constructor rejects the reference [//]. *)
Definition strict_urls (html : jsstring) : platform :=
  {| axios_get := fun _ => Return html;
     URL_href := fun url base =>
       if str_eqb url (str "//") then Throw (ErrorObject (str "Invalid URL"))
       else Return (base ++ url);
     URL_hostname := fun _ => Return (str "store.example") |}.

Definition empty_reference_page : jsstring :=
  dq (str "<meta property=`og:image` content=`https://cdn.example/a.png`><div data-src=`//`></div>").

Definition repeated_image_page : jsstring :=
  str "<img src='http://cdn.example/a.png'><img src='http://cdn.example/a.png' data-src='http://cdn.example/a.png'>".

(* ================================================================== *)
(** * Statements about extractSizes *)
(* ================================================================== *)

Definition letter_sizes : list jsstring :=
  [str "XXS"; str "XS"; str "S"; str "M"; str "L"; str "XL"; str "XXL"; str "XXXL"].

(** The three shapes of a size: a letter size; the word SIZE, white
    space or none, and digits; digits and one capital letter. *)
Definition size_shaped (s : jsstring) : Prop :=
  In s letter_sizes
  \/ (exists spaces digits,
        s = str "SIZE" ++ spaces ++ digits
        /\ forallb is_space spaces = true
        /\ digits <> [] /\ forallb is_digit digits = true)
  \/ (exists digits letter,
        s = digits ++ [letter]
        /\ digits <> [] /\ forallb is_digit digits = true
        /\ is_upper letter = true).

Definition sizes_page : jsstring :=
  str "<li>size 10</li><li>Size 10</li><li>SIZE  12</li><li>M</li><li>32W</li><li>m</li>".

(* ================================================================== *)
(** * Statements about the size chart *)
(* ================================================================== *)

(** A size label: a letter size in any letter case, or digits. *)
Definition size_label (label : jsstring) : Prop :=
  In (toUpperCase label) letter_sizes
  \/ (label <> [] /\ forallb is_digit label = true).

(** The trimmed cells of every row of a table, in document order. *)
Definition rows_of (tableHtml : jsstring) : list (list jsstring) :=
  List.map (fun rowMatch => trimmed_captures cellRegex (capture 1 rowMatch))
    (exec_all rowRegex tableHtml).

(** The row starts with this label, and the label passes the test. *)
Definition labelled (label : jsstring) (cells : list jsstring) : bool :=
  match cells with
  | size :: _ => str_eqb size label && regex_test sizeLabelRegex size
  | [] => false
  end.

Definition repeated_label_chart : jsstring :=
  str "<table><tr><th>Size</th><th>Chest</th><th>Waist</th></tr><tr><td>M</td><td>96</td><td>80</td></tr><tr><td>M</td><td>n/a</td><td>82</td></tr></table>".

(* ================================================================== *)
(** * Further statements about the fit scorer *)
(* ================================================================== *)

(** A warning and the recommendation pushed with it. *)
Definition paired (user : list (list N * float)) (warning recommendation : jsstring)
  : Prop :=
  exists key diff,
    In key (List.map fst user)
    /\ ((warning = tight_warning key diff /\ recommendation = tight_recommendation key)
        \/ (warning = loose_warning key diff
            /\ recommendation = loose_recommendation key)).

Definition hips : jsstring := str "hips".

(* ================================================================== *)
(** * Statements about getSizeChartUrl *)
(* ================================================================== *)

(** A code unit that [brand_key] drops. *)
Definition no_letter (c : N) : Prop :=
  is_lower c = false /\ is_upper c = false /\ c <> 8490%N /\ c <> 304%N.

(* ================================================================== *)
(** * Statements about fileToPart and handleApiResponse *)
(* ================================================================== *)

(** The data URL of an image. *)
Definition data_url (image : InlineData) : jsstring :=
  str "data:" ++ mimeType image ++ str ";base64," ++ data image.

Definition is_line_terminator (c : N) : bool :=
  ((c =? 10) || (c =? 13) || (c =? 8232) || (c =? 8233))%N.

(** A MIME type that the pattern of [fileToPart] reads back whole: not
    empty, on one line, without a comma and without a semicolon. *)
Definition plain_mime (mime : jsstring) : Prop :=
  mime <> []
  /\ forallb (fun c => negb (is_line_terminator c) && negb (c =? 44)%N
                       && negb (c =? 59)%N) mime = true.

Definition png : InlineData := mkInlineData (str "image/png") (str "iVBORw0KGgo=").

Definition two_images : GenerateContentResponse :=
  mkResponse None
    (Some [mkCandidate
             (Some [mkPart None (Some (str "Here is the result"));
                    mkPart (Some png) None;
                    mkPart (Some (mkInlineData (str "image/jpeg") (str "AAAA"))) None])
             (Some (str "STOP"));
           mkCandidate
             (Some [mkPart (Some (mkInlineData (str "image/webp") (str "BBBB"))) None])
             (Some (str "STOP"))]).

(* ================================================================== *)
(** * Statements about the import route *)
(* ================================================================== *)

(** A signed-in user, with the identifier [id], asks for the import of
    the URL [u], which starts with "http". *)
Definition requests (s : services) (id : value) (u : jsstring) : Prop :=
  exists session parsed,
    getServerSession s = Return session
    /\ session_user_id session = Return id
    /\ truthy id = true
    /\ req_json s = Return parsed
    /\ destructure parsed (str "url") = Return (VStr u)
    /\ startsWith u (str "http") = true.

(** The reply to a failure: status 500 with the message as details. *)
Definition failed_import (details : jsstring) : response :=
  json (ErrorBody (str "Failed to import from URL") (Some details)) 500.

(** A signed-in request for [plain_url], with a measurement service
    that is down. *)
Definition signed_in : services :=
  {| getServerSession := Return (VObj [(str "user", VObj [(str "id", VStr (str "u1"))])]);
     req_json := Return (VObj [(str "url", VStr plain_url)]);
     measure := fun _ _ => Throw (ErrorObject (str "fetch failed"));
     clothingItem_create := fun _ => Return (VObj [(str "id", VStr (str "item1"))]);
     toISOString_now := str "2025-01-01T00:00:00.000Z";
     axios_get_Object := Throw OtherValue |}.

Definition manufacturer_page : jsstring :=
  dq (str "<meta property=`og:image` content=`https://cdn.example/a.png`><script type=`application/ld+json`>{`@type`:`Product`,`name`:`Parka`,`manufacturer`:{`@type`:`Organization`,`name`:`Acme`}}</script>").

Definition image_page : jsstring :=
  dq (str "<meta property=`og:image` content=`https://cdn.example/a.png`>").

(** A platform that serves [html] for the product page and whose
    requests to every other address fail. *)
Definition unreachable_guides (html : jsstring) : platform :=
  {| axios_get := fun url =>
       if str_eqb url plain_url then Return html
       else Throw (ErrorObject (str "Network Error"));
     URL_href := fun url base => Return (base ++ url);
     URL_hostname := fun _ => Return (str "www.nike.com") |}.

(* ================================================================== *)
(** * Properties of the matcher *)
(* ================================================================== *)

Section MatcherFacts.
Variable ic : bool.

Lemma star_loop_sound g a body :
  (forall st k res, body st k = Some res ->
     exists st', Matches ic a st st' /\ k st' = Some res) ->
  forall fuel st k res,
    star_loop g body fuel st k = Some res ->
    exists st', Matches ic (Star g a) st st' /\ k st' = Some res.
Proof.
  intros Hbody fuel. induction fuel as [|f IH]; intros st k res H.
  - simpl in H. destruct g.
    + exists st. split; [constructor | exact H].
    + destruct (k st) eqn:Hk; [|discriminate].
      exists st. split; [constructor | congruence].
  - simpl in H.
    assert (Hagain : forall res',
      body st (fun st' => if Nat.eqb (m_idx st') (m_idx st) then None
                          else star_loop g body f st' k) = Some res' ->
      exists st', Matches ic (Star g a) st st' /\ k st' = Some res').
    { intros res' Hb. apply Hbody in Hb as (st1 & Hm & Hk).
      destruct (Nat.eqb (m_idx st1) (m_idx st)) eqn:He; [discriminate|].
      apply Nat.eqb_neq in He.
      apply IH in Hk as (st2 & Hm2 & Hk2).
      exists st2. split; [|exact Hk2]. eapply M_StarStep; eauto. }
    destruct g.
    + destruct (body st _) eqn:Hb.
      * inversion H; subst. apply Hagain. reflexivity.
      * exists st. split; [constructor | exact H].
    + destruct (k st) eqn:Hk.
      * exists st. split; [constructor | congruence].
      * apply Hagain. exact H.
Qed.

(** Soundness: a result of the matcher is a run of the pattern followed
    by a successful continuation. *)
Lemma rmatch_sound r :
  forall st k res,
    rmatch ic r st k = Some res ->
    exists st', Matches ic r st st' /\ k st' = Some res.
Proof.
  induction r as [ | c | negated items | a IHa b IHb | a IHa b IHb
                 | g a IHa | n a IHa | | | ]; intros st k res H; simpl in H.
  - exists st. split; [constructor | exact H].
  - destruct (m_rest st) as [|x rest] eqn:Hr; [discriminate|].
    destruct (cu_eqb (canon ic c) (canon ic x)) eqn:Hc; [|discriminate].
    exists (advance st x rest). split; [|exact H]. econstructor; eauto.
  - destruct (m_rest st) as [|x rest] eqn:Hr; [discriminate|].
    destruct (class_matches ic negated items x) eqn:Hc; [|discriminate].
    exists (advance st x rest). split; [|exact H]. econstructor; eauto.
  - apply IHa in H as (st1 & Hm1 & H). apply IHb in H as (st2 & Hm2 & H).
    exists st2. split; [|exact H]. econstructor; eauto.
  - destruct (rmatch ic a st k) eqn:Ha.
    + inversion H; subst. apply IHa in Ha as (st1 & Hm & Hk).
      exists st1. split; [|exact Hk]. apply M_AltL. exact Hm.
    + apply IHb in H as (st1 & Hm & Hk).
      exists st1. split; [|exact Hk]. apply M_AltR. exact Hm.
  - eapply star_loop_sound; eauto.
  - apply IHa in H as (st1 & Hm & Hk).
    eexists. split; [|exact Hk]. constructor. exact Hm.
  - destruct (Nat.eqb (m_idx st) 0) eqn:He; [|discriminate].
    apply Nat.eqb_eq in He. exists st. split; [constructor; exact He | exact H].
  - destruct (m_rest st) eqn:Hr; [|discriminate].
    exists st. split; [constructor; exact Hr | exact H].
  - match type of H with (if ?b then _ else _) = _ => destruct b eqn:Hx end;
      [|discriminate].
    exists st. split; [constructor; exact Hx | exact H].
Qed.

(** A run consumes a prefix of the remaining input. *)
Lemma Matches_rest r st st' :
  Matches ic r st st' ->
  exists w, m_rest st = w ++ m_rest st' /\ m_idx st' = m_idx st + length w.
Proof.
  induction 1 as [ st | c x rest st Hr Hc | negated items x rest st Hr Hc
                 | a b st1 st2 st3 _ IH1 _ IH2 | a b st st' _ IH | a b st st' _ IH
                 | g a st | g a st1 st2 st3 _ IH1 Hne _ IH2 | n a st st' _ IH
                 | st | st | st ];
    try (exists []; split; [reflexivity | simpl; lia]).
  - exists [x]. simpl. split; [exact Hr | lia].
  - exists [x]. simpl. split; [exact Hr | lia].
  - destruct IH1 as (w1 & E1 & L1), IH2 as (w2 & E2 & L2).
    exists (w1 ++ w2). rewrite <- app_assoc, <- E2, length_app. split; [exact E1 | lia].
  - exact IH.
  - exact IH.
  - destruct IH1 as (w1 & E1 & L1), IH2 as (w2 & E2 & L2).
    exists (w1 ++ w2). rewrite <- app_assoc, <- E2, length_app. split; [exact E1 | lia].
  - destruct IH as (w & E & L). exists w. simpl. split; [exact E | exact L].
Qed.

Lemma consumed_eq st st' w :
  m_rest st = w ++ m_rest st' -> m_idx st' = m_idx st + length w ->
  consumed st st' = w.
Proof.
  intros E L. unfold consumed. rewrite E, L.
  replace (m_idx st + length w - m_idx st) with (length w) by lia.
  rewrite firstn_app, Nat.sub_diag, firstn_all. simpl. apply app_nil_r.
Qed.

(** A pattern that is not nullable consumes at least one code unit. *)
Lemma Matches_progress r st st' :
  Matches ic r st st' -> nullable r = false -> m_idx st < m_idx st'.
Proof.
  induction 1 as [ st | c x rest st Hr Hc | negated items x rest st Hr Hc
                 | a b st1 st2 st3 H1 IH1 H2 IH2 | a b st st' _ IH | a b st st' _ IH
                 | g a st | g a st1 st2 st3 _ IH1 Hne _ IH2 | n a st st' _ IH
                 | st | st | st ]; simpl; intros Hn; try discriminate.
  - lia.
  - lia.
  - apply Matches_rest in H1 as (w1 & _ & L1), H2 as (w2 & _ & L2).
    apply andb_false_iff in Hn as [Hn|Hn]; [specialize (IH1 Hn) | specialize (IH2 Hn)]; lia.
  - apply orb_false_iff in Hn as [Hn _]. auto.
  - apply orb_false_iff in Hn as [_ Hn]. auto.
  - auto.
Qed.

(** A pattern without groups leaves the captures as they are. *)
Lemma Matches_group_free r st st' :
  Matches ic r st st' -> group_free r = true -> m_caps st' = m_caps st.
Proof.
  induction 1 as [ st | c x rest st Hr Hc | negated items x rest st Hr Hc
                 | a b st1 st2 st3 _ IH1 _ IH2 | a b st st' _ IH | a b st st' _ IH
                 | g a st | g a st1 st2 st3 _ IH1 Hne _ IH2 | n a st st' _ IH
                 | st | st | st ]; simpl; intros Hg; try reflexivity; try discriminate.
  - apply andb_true_iff in Hg as [G1 G2]. rewrite IH2, IH1; auto.
  - apply andb_true_iff in Hg as [G1 _]. auto.
  - apply andb_true_iff in Hg as [_ G2]. auto.
  - rewrite IH2, IH1; auto.
Qed.

(** The text matched by a repeated character class. *)
Lemma Matches_star_class g negated items st st' :
  Matches ic (Star g (Class negated items)) st st' ->
  exists w, m_rest st = w ++ m_rest st' /\ m_idx st' = m_idx st + length w
            /\ Forall (fun x => class_matches ic negated items x = true) w
            /\ m_caps st' = m_caps st.
Proof.
  intros H. remember (Star g (Class negated items)) as r eqn:Er.
  induction H as [ st | c x rest st Hr Hc | negated' items' x rest st Hr Hc
                 | a b st1 st2 st3 _ IH1 _ IH2 | a b st st' _ IH | a b st st' _ IH
                 | g' a st | g' a st1 st2 st3 H1 IH1 Hne H2 IH2 | n a st st' _ IH
                 | st | st | st ]; try discriminate.
  - exists []. simpl. repeat split; auto.
  - inversion Er; subst. clear IH1. specialize (IH2 eq_refl).
    destruct IH2 as (w & E & L & F & C).
    inversion H1; subst. simpl in *.
    exists (x :: w). simpl. rewrite <- E. repeat split; auto. lia.
Qed.
End MatcherFacts.

Section SearchFacts.
Variable re : RegExp.

Lemma Matches_Seq_inv ic a b st st'' :
  Matches ic (Seq a b) st st'' ->
  exists st', Matches ic a st st' /\ Matches ic b st' st''.
Proof. inversion 1; subst; eauto. Qed.

Lemma Matches_Alt_inv ic a b st st' :
  Matches ic (Alt a b) st st' -> Matches ic a st st' \/ Matches ic b st st'.
Proof. inversion 1; subst; auto. Qed.

Lemma Matches_Group_inv ic n a st st' :
  Matches ic (Group n a) st st' ->
  exists st1, Matches ic a st st1 /\ st' = set_capture n (consumed st st1) st1.
Proof. inversion 1; subst; eauto. Qed.

Lemma Matches_Empty_inv ic st st' : Matches ic Empty st st' -> st' = st.
Proof. inversion 1; subst; reflexivity. Qed.

Lemma Matches_Class_inv ic negated items st st' :
  Matches ic (Class negated items) st st' ->
  exists x rest, m_rest st = x :: rest /\ class_matches ic negated items x = true
                 /\ st' = advance st x rest.
Proof. inversion 1; subst; eauto. Qed.

Lemma Matches_Char_inv ic c st st' :
  Matches ic (Char c) st st' ->
  exists x rest, m_rest st = x :: rest /\ cu_eqb (canon ic c) (canon ic x) = true
                 /\ st' = advance st x rest.
Proof. inversion 1; subst; eauto. Qed.

(** A literal matches a text of the same length that agrees with it up
    to [canon]. *)
Lemma Matches_Lit ic w : forall st st',
  Matches ic (Lit w) st st' ->
  exists w', m_rest st = w' ++ m_rest st'
             /\ List.map (canon ic) w' = List.map (canon ic) w
             /\ m_caps st' = m_caps st.
Proof.
  induction w as [|c w IH]; intros st st' H; simpl in H.
  - apply Matches_Empty_inv in H. subst. exists []. auto.
  - apply Matches_Seq_inv in H as (st1 & H1 & H2).
    apply Matches_Char_inv in H1 as (x & rest & Hr & Hc & ->).
    apply IH in H2 as (w' & E & Hm & Hcaps). simpl in *.
    exists (x :: w'). rewrite Hr, E. simpl. repeat split; auto.
    apply N.eqb_eq in Hc. rewrite Hc, Hm. reflexivity.
Qed.

Lemma group_free_Lit w : group_free (Lit w) = true.
Proof. induction w; simpl; auto. Qed.

Lemma match_here_Matches prev idx s st :
  match_here re prev idx s = Some st ->
  Matches (ignoreCase re) (pattern re) (mkState prev s idx []) st.
Proof.
  unfold match_here. intros H.
  apply rmatch_sound in H as (st' & Hm & Hk). inversion Hk; subst. exact Hm.
Qed.

(** What [search_from] returns is a match at some later position. *)
Lemma search_from_sound s : forall prev idx st,
  search_from re prev idx s = Some st ->
  exists pre suf prev',
    s = pre ++ suf /\
    match_here re prev' (idx + length pre) suf = Some st.
Proof.
  induction s as [|c s IH]; intros prev idx st H; simpl in H.
  - destruct (match_here re prev idx []) eqn:Hm; [|discriminate].
    inversion H; subst. exists [], [], prev. simpl. rewrite Nat.add_0_r. auto.
  - destruct (match_here re prev idx (c :: s)) eqn:Hm.
    + inversion H; subst. exists [], (c :: s), prev. simpl.
      rewrite Nat.add_0_r. auto.
    + apply IH in H as (pre & suf & prev' & E & Hm').
      exists (c :: pre), suf, prev'. simpl. subst s.
      replace (idx + S (length pre)) with (S idx + length pre) by lia. auto.
Qed.

(** The leftmost position wins: nothing matches before the result. *)
Lemma search_from_none s : forall prev idx,
  search_from re prev idx s = None ->
  forall pre suf, s = pre ++ suf ->
    match_here re (prev_after prev pre) (idx + length pre) suf = None.
Proof.
  induction s as [|c s IH]; intros prev idx H pre suf E; simpl in H.
  - destruct pre; [|discriminate]. simpl in E. subst suf. simpl.
    rewrite Nat.add_0_r.
    destruct (match_here re prev idx []); [discriminate | reflexivity].
  - destruct (match_here re prev idx (c :: s)) eqn:Hm; [discriminate|].
    destruct pre as [|x pre]; simpl in E.
    + subst suf. simpl. rewrite Nat.add_0_r. exact Hm.
    + inversion E; subst.
      specialize (IH (Some x) (S idx) H pre suf eq_refl).
      replace (idx + length (x :: pre)) with (S idx + length pre) by (simpl; lia).
      exact IH.
Qed.

(** A match leaves a suffix of the input. *)
Lemma match_here_suffix prev idx s st :
  match_here re prev idx s = Some st ->
  exists w, s = w ++ m_rest st /\ m_idx st = idx + length w.
Proof.
  intros H. apply match_here_Matches, Matches_rest in H. exact H.
Qed.

Lemma match_here_progress prev idx s st :
  nullable (pattern re) = false ->
  match_here re prev idx s = Some st -> length (m_rest st) < length s.
Proof.
  intros Hn H. pose proof (match_here_Matches _ _ _ _ H) as Hm.
  pose proof (Matches_progress _ _ _ _ Hm Hn) as Hp.
  apply Matches_rest in Hm as (w & E & L). simpl in *.
  rewrite E, length_app. lia.
Qed.

Lemma search_from_progress prev idx s st :
  nullable (pattern re) = false ->
  search_from re prev idx s = Some st -> length (m_rest st) < length s.
Proof.
  intros Hn H. apply search_from_sound in H as (pre & suf & prev' & E & H).
  apply match_here_progress in H; [|exact Hn]. subst s. rewrite length_app. lia.
Qed.

(** The fuel of [exec_all] is enough: a pattern that is not nullable
    shortens the input at each match, so more fuel finds nothing more. *)
Lemma exec_loop_fuel :
  nullable (pattern re) = false ->
  forall n s prev idx f1 f2,
    length s <= n -> length s < f1 -> length s < f2 ->
    exec_loop f1 re prev idx s = exec_loop f2 re prev idx s.
Proof.
  intros Hn n. induction n as [|n IH]; intros s prev idx f1 f2 Hl H1 H2;
    (destruct f1 as [|f1]; [lia|]); (destruct f2 as [|f2]; [lia|]); simpl;
    destruct (search_from re prev idx s) as [st|] eqn:Hs; try reflexivity;
    pose proof (search_from_progress _ _ _ _ Hn Hs) as Hp.
  - lia.
  - f_equal. apply IH; lia.
Qed.

Lemma exec_all_fuel s fuel :
  nullable (pattern re) = false -> length s < fuel ->
  exec_loop fuel re None 0 s = exec_all re s.
Proof.
  intros Hn Hf. unfold exec_all. apply (exec_loop_fuel Hn (length s)); lia.
Qed.

(** Every result of the [exec] loop is a match on a suffix of the
    input. *)
Lemma exec_loop_In fuel : forall prev idx s st,
  In st (exec_loop fuel re prev idx s) ->
  exists pre suf prev' idx',
    s = pre ++ suf /\ match_here re prev' idx' suf = Some st.
Proof.
  induction fuel as [|f IH]; intros prev idx s st H; simpl in H; [contradiction|].
  destruct (search_from re prev idx s) as [st1|] eqn:Hs; [|contradiction].
  destruct H as [->|H].
  - apply search_from_sound in Hs as (pre & suf & prev' & E & Hm). eauto 6.
  - apply IH in H as (pre & suf & prev' & idx' & E & Hm).
    apply search_from_sound in Hs as (pre1 & suf1 & prev1 & E1 & Hm1).
    apply match_here_suffix in Hm1 as (w & E2 & _).
    exists (pre1 ++ w ++ pre), suf, prev', idx'. split; [|exact Hm].
    rewrite E1, E2, E, !app_assoc. reflexivity.
Qed.

Lemma exec_all_In s st :
  In st (exec_all re s) ->
  exists pre suf prev idx,
    s = pre ++ suf /\ match_here re prev idx suf = Some st.
Proof. apply exec_loop_In. Qed.
End SearchFacts.

(** No pattern of an [exec] loop matches the empty string, so every
    loop of the source ends and [exec_all] lists all its iterations. *)
Lemma exec_patterns_consume re html fuel :
  In re exec_patterns -> length html < fuel ->
  exec_loop fuel re None 0 html = exec_all re html.
Proof.
  intros Hin Hf. apply exec_all_fuel; [|exact Hf].
  unfold exec_patterns, sizePatterns in Hin. cbn [In app] in Hin.
  repeat (destruct Hin as [<-|Hin]; [reflexivity|]). contradiction.
Qed.

(* ================================================================== *)
(** * extractJsonLd *)
(* ================================================================== *)





(** A block whose body is valid JSON with [<] inside a string gives
    nothing, while the same block without the markup is parsed. *)
Example lt_in_json_string_is_dropped :
  extractJsonLd lt_in_json_string = []
  /\ JSON_parse (dq (str "{`@type`:`Product`,`name`:`Tee <b>new</b>`}"))
     = Some (VObj [(str "@type", VStr (str "Product"));
                   (str "name", VStr (str "Tee <b>new</b>"))]).
Proof. split; vm_compute; reflexivity. Qed.

(* ================================================================== *)
(** * checkFitCompatibility *)
(* ================================================================== *)

Lemma str_eqb_eq a : forall b, str_eqb a b = true <-> a = b.
Proof.
  induction a as [|x a IH]; intros [|y b]; simpl; split; intros H;
    try discriminate; try reflexivity.
  - apply andb_true_iff in H as [H1 H2]. apply N.eqb_eq in H1.
    apply IH in H2. congruence.
  - inversion H; subst. apply andb_true_iff. split.
    + apply N.eqb_refl.
    + apply IH. reflexivity.
Qed.

Lemma str_eqb_refl a : str_eqb a a = true.
Proof. apply str_eqb_eq. reflexivity. Qed.

(** The loop body only appends to the warnings. *)
Lemma fit_step_warnings item st entry :
  st_warnings (fit_step item st entry) = st_warnings st ++ entry_warnings item entry.
Proof.
  unfold entry_warnings, fit_step. destruct entry as [key userValue].
  destruct (truthy_property (read_property item key)); [|simpl; now rewrite app_nil_r].
  repeat match goal with
         | |- context [if ?b then _ else _] => destruct b
         end; simpl; now rewrite ?app_nil_r.
Qed.

Lemma fit_loop_warnings item user : forall st,
  st_warnings (fold_left (fit_step item) user st)
  = st_warnings st ++ flat_map (entry_warnings item) user.
Proof.
  induction user as [|e user IH]; intros st; simpl.
  - now rewrite app_nil_r.
  - rewrite IH, fit_step_warnings, <- app_assoc. reflexivity.
Qed.

Lemma checkFit_warnings user item :
  warnings (checkFitCompatibility user item) = flat_map (entry_warnings item) user.
Proof. unfold checkFitCompatibility. simpl. apply fit_loop_warnings. Qed.

(** An entry that is not compared leaves the loop state as it is. *)
Lemma fit_step_skip item st key u :
  compared item key = false -> fit_step item st (key, u) = st.
Proof.
  unfold compared, fit_step. intros ->. reflexivity.
Qed.

Lemma fit_loop_skip item user : forall st,
  (forall key u, In (key, u) user -> compared item key = false) ->
  fold_left (fit_step item) user st = st.
Proof.
  induction user as [|[key u] user IH]; intros st H; cbn [fold_left]; [reflexivity|].
  rewrite fit_step_skip by (eapply H; left; reflexivity).
  apply IH. intros k v Hin. eapply H. right. exact Hin.
Qed.

(** C2. [fits] is true exactly when the score exceeds 70 and no warning
    was emitted; with any warning, [fits] is false. *)
Theorem fits_iff_score_and_no_warnings
    (user : list (list N * float)) (item : gmap (list N) float) :
  let r := checkFitCompatibility user item in
  (fits r = true <-> PrimFloat.ltb 70%float (score r) = true /\ warnings r = [])
  /\ (warnings r <> [] -> fits r = false).
Proof.
  unfold checkFitCompatibility. cbn [fits score warnings].
  set (st := fold_left (fit_step item) user _).
  set (sc := Math_max _ _).
  assert (E : forall l : list jsstring, Nat.eqb (length l) 0 = true <-> l = []).
  { intros [|x l]; simpl; split; intros H; try reflexivity; discriminate. }
  split.
  - rewrite andb_true_iff, E. reflexivity.
  - intros Hne. apply andb_false_iff. right.
    destruct (st_warnings st); [contradiction | reflexivity].
Qed.

(** C9. The claim fails on the code when a key of the user's mapping
    names a property of [Object.prototype]. [{constructor: 100}] and the
    empty mapping share no key, yet [itemMeasurements["constructor"]]
    reads the inherited function [Object], which is truthy: the
    difference is NaN, one measurement is counted, and the score is NaN
    where the claim says [0]. [fits] is false and there is no
    warning. *)
Lemma inherited_key_scores_NaN :
  let r := checkFitCompatibility [(str "constructor", 100%float)] ∅ in
  is_nan (score r) = true /\ score r <> 0%float
  /\ fits r = false /\ warnings r = [].
Proof.
  assert (Hn : is_nan (score (checkFitCompatibility [(str "constructor", 100%float)] ∅))
               = true) by (vm_compute; reflexivity).
  cbv zeta. split; [exact Hn|]. split.
  - intros E. rewrite E in Hn. vm_compute in Hn. discriminate Hn.
  - split; vm_compute; reflexivity.
Qed.

(** The example of the specification: [{chest: 100}] against
    [{chest: 90}] scores 90 with one tight warning and does not fit. *)
Example chest_100_against_90 :
  let r := checkFitCompatibility [(chest, 100%float)] (<[chest := 90%float]> ∅) in
  score r = 90%float /\ fits r = false
  /\ warnings r = [str "chest may be tight (10% smaller)"]
  /\ recommendations r = [str "Consider sizing up for better chest fit"].
Proof. vm_compute. repeat split; reflexivity. Qed.

(** A difference computed from what is not a number is NaN, and NaN is
    neither below [-5] nor above [10]. *)
Lemma percent_diff_NaN u : Prim2SF (percent_diff u nan) = S754_nan.
Proof.
  unfold percent_diff.
  rewrite FloatAxioms.mul_spec, FloatAxioms.div_spec, FloatAxioms.sub_spec.
  reflexivity.
Qed.

Lemma NaN_diff_is_within_thresholds u :
  PrimFloat.ltb (percent_diff u nan) (-5)%float = false
  /\ PrimFloat.ltb 10%float (percent_diff u nan) = false.
Proof.
  rewrite !FloatAxioms.ltb_spec, percent_diff_NaN. split; reflexivity.
Qed.

(** A key that is not in the item mapping with a truthy number adds no
    warning, also when the loop compares an inherited property. *)
Lemma entry_warnings_not_comparable item key u :
  comparable item key = false -> entry_warnings item (key, u) = [].
Proof.
  unfold comparable, entry_warnings, fit_step, read_property.
  destruct (item !! key) as [v|].
  - cbn [truthy_property]. intros ->. reflexivity.
  - intros _. destruct (existsb (str_eqb key) Object_prototype); [|reflexivity].
    cbn [truthy_property property_number].
    destruct (NaN_diff_is_within_thresholds u) as [-> ->]. reflexivity.
Qed.

Lemma without_key_other item key u user :
  entry_warnings item (key, u) = [] ->
  List.NoDup (List.map fst user) -> In (key, u) user ->
  flat_map (entry_warnings item) (without_key key user)
  = flat_map (entry_warnings item) user.
Proof.
  intros Hnil. induction user as [|[k v] user IH]; intros Hnd Hin; [reflexivity|].
  simpl in Hnd. apply List.NoDup_cons_iff in Hnd as [Hk Hnd].
  unfold without_key in *. simpl.
  destruct (str_eqb k key) eqn:Hkk; simpl.
  - apply str_eqb_eq in Hkk. subst k.
    destruct Hin as [Hin|Hin].
    + inversion Hin; subst. rewrite Hnil. simpl.
      clear IH. induction user as [|[k' v'] user IH']; [reflexivity|].
      simpl. destruct (str_eqb k' key) eqn:Hk'; simpl.
      * apply str_eqb_eq in Hk'. subst. exfalso. apply Hk. left. reflexivity.
      * f_equal. apply IH'.
        -- intros Hc. apply Hk. right. exact Hc.
        -- simpl in Hnd. apply List.NoDup_cons_iff in Hnd as [_ Hnd]. exact Hnd.
    + exfalso. apply Hk. change key with (fst (key, u)). apply in_map. exact Hin.
  - destruct Hin as [Hin|Hin].
    + inversion Hin; subst. rewrite str_eqb_refl in Hkk. discriminate.
    + f_equal. apply IH; assumption.
Qed.

(** C1, as the code has it. For a key of the user's mapping whose item
    value is present and neither [0] nor [NaN], with
    [percentDiff = ((itemValue - userValue) / userValue) * 100] in double
    precision: below [-5] the result holds the tight warning of the key,
    otherwise above [10] its loose warning, otherwise the warnings are
    those of the mapping without the key. A key whose item value is
    missing, [0] or [NaN] adds no warning either. *)
Theorem fit_warning_thresholds
    (user : list (list N * float)) (item : gmap (list N) float)
    (key : jsstring) (u : float) :
  List.NoDup (List.map fst user) ->
  In (key, u) user ->
  let r := checkFitCompatibility user item in
  (forall i, item !! key = Some i -> truthy_num i = true ->
     let d := percent_diff u i in
     (PrimFloat.ltb d (-5)%float = true -> In (tight_warning key d) (warnings r))
     /\ (PrimFloat.ltb d (-5)%float = false -> PrimFloat.ltb 10%float d = true ->
         In (loose_warning key d) (warnings r))
     /\ (PrimFloat.ltb d (-5)%float = false -> PrimFloat.ltb 10%float d = false ->
         warnings r = warnings (checkFitCompatibility (without_key key user) item)))
  /\ (comparable item key = false ->
      warnings r = warnings (checkFitCompatibility (without_key key user) item)).
Proof.
  intros Hnd Hin r. subst r. rewrite !checkFit_warnings. split.
  - intros i Hi Ht d.
    assert (Hw : entry_warnings item (key, u)
                 = if PrimFloat.ltb d (-5)%float then [tight_warning key d]
                   else if PrimFloat.ltb 10%float d then [loose_warning key d]
                   else []).
    { unfold entry_warnings, fit_step, read_property. rewrite Hi.
      cbn [truthy_property property_number]. rewrite Ht. fold d.
      destruct (PrimFloat.ltb d (-5)%float); [reflexivity|].
      destruct (PrimFloat.ltb 10%float d); reflexivity. }
    repeat split.
    + intros H1. apply in_flat_map. exists (key, u). split; [exact Hin|].
      rewrite Hw, H1. left. reflexivity.
    + intros H1 H2. apply in_flat_map. exists (key, u). split; [exact Hin|].
      rewrite Hw, H1, H2. left. reflexivity.
    + intros H1 H2. symmetry. apply (without_key_other item key u); auto.
      rewrite Hw, H1, H2. reflexivity.
  - intros Hc. symmetry. apply (without_key_other item key u); auto.
    apply entry_warnings_not_comparable. exact Hc.
Qed.

(** C1, as stated, fails twice. A garment value of [0] is skipped by the
    test [if (itemValue)], so [{chest: 100}] against [{chest: 0}] gets no
    tight warning although [0 < 100 * 0.95]. And the code compares the
    rounded percentage, so [{chest: 1}] against [{chest: 0.95}] gets a
    tight warning ([percentDiff] is [-5.000000000000004]) although
    [0.95 < 1 * 0.95] is false. *)
Lemma thresholds_on_values_counterexample :
  ~ thresholds_on_values [(chest, 100%float)] (<[chest := 0%float]> ∅)
  /\ ~ thresholds_on_values [(chest, 1%float)] (<[chest := 0.95%float]> ∅).
Proof.
  split; intros H.
  - specialize (H chest 100%float 0%float).
    cbv zeta in H.
    assert (E : warnings (checkFitCompatibility [(chest, 100%float)]
                            (<[chest := 0%float]> ∅)) = [])
      by (vm_compute; reflexivity).
    rewrite E in H.
    destruct H as [H _]; [left; reflexivity | vm_compute; reflexivity | reflexivity |].
    destruct H as [d []]. reflexivity.
  - specialize (H chest 1%float 0.95%float).
    cbv zeta in H.
    assert (E : warnings (checkFitCompatibility [(chest, 1%float)]
                            (<[chest := 0.95%float]> ∅))
                = [tight_warning chest (percent_diff 1 0.95)])
      by (vm_compute; reflexivity).
    rewrite E in H.
    destruct H as (_ & _ & H); [left; reflexivity | vm_compute; reflexivity | reflexivity |].
    destruct (H eq_refl eq_refl (percent_diff 1 0.95)) as [H1 _].
    apply H1. left. reflexivity.
Qed.

Lemma fit_warning_thresholds_witness :
  List.NoDup (List.map fst [(chest, 100%float); (waist, 80%float)])
  /\ In (chest, 100%float) [(chest, 100%float); (waist, 80%float)]
  /\ (<[chest := 90%float]> (<[waist := 100%float]> ∅) : gmap (list N) float) !! chest
     = Some 90%float
  /\ truthy_num 90%float = true
  /\ In (tight_warning chest (percent_diff 100 90))
       (warnings (checkFitCompatibility [(chest, 100%float); (waist, 80%float)]
                    (<[chest := 90%float]> (<[waist := 100%float]> ∅)))).
Proof.
  assert (Hnd : List.NoDup (List.map fst [(chest, 100%float); (waist, 80%float)])).
  { cbn [List.map fst]. apply List.NoDup_cons; [intros [H|[]]; discriminate|].
    apply List.NoDup_cons; [intros []|]. apply List.NoDup_nil. }
  assert (Hin : In (chest, 100%float) [(chest, 100%float); (waist, 80%float)])
    by (left; reflexivity).
  assert (Hl : (<[chest := 90%float]> (<[waist := 100%float]> ∅) : gmap (list N) float)
               !! chest = Some 90%float) by (vm_compute; reflexivity).
  assert (Ht : truthy_num 90%float = true) by reflexivity.
  repeat split; try assumption.
  apply (proj1 (proj1 (fit_warning_thresholds _ _ chest 100%float Hnd Hin)
                  90%float Hl Ht)).
  reflexivity.
Defined.

(* ================================================================== *)
(** * Failure policy of the two scraping operations *)
(* ================================================================== *)

(** C5. [scrapeSizeChart] never throws: it returns a chart for every
    platform and URL, and the empty chart when the fetch fails; what the
    [try] block of [scrapeProductPage] throws is thrown again as an
    [Error] whose message starts with "Failed to scrape product page: ". *)
Theorem size_chart_failure_is_soft (p : platform) (url : jsstring) :
  (exists chart, scrapeSizeChart p url = Return chart)
  /\ (forall e, axios_get p url = Throw e -> scrapeSizeChart p url = Return ∅)
  /\ (forall e, axios_get p url = Throw e ->
        scrapeProductPage p url = Throw (failed_to_scrape e))
  /\ (forall e, scrapeProductPage_body p url = Throw e ->
        scrapeProductPage p url = Throw (failed_to_scrape e))
  /\ (forall e, scrapeProductPage p url = Throw e ->
        exists message,
          e = ErrorObject (str "Failed to scrape product page: " ++ message)).
Proof.
  unfold scrapeSizeChart, scrapeProductPage, try_catch.
  repeat split.
  - destruct (axios_get p url); simpl; eauto.
  - intros e He. rewrite He. reflexivity.
  - intros e He. unfold scrapeProductPage_body. rewrite He. reflexivity.
  - intros e He. rewrite He. reflexivity.
  - intros e He. destruct (scrapeProductPage_body p url) as [pd|e0]; [discriminate|].
    inversion He; subst. unfold failed_to_scrape. eauto.
Qed.

(* ================================================================== *)
(** * extractImages *)
(* ================================================================== *)

Lemma set_add_In_old x y s : In x s -> In x (set_add y s).
Proof.
  unfold set_add. destruct (existsb (str_eqb y) s); [auto|].
  intros H. apply in_or_app. left. exact H.
Qed.

Lemma set_add_In_new y s : In y (set_add y s).
Proof.
  unfold set_add. destruct (existsb (str_eqb y) s) eqn:E.
  - apply existsb_exists in E as (z & Hz & Heq).
    apply str_eqb_eq in Heq. subst. exact Hz.
  - apply in_or_app. right. left. reflexivity.
Qed.

Lemma set_add_In_inv x y s : In x (set_add y s) -> x = y \/ In x s.
Proof.
  unfold set_add. destruct (existsb (str_eqb y) s); [auto|].
  intros H. apply in_app_or in H as [H|[H|[]]]; auto.
Qed.

(** The capture of a group [(C+)] over a character class, followed by a
    pattern without groups, is a non-empty text of the class. *)
Lemma capture_of_plus_class ic n negated items tail st st' :
  Matches ic (Seq (Group n (Plus (Class negated items))) tail) st st' ->
  group_free tail = true ->
  capture n st' <> []
  /\ Forall (fun x => class_matches ic negated items x = true) (capture n st').
Proof.
  intros H Hg.
  apply Matches_Seq_inv in H as (s1 & H1 & H2).
  apply Matches_Group_inv in H1 as (s0 & H1 & ->).
  apply Matches_group_free in H2; [|exact Hg].
  unfold Plus in H1. apply Matches_Seq_inv in H1 as (sa & Ha & Hb).
  apply Matches_Class_inv in Ha as (x & rest & Hr & Hx & ->).
  apply Matches_star_class in Hb as (w & Ew & Lw & Fw & _).
  cbn [m_rest m_idx m_caps advance set_capture] in *.
  assert (E : consumed st s0 = x :: w).
  { apply consumed_eq; rewrite ?Hr, ?Ew, ?Lw; simpl; auto. }
  unfold capture. rewrite H2. simpl. rewrite Nat.eqb_refl, E.
  split; [discriminate | constructor; assumption].
Qed.

Lemma dataSrc_capture_nonempty html st :
  In st (exec_all dataSrcRegex html) -> nonempty (capture 1 st) = true.
Proof.
  intros H. apply exec_all_In in H as (pre & suf & prev & idx & _ & Hm).
  apply match_here_Matches in Hm.
  unfold dataSrcRegex, pattern, ignoreCase, Seqs in Hm. cbn [fold_right] in Hm.
  apply Matches_Seq_inv in Hm as (s1 & _ & Hm).
  apply Matches_Seq_inv in Hm as (s2 & _ & Hm).
  apply capture_of_plus_class in Hm as [Hne _]; [|reflexivity].
  destruct (capture 1 st); [contradiction | reflexivity].
Qed.

(** The [data-src] loop keeps what was there and adds every URL it is
    given. *)
Lemma data_src_loop p baseUrl ms : forall images0 images,
  for_of (add_data_src p baseUrl) ms images0 = Return images ->
  (forall u, In u images0 -> In u images)
  /\ (forall st, In st ms -> nonempty (capture 1 st) = true ->
        exists u, absolute p (capture 1 st) baseUrl = Return u /\ In u images)
  /\ (forall u, In u images ->
        In u images0 \/
        exists st, In st ms /\ absolute p (capture 1 st) baseUrl = Return u).
Proof.
  induction ms as [|m ms IH]; intros images0 images H; simpl in H.
  - inversion H; subst. repeat split; auto. intros st [].
  - unfold bind in H. destruct (add_data_src p baseUrl images0 m) as [images1|e] eqn:Hs;
      [|discriminate].
    apply IH in H as (Hold & Hall & Hinv).
    unfold add_data_src in Hs.
    destruct (nonempty (capture 1 m)) eqn:Hn.
    + unfold bind in Hs. destruct (absolute p (capture 1 m) baseUrl) as [u|e] eqn:Ha;
        [|discriminate].
      inversion Hs; subst images1. repeat split.
      * intros x Hx. apply Hold, set_add_In_old, Hx.
      * intros st [->|Hin] Hne; [|eauto].
        exists u. split; [exact Ha | apply Hold, set_add_In_new].
      * intros x Hx. apply Hinv in Hx as [Hx|(st & Hin & Hst)].
        -- apply set_add_In_inv in Hx as [->|Hx]; [|auto].
           right. exists m. split; [left; reflexivity | exact Ha].
        -- right. exists st. split; [right; exact Hin | exact Hst].
    + inversion Hs; subst images1. repeat split.
      * exact Hold.
      * intros st [->|Hin] Hne; [congruence | eauto].
      * intros x Hx. apply Hinv in Hx as [Hx|(st & Hin & Hst)]; [auto|].
        right. exists st. split; [right; exact Hin | exact Hst].
Qed.

(** The [src] loop adds only URLs without "icon" and "logo". *)
Lemma src_loop p baseUrl ms : forall images0 images,
  for_of (add_src p baseUrl) ms images0 = Return images ->
  forall u, In u images ->
    In u images0 \/
    exists st, In st ms
      /\ includes (capture 1 st) (str "icon") = false
      /\ includes (capture 1 st) (str "logo") = false
      /\ absolute p (capture 1 st) baseUrl = Return u.
Proof.
  induction ms as [|m ms IH]; intros images0 images H; simpl in H.
  - inversion H; subst. auto.
  - unfold bind in H. destruct (add_src p baseUrl images0 m) as [images1|e] eqn:Hs;
      [|discriminate].
    intros u Hu. apply (IH _ _ H) in Hu as [Hu|(st & Hin & Hst)].
    + unfold add_src in Hs.
      destruct (nonempty (capture 1 m) && negb (includes (capture 1 m) (str "icon"))
                && negb (includes (capture 1 m) (str "logo"))) eqn:Hc.
      * unfold bind in Hs. destruct (absolute p (capture 1 m) baseUrl) as [a|e] eqn:Ha;
          [|discriminate].
        inversion Hs; subst images1.
        apply set_add_In_inv in Hu as [->|Hu]; [|auto].
        apply andb_true_iff in Hc as [Hc Hlogo].
        apply andb_true_iff in Hc as [_ Hicon].
        apply negb_true_iff in Hlogo, Hicon.
        right. exists m. repeat split; auto. left. reflexivity.
      * inversion Hs; subst images1. auto.
    + right. exists st. split; [right; exact Hin | exact Hst].
Qed.

(** C8. When [extractImages] returns, every URL captured from a
    [data-src] attribute is in the result (as it is when it starts with
    "http", resolved against the base otherwise), whether or not it
    contains "icon" or "logo"; and every URL of the result was captured
    either by the [data-src] pass or by the [src] pass from a URL that
    contains neither word. *)
Theorem data_src_urls_are_not_filtered
    (p : platform) (html baseUrl : jsstring) (images : list jsstring) :
  extractImages p html baseUrl = Return images ->
  (forall st, In st (exec_all dataSrcRegex html) ->
     exists u, absolute p (capture 1 st) baseUrl = Return u /\ In u images)
  /\ (forall u, In u images ->
        (exists st, In st (exec_all imgRegex html)
           /\ includes (capture 1 st) (str "icon") = false
           /\ includes (capture 1 st) (str "logo") = false
           /\ absolute p (capture 1 st) baseUrl = Return u)
        \/ (exists st, In st (exec_all dataSrcRegex html)
              /\ absolute p (capture 1 st) baseUrl = Return u)).
Proof.
  unfold extractImages, bind. intros H.
  destruct (for_of (add_src p baseUrl) (exec_all imgRegex html) []) as [images1|e] eqn:H1;
    [|discriminate].
  destruct (for_of (add_data_src p baseUrl) (exec_all dataSrcRegex html) images1)
    as [images2|e] eqn:H2; [|discriminate].
  inversion H; subst images2.
  apply data_src_loop in H2 as (Hold & Hall & Hinv).
  split.
  - intros st Hin. apply Hall; [exact Hin|].
    eapply dataSrc_capture_nonempty. exact Hin.
  - intros u Hu. apply Hinv in Hu as [Hu|Hu]; [|auto].
    apply (src_loop _ _ _ _ _ H1) in Hu as [[]|Hu]. auto.
Qed.

Lemma data_src_urls_are_not_filtered_witness :
  extractImages (serving icon_page) icon_page (str "http://shop.example/")
  = Return [str "http://cdn.example/logo.png"]
  /\ List.map (capture 1) (exec_all imgRegex icon_page) = [str "http://cdn.example/icon.png"]
  /\ forall st, In st (exec_all dataSrcRegex icon_page) ->
       exists u, absolute (serving icon_page) (capture 1 st) (str "http://shop.example/")
                 = Return u
                 /\ In u [str "http://cdn.example/logo.png"].
Proof.
  assert (H : extractImages (serving icon_page) icon_page (str "http://shop.example/")
              = Return [str "http://cdn.example/logo.png"]) by (vm_compute; reflexivity).
  split; [exact H|]. split; [vm_compute; reflexivity|].
  exact (proj1 (data_src_urls_are_not_filtered _ _ _ _ H)).
Defined.

(* ================================================================== *)
(** * extractMetaTags *)
(* ================================================================== *)







(* ================================================================== *)
(** * The matcher does not depend on the absolute position *)
(* ================================================================== *)

Section Shift.
Variable ic : bool.







End Shift.


Lemma capture_shift n d st : capture n (shift d st) = capture n st.
Proof. reflexivity. Qed.

(* ================================================================== *)
(** * extractPrice *)
(* ================================================================== *)

Lemma startsWith_app w : forall b, startsWith (w ++ b) w = true.
Proof.
  induction w as [|c w IH]; intros b; simpl; [reflexivity|].
  unfold cu_eqb. rewrite N.eqb_refl. apply IH.
Qed.

Lemma includes_unfold s p :
  includes s p
  = startsWith s p || match s with [] => false | _ :: s' => includes s' p end.
Proof. destruct s; reflexivity. Qed.

Lemma includes_app a w b : includes (a ++ w ++ b) w = true.
Proof.
  induction a as [|c a IH]; simpl.
  - rewrite includes_unfold, startsWith_app. reflexivity.
  - rewrite IH. apply orb_true_r.
Qed.


(** A text that equals [P] up to letter case, anywhere in the page, shows
    in the upper-cased page. *)
Lemma includes_upper a w b P :
  toUpperCase w = P -> includes (toUpperCase (a ++ w ++ b)) P = true.
Proof.
  intros <-. unfold toUpperCase. rewrite !map_app. apply includes_app.
Qed.
















(* ================================================================== *)
(** * scrapeSizeChart *)
(* ================================================================== *)

(** A literal matches any text that agrees with it up to [canon]. *)
Lemma rmatch_Lit_prefix ic lit : forall w st rest k,
  m_rest st = w ++ rest ->
  List.map (canon ic) w = List.map (canon ic) lit ->
  rmatch ic (Lit lit) st k
  = k (mkState (prev_after (m_prev st) w) rest (m_idx st + length w) (m_caps st)).
Proof.
  induction lit as [|c lit IH]; intros w st rest k Hr Hm.
  - destruct w; [|discriminate]. simpl in *. rewrite Nat.add_0_r, <- Hr.
    destruct st; reflexivity.
  - destruct w as [|x w]; [discriminate|]. cbn [List.map] in Hm. injection Hm as Hx Hm.
    cbn [Lit fold_right rmatch]. rewrite Hr. cbn [app].
    unfold cu_eqb. rewrite Hx, N.eqb_refl.
    change (fold_right (fun c r => Seq (Char c) r) Empty lit) with (Lit lit).
    rewrite (IH w (advance st x (w ++ rest)) rest k eq_refl Hm).
    cbn [advance m_prev m_idx m_caps prev_after length]. f_equal. f_equal. lia.
Qed.

Lemma includes_inv p : forall s,
  includes s p = true -> exists a b, s = a ++ p ++ b.
Proof.
  assert (S : forall p s, startsWith s p = true -> exists b, s = p ++ b).
  { induction p0 as [|c p0 IH]; intros s H; simpl in H.
    - exists s. reflexivity.
    - destruct s as [|x s]; [discriminate|].
      apply andb_true_iff in H as [Hx H]. apply N.eqb_eq in Hx. subst x.
      apply IH in H as (b & ->). exists b. reflexivity. }
  induction s as [|x s IH]; intros H; rewrite includes_unfold in H;
    apply orb_true_iff in H as [H|H]; try discriminate.
  - apply S in H as (b & ->). exists [], b. reflexivity.
  - apply S in H as (b & ->). exists [], b. reflexivity.
  - apply IH in H as (a & b & ->). exists (x :: a), b. reflexivity.
Qed.

(** The test [/size|chest|waist|length/i] holds exactly for the texts
    that contain one of the four words in some letter case. *)
Lemma sizeInfo_test tableHtml :
  regex_test sizeInfoRegex tableHtml
  = existsb (fun w => mentions w tableHtml) size_words.
Proof.
  destruct (existsb (fun w => mentions w tableHtml) size_words) eqn:Hw.
  - apply existsb_exists in Hw as (kw & Hin & Hm).
    unfold mentions in Hm. apply includes_inv in Hm as (a & b & E).
    unfold toUpperCase in E.
    apply map_eq_app in E as (a' & r' & -> & Ea & E).
    apply map_eq_app in E as (w & b' & -> & Ew & Eb).
    unfold regex_test, str_match.
    destruct (search_from sizeInfoRegex None 0 (a' ++ w ++ b')) eqn:Hs; [reflexivity|].
    pose proof (search_from_none _ _ _ _ Hs a' (w ++ b') eq_refl) as Hn.
    exfalso. revert Hn. unfold match_here.
    set (st := mkState _ _ _ _).
    assert (L : forall lit k, List.map upper_cu w = List.map upper_cu lit ->
              rmatch true (Lit lit) st k
              = k (mkState (prev_after (m_prev st) w) b' (m_idx st + length w) (m_caps st))).
    { intros lit k Hl. apply rmatch_Lit_prefix; [reflexivity | exact Hl]. }
    unfold sizeInfoRegex, keywords, pattern, ignoreCase, Alts.
    cbn [List.map fold_left rmatch].
    unfold size_words in Hin. cbn [In] in Hin.
    destruct Hin as [<-|[<-|[<-|[<-|[]]]]];
      repeat match goal with
             | |- context [rmatch true (Lit ?l) st Some] =>
                 first [ rewrite (L l Some Ew)
                       | destruct (rmatch true (Lit l) st Some) ]
             end; discriminate.
  - unfold regex_test, str_match.
    destruct (search_from sizeInfoRegex None 0 tableHtml) as [st|] eqn:Hs; [|reflexivity].
    exfalso. apply search_from_sound in Hs as (pre & suf & prev & E & Hm).
    apply match_here_Matches in Hm.
    assert (K : forall kw, In kw size_words ->
              forall st0 st1, m_rest st0 = suf -> Matches true (Lit kw) st0 st1 -> False).
    { intros kw Hin st0 st1 Hr HL.
      apply Matches_Lit in HL as (w & Ew & Mw & _).
      assert (Hk : existsb (fun w => mentions w tableHtml) size_words = true).
      { apply existsb_exists. exists kw. split; [exact Hin|].
        unfold mentions. rewrite E, <- Hr, Ew. apply includes_upper. exact Mw. }
      rewrite Hw in Hk. discriminate. }
    unfold sizeInfoRegex, keywords, pattern, ignoreCase, Alts in Hm.
    cbn [List.map fold_left] in Hm.
    apply Matches_Alt_inv in Hm as [Hm|Hm];
      [apply Matches_Alt_inv in Hm as [Hm|Hm];
         [apply Matches_Alt_inv in Hm as [Hm|Hm]|]|];
      (eapply K; [ | | exact Hm]; [unfold size_words; cbn [In]; auto 6 | reflexivity]).
Qed.

(** The loop over the tables returns the rows of the first table that is
    kept and yields a size. *)
Lemma scan_tables_first tables :
  scan_tables tables ∅
  = match find yields_sizes tables with
    | Some t => table_rows t ∅
    | None => ∅
    end.
Proof.
  induction tables as [|t tables IH]; cbn [scan_tables find]; [reflexivity|].
  unfold yields_sizes at 1. rewrite sizeInfo_test.
  destruct (existsb (fun w => mentions w t) size_words); cbn [negb andb]; [|exact IH].
  destruct (Nat.ltb 0 (size (table_rows t ∅))) eqn:Hs; [reflexivity|].
  apply Nat.ltb_ge in Hs. assert (Hz : size (table_rows t ∅) = 0) by lia.
  apply map_size_empty_iff in Hz. rewrite Hz. exact IH.
Qed.

(** C4, as the code has it. The tables are scanned in document order; a
    table whose text contains none of the words size, chest, waist and
    length is skipped, and the scan stops at the first remaining table
    that yields a size entry. So with two tables, the first without any
    of the four words and the second containing "chest", the chart is
    built from the second table alone. *)
Theorem size_chart_from_first_yielding_table (html : jsstring) :
  parse_size_chart html
  = match find yields_sizes (tables_of html) with
    | Some t => table_rows t ∅
    | None => ∅
    end
  /\ (forall t1 t2,
        tables_of html = [t1; t2] ->
        existsb (fun w => mentions w t1) size_words = false ->
        mentions chest t2 = true ->
        parse_size_chart html = table_rows t2 ∅).
Proof.
  split; [apply scan_tables_first|].
  intros t1 t2 Ht H1 H2. unfold parse_size_chart.
  rewrite scan_tables_first, Ht. cbn [find]. unfold yields_sizes.
  rewrite H1. cbn [andb].
  assert (Hq : existsb (fun w => mentions w t2) size_words = true).
  { apply existsb_exists. exists chest. split; [|exact H2].
    unfold size_words, chest. simpl. tauto. }
  rewrite Hq. cbn [andb].
  destruct (Nat.ltb 0 (size (table_rows t2 ∅))) eqn:Hs; [reflexivity|].
  apply Nat.ltb_ge in Hs. assert (Hz : size (table_rows t2 ∅) = 0) by lia.
  apply map_size_empty_iff in Hz. rewrite Hz. reflexivity.
Qed.

(** C4, as stated, fails when the first table has no "chest" but has
    "Size" and "Waist": it is kept, yields the size M, and the scan stops
    before the table with "Chest". *)
Lemma only_chest_table_wins_counterexample :
  ~ only_chest_table_wins waist_then_chest.
Proof.
  intros H.
  specialize (H (str "<tr><th>Size</th><th>Waist</th></tr><tr><td>M</td><td>30</td></tr>")
                (str "<tr><th>Size</th><th>Chest</th></tr><tr><td>M</td><td>38</td></tr>")
                ltac:(vm_compute; reflexivity) ltac:(vm_compute; reflexivity)
                ltac:(vm_compute; reflexivity)).
  apply (f_equal (fun chart => chart !! str "M" ≫= fun row => row !! chest)) in H.
  vm_compute in H. discriminate.
Qed.

Lemma size_chart_from_first_yielding_table_witness :
  tables_of care_then_chest
  = [str "<tr><td>Wash</td><td>30</td></tr>";
     str "<tr><th>Label</th><th>Chest</th></tr><tr><td>M</td><td>38</td></tr>"]
  /\ existsb (fun w => mentions w (str "<tr><td>Wash</td><td>30</td></tr>")) size_words
     = false
  /\ mentions chest
       (str "<tr><th>Label</th><th>Chest</th></tr><tr><td>M</td><td>38</td></tr>") = true
  /\ parse_size_chart care_then_chest
     = table_rows
         (str "<tr><th>Label</th><th>Chest</th></tr><tr><td>M</td><td>38</td></tr>") ∅
  /\ parse_size_chart care_then_chest !! str "M" = Some {[ chest := 38%float ]}.
Proof.
  assert (H0 : tables_of care_then_chest
    = [str "<tr><td>Wash</td><td>30</td></tr>";
       str "<tr><th>Label</th><th>Chest</th></tr><tr><td>M</td><td>38</td></tr>"])
    by (vm_compute; reflexivity).
  assert (H1 : existsb (fun w => mentions w (str "<tr><td>Wash</td><td>30</td></tr>"))
                 size_words = false) by (vm_compute; reflexivity).
  assert (H2 : mentions chest
       (str "<tr><th>Label</th><th>Chest</th></tr><tr><td>M</td><td>38</td></tr>") = true)
    by (vm_compute; reflexivity).
  split; [exact H0|]. split; [exact H1|]. split; [exact H2|]. split.
  - exact (proj2 (size_chart_from_first_yielding_table care_then_chest) _ _ H0 H1 H2).
  - vm_compute. reflexivity.
Defined.

(* ================================================================== *)
(** * The JSON-LD backfill of scrapeProductPage *)
(* ================================================================== *)

(** One iteration of the loop, taken apart: either the block is not a
    Product and nothing changes, or each field is assigned as in the
    source. *)
Lemma jsonld_step_inv pd d pd' :
  jsonld_step pd d = Return pd' ->
  (is_product d = Return false /\ pd' = pd)
  \/ (is_product d = Return true /\
      exists n b ds offers image pr cur img,
        get d (str "name") = Return n
        /\ jsonld_brand d = Return b
        /\ get d (str "description") = Return ds
        /\ get d (str "offers") = Return offers
        /\ get d (str "image") = Return image
        /\ (if truthy offers
            then backfill_price (price pd)
                   (if isArray offers then first_item offers else offers) = Return pr
                 /\ backfill_currency (currency pd)
                      (if isArray offers then first_item offers else offers) = Return cur
            else pr = price pd /\ cur = currency pd)
        /\ (if truthy image
            then backfill_image (imageUrl pd)
                   (if isArray image then first_item image else image) = Return img
            else img = imageUrl pd)
        /\ pd' = mkProductData (js_or (name pd) (string_or_undefined n)) b pr cur img
                   (sizes pd) (js_or (description pd) (string_or_undefined ds))
                   (category pd)).
Proof.
  unfold jsonld_step. intros H.
  destruct (is_product d) as [[|]|e] eqn:Hp; cbn [bind] in H; try discriminate.
  2: { left. inversion H. auto. }
  right. split; [reflexivity|].
  destruct (get d (str "name")) as [n|e] eqn:Hn; cbn [bind] in H; try discriminate.
  destruct (jsonld_brand d) as [b|e] eqn:Hb; cbn [bind] in H; try discriminate.
  destruct (get d (str "description")) as [ds|e] eqn:Hd; cbn [bind] in H; try discriminate.
  destruct (get d (str "offers")) as [offers|e] eqn:Ho; cbn [bind] in H; try discriminate.
  exists n, b, ds, offers.
  destruct (truthy offers) eqn:Hto.
  - destruct (backfill_price _ _) as [pr|e] eqn:Hpr; cbn [bind] in H; try discriminate.
    cbn [price currency set_price set_description set_brand set_name] in *.
    destruct (backfill_currency _ _) as [cur|e] eqn:Hcur; cbn [bind] in H; try discriminate.
    destruct (get d (str "image")) as [image|e] eqn:Hi; cbn [bind] in H; try discriminate.
    exists image, pr, cur.
    destruct (truthy image) eqn:Hti.
    + cbn [imageUrl set_currency] in *.
      destruct (backfill_image _ _) as [img|e] eqn:Him; cbn [bind] in H; try discriminate.
      exists img. inversion H. repeat split; auto.
    + exists (imageUrl pd). inversion H. repeat split; auto.
  - cbn [bind] in H.
    destruct (get d (str "image")) as [image|e] eqn:Hi; cbn [bind] in H; try discriminate.
    exists image, (price pd), (currency pd).
    destruct (truthy image) eqn:Hti.
    + cbn [imageUrl set_description set_brand set_name] in *.
      destruct (backfill_image _ _) as [img|e] eqn:Him; cbn [bind] in H; try discriminate.
      exists img. inversion H. repeat split; auto.
    + exists (imageUrl pd). inversion H. repeat split; auto.
Qed.

Lemma js_or_truthy a b : truthy a = true -> js_or a b = a.
Proof. unfold js_or. intros ->. reflexivity. Qed.

Lemma js_or_falsy a b : truthy a = false -> js_or a b = b.
Proof. unfold js_or. intros ->. reflexivity. Qed.

(** One iteration and one field: a truthy value stays; a falsy one is
    replaced by what the block offers when that is truthy, and stays
    falsy otherwise. *)
Lemma jsonld_step_field f pd d pd' :
  jsonld_step pd d = Return pd' ->
  (truthy (field_of f pd) = true -> field_of f pd' = field_of f pd)
  /\ (truthy (field_of f pd) = false ->
      exists v, candidate f d = Return v
                /\ (truthy v = true -> field_of f pd' = v)
                /\ (truthy v = false -> truthy (field_of f pd') = false)).
Proof.
  intros H. apply jsonld_step_inv in H as [[Hp ->]|(Hp & n & b & ds & offers & image
    & pr & cur & img & Hn & Hb & Hd & Ho & Hi & Hoff & Himg & ->)].
  - split; [reflexivity|]. intros Hf. exists VUndefined.
    unfold candidate. rewrite Hp. cbn [bind]. repeat split; auto; discriminate.
  - unfold candidate. rewrite Hp. cbn [bind].
    destruct f; cbn [field_of offered name description price currency imageUrl];
      rewrite ?Hn, ?Hd, ?Ho, ?Hi; cbn [bind].
    + split; [apply js_or_truthy|]. intros Hf. rewrite (js_or_falsy _ _ Hf).
      eexists. split; [reflexivity|]. auto.
    + split; [apply js_or_truthy|]. intros Hf. rewrite (js_or_falsy _ _ Hf).
      eexists. split; [reflexivity|]. auto.
    + destruct (truthy offers).
      * destruct Hoff as [Hpr _]. unfold backfill_price in *.
        split; intros Hf; rewrite Hf in Hpr.
        -- inversion Hpr. reflexivity.
        -- cbn [truthy]. exists pr. repeat split; auto; congruence.
      * destruct Hoff as [-> _]. split; [reflexivity|]. intros Hf.
        exists VUndefined. repeat split; auto; discriminate.
    + destruct (truthy offers).
      * destruct Hoff as [_ Hcur]. unfold backfill_currency in *.
        split; intros Hf; rewrite Hf in Hcur.
        -- inversion Hcur. reflexivity.
        -- cbn [truthy]. exists cur. repeat split; auto; congruence.
      * destruct Hoff as [_ ->]. split; [reflexivity|]. intros Hf.
        exists VUndefined. repeat split; auto; discriminate.
    + destruct (truthy image).
      * unfold backfill_image in *.
        split; intros Hf; rewrite Hf in Himg.
        -- inversion Himg. reflexivity.
        -- cbn [truthy]. exists img. repeat split; auto; congruence.
      * subst img. split; [reflexivity|]. intros Hf.
        exists VUndefined. repeat split; auto; discriminate.
Qed.

Lemma jsonld_loop_keep f blocks : forall pd pd',
  for_of jsonld_step blocks pd = Return pd' ->
  truthy (field_of f pd) = true -> field_of f pd' = field_of f pd.
Proof.
  induction blocks as [|d blocks IH]; intros pd pd' H Ht; cbn [for_of] in H.
  - inversion H. reflexivity.
  - destruct (jsonld_step pd d) as [pd1|e] eqn:Hs; cbn [bind] in H; [|discriminate].
    destruct (jsonld_step_field f _ _ _ Hs) as [Hk _].
    rewrite <- (Hk Ht). apply IH; [exact H|]. rewrite (Hk Ht). exact Ht.
Qed.

Lemma jsonld_loop_none f blocks : forall pd pd',
  for_of jsonld_step blocks pd = Return pd' ->
  truthy (field_of f pd) = false ->
  (forall d v, In d blocks -> candidate f d = Return v -> truthy v = false) ->
  truthy (field_of f pd') = false.
Proof.
  induction blocks as [|d blocks IH]; intros pd pd' H Ht Hall; cbn [for_of] in H.
  - inversion H; subst. exact Ht.
  - destruct (jsonld_step pd d) as [pd1|e] eqn:Hs; cbn [bind] in H; [|discriminate].
    destruct (jsonld_step_field f _ _ _ Hs) as [_ Hfill].
    destruct (Hfill Ht) as (v & Hc & _ & Hv).
    apply (IH pd1 pd' H).
    + apply Hv. apply (Hall d v); [left; reflexivity | exact Hc].
    + intros d' v' Hin. apply Hall. right. exact Hin.
Qed.

Lemma jsonld_loop_fill f before : forall pd pd' d after v,
  for_of jsonld_step (before ++ d :: after) pd = Return pd' ->
  truthy (field_of f pd) = false ->
  (forall d' v', In d' before -> candidate f d' = Return v' -> truthy v' = false) ->
  candidate f d = Return v -> truthy v = true ->
  field_of f pd' = v.
Proof.
  induction before as [|d0 before IH]; intros pd pd' d after v H Ht Hb Hc Hv;
    cbn [app for_of] in H;
    (destruct (jsonld_step pd _) as [pd1|e] eqn:Hs; cbn [bind] in H; [|discriminate]);
    destruct (jsonld_step_field f _ _ _ Hs) as [_ Hfill];
    destruct (Hfill Ht) as (v0 & Hc0 & Hyes & Hno).
  - rewrite Hc in Hc0. inversion Hc0; subst v0.
    rewrite <- (Hyes Hv). apply (jsonld_loop_keep f after pd1 pd' H).
    rewrite (Hyes Hv). exact Hv.
  - apply (IH pd1 pd' d after v H); auto.
    + apply Hno. apply (Hb d0 v0); [left; reflexivity | exact Hc0].
    + intros d' v' Hin. apply Hb. right. exact Hin.
Qed.

(** After the loop only the brand and the category are assigned. *)
Lemma scrapeProductPage_loop p url html images pd :
  axios_get p url = Return html ->
  extractImages p html url = Return images ->
  scrapeProductPage p url = Return pd ->
  exists pd1,
    for_of jsonld_step (extractJsonLd html) (preferred html images) = Return pd1
    /\ forall f, field_of f pd = field_of f pd1.
Proof.
  intros Hg Hi H. unfold scrapeProductPage, try_catch in H.
  destruct (scrapeProductPage_body p url) as [pd'|e] eqn:Hb; [|discriminate].
  inversion H; subst pd'. clear H.
  unfold scrapeProductPage_body in Hb. rewrite Hg in Hb. cbn [bind] in Hb.
  rewrite Hi in Hb. cbn [bind] in Hb. fold (preferred html images) in Hb.
  destruct (for_of jsonld_step (extractJsonLd html) (preferred html images))
    as [pd1|e] eqn:Hl; cbn [bind] in Hb; [|discriminate].
  exists pd1. split; [reflexivity|].
  destruct (negb (truthy (brand pd1))).
  - destruct (URL_hostname p url) as [h|e]; cbn [bind] in Hb; [|discriminate].
    destruct (detect_category _ _ _); inversion Hb; intros []; reflexivity.
  - cbn [bind] in Hb. destruct (detect_category _ _ _); inversion Hb; intros []; reflexivity.
Qed.

(** C3, as the code has it. For the name, the description, the price,
    the currency and the image URL: a truthy value from the meta tags or
    the extractors is kept; a missing or falsy one is replaced by what
    the first block, in document order, that is a Product and offers a
    truthy value for the field offers, and later blocks do not change
    it; when no block offers a truthy value the field stays falsy. *)
Theorem jsonld_backfill_first_truthy
    (p : platform) (url html : jsstring) (images : list jsstring)
    (pd : ProductData) (f : backfilled_field) :
  axios_get p url = Return html ->
  extractImages p html url = Return images ->
  scrapeProductPage p url = Return pd ->
  (truthy (field_of f (preferred html images)) = true ->
     field_of f pd = field_of f (preferred html images))
  /\ (truthy (field_of f (preferred html images)) = false ->
      forall before d after v,
        extractJsonLd html = before ++ d :: after ->
        (forall d' v', In d' before -> candidate f d' = Return v' -> truthy v' = false) ->
        candidate f d = Return v -> truthy v = true ->
        field_of f pd = v)
  /\ (truthy (field_of f (preferred html images)) = false ->
      (forall d v, In d (extractJsonLd html) -> candidate f d = Return v ->
                   truthy v = false) ->
      truthy (field_of f pd) = false).
Proof.
  intros Hg Hi H.
  destruct (scrapeProductPage_loop _ _ _ _ _ Hg Hi H) as (pd1 & Hl & Hf).
  rewrite Hf. repeat split.
  - intros Ht. apply (jsonld_loop_keep f _ _ _ Hl Ht).
  - intros Ht before d after v E Hb Hc Hv. rewrite E in Hl.
    apply (jsonld_loop_fill f before _ _ d after v Hl Ht Hb Hc Hv).
  - intros Ht Hall. apply (jsonld_loop_none f _ _ _ Hl Ht Hall).
Qed.

(** C3, as stated, fails. On a page with two Product blocks, the first
    with the brand "Acme" and no name, the second with the name "Linen
    shirt" and the brand "Bolt", the name comes from the second block
    and the brand is that of the last block. And a price of [0] found by
    the price extractor is present but falsy, so the price of the block
    replaces it. *)
Lemma first_block_only_counterexample :
  ~ first_block_only FName (serving two_products) shop_url
  /\ ~ brand_of_first_block (serving two_products) shop_url
  /\ ~ first_block_only FPrice (serving free_gift) shop_url.
Proof.
  split; [|split].
  - intros H.
    destruct (scrapeProductPage (serving two_products) shop_url) as [pd|e] eqn:Hs;
      [|vm_compute in Hs; discriminate Hs].
    specialize (H two_products [] pd eq_refl ltac:(vm_compute; reflexivity) Hs).
    assert (Hn : field_of FName pd = VStr (str "Linen shirt")).
    { vm_compute in Hs. inversion Hs. reflexivity. }
    rewrite Hn in H. vm_compute in H. discriminate H.
  - intros H.
    destruct (scrapeProductPage (serving two_products) shop_url) as [pd|e] eqn:Hs;
      [|vm_compute in Hs; discriminate Hs].
    destruct (first_product (extractJsonLd two_products)) as [d|] eqn:Hd;
      [|vm_compute in Hd; discriminate Hd].
    specialize (H two_products pd d (VStr (str "Acme")) eq_refl Hs Hd).
    assert (Hb : brand pd = VStr (str "Bolt")).
    { vm_compute in Hs. inversion Hs. reflexivity. }
    rewrite Hb in H.
    assert (Hv : jsonld_brand d = Return (VStr (str "Acme"))).
    { vm_compute in Hd. inversion Hd. vm_compute. reflexivity. }
    specialize (H Hv eq_refl). vm_compute in H. discriminate H.
  - intros H.
    destruct (scrapeProductPage (serving free_gift) shop_url) as [pd|e] eqn:Hs;
      [|vm_compute in Hs; discriminate Hs].
    specialize (H free_gift [] pd eq_refl ltac:(vm_compute; reflexivity) Hs).
    assert (Hn : field_of FPrice pd = VNum 25%float).
    { vm_compute in Hs. inversion Hs. reflexivity. }
    rewrite Hn in H. vm_compute in H. discriminate H.
Qed.

Lemma jsonld_backfill_first_truthy_witness :
  exists pd b1 b2,
    axios_get (serving two_products) shop_url = Return two_products
    /\ extractImages (serving two_products) two_products shop_url = Return []
    /\ scrapeProductPage (serving two_products) shop_url = Return pd
    /\ truthy (field_of FName (preferred two_products [])) = false
    /\ extractJsonLd two_products = [b1] ++ b2 :: []
    /\ candidate FName b1 = Return VUndefined
    /\ candidate FName b2 = Return (VStr (str "Linen shirt"))
    /\ field_of FName pd = VStr (str "Linen shirt").
Proof.
  destruct (scrapeProductPage (serving two_products) shop_url) as [pd|e] eqn:Hs;
    [|vm_compute in Hs; discriminate Hs].
  destruct (extractJsonLd two_products) as [|b1 [|b2 [|b3 bs]]] eqn:Hb;
    try (vm_compute in Hb; discriminate Hb).
  assert (Hi : extractImages (serving two_products) two_products shop_url = Return [])
    by (vm_compute; reflexivity).
  assert (Ht : truthy (field_of FName (preferred two_products [])) = false)
    by (vm_compute; reflexivity).
  assert (H1 : candidate FName b1 = Return VUndefined).
  { vm_compute in Hb. inversion Hb. vm_compute. reflexivity. }
  assert (H2 : candidate FName b2 = Return (VStr (str "Linen shirt"))).
  { vm_compute in Hb. inversion Hb. vm_compute. reflexivity. }
  exists pd, b1, b2.
  split; [reflexivity|]. split; [exact Hi|]. split; [reflexivity|].
  split; [exact Ht|]. split; [reflexivity|]. split; [exact H1|]. split; [exact H2|].
  refine (proj1 (proj2 (jsonld_backfill_first_truthy (serving two_products) shop_url
            two_products [] pd FName eq_refl Hi Hs)) Ht [b1] b2 [] _ Hb _ H2 eq_refl).
  intros d' v' [<-|[]] Hc. rewrite H1 in Hc. inversion Hc. reflexivity.
Defined.

(* ================================================================== *)
(** * Keyword patterns *)
(* ================================================================== *)

Lemma Matches_Alts ic rs : forall r0 st st',
  Matches ic (fold_left Alt rs r0) st st' ->
  Matches ic r0 st st' \/ exists r, In r rs /\ Matches ic r st st'.
Proof.
  induction rs as [|r rs IH]; intros r0 st st' H; cbn [fold_left] in H; [auto|].
  apply IH in H as [H|(r' & Hin & H)].
  - apply Matches_Alt_inv in H as [H|H]; [auto|].
    right. exists r. split; [left; reflexivity | exact H].
  - right. exists r'. split; [right; exact Hin | exact H].
Qed.

Lemma rmatch_Alts_found ic rs : forall r0 st k,
  rmatch ic r0 st k <> None \/ (exists r, In r rs /\ rmatch ic r st k <> None) ->
  rmatch ic (fold_left Alt rs r0) st k <> None.
Proof.
  induction rs as [|r rs IH]; intros r0 st k H; cbn [fold_left].
  - destruct H as [H|(r & [] & _)]. exact H.
  - apply IH. cbn [rmatch].
    destruct H as [H|(r' & [<-|Hin] & H)].
    + left. destruct (rmatch ic r0 st k); [discriminate | contradiction].
    + left. destruct (rmatch ic r0 st k); [discriminate | exact H].
    + right. exists r'. auto.
Qed.

(** A pattern [/w1|w2|.../i] accepts exactly the texts that contain one
    of its words in some letter case. *)
Lemma keywords_test w ws text :
  regex_test (keywords w ws) text = existsb (fun k => mentions k text) (w :: ws).
Proof.
  destruct (existsb (fun k => mentions k text) (w :: ws)) eqn:Hw.
  - apply existsb_exists in Hw as (kw & Hin & Hm).
    unfold mentions in Hm. apply includes_inv in Hm as (a & b & E).
    unfold toUpperCase in E.
    apply map_eq_app in E as (a' & r' & -> & Ea & E).
    apply map_eq_app in E as (v & b' & -> & Ev & Eb).
    unfold regex_test, str_match.
    destruct (search_from (keywords w ws) None 0 (a' ++ v ++ b')) eqn:Hs; [reflexivity|].
    pose proof (search_from_none _ _ _ _ Hs a' (v ++ b') eq_refl) as Hn.
    exfalso. revert Hn. unfold match_here, keywords, pattern, ignoreCase, Alts.
    apply rmatch_Alts_found.
    assert (L : rmatch true (Lit kw)
                  (mkState (prev_after None a') (v ++ b') (0 + length a') []) Some <> None).
    { rewrite (rmatch_Lit_prefix true kw v
                 (mkState (prev_after None a') (v ++ b') (0 + length a') [])
                 b' Some eq_refl Ev).
      discriminate. }
    destruct Hin as [<-|Hin]; [left; exact L|].
    right. exists (Lit kw). split; [apply in_map; exact Hin | exact L].
  - unfold regex_test, str_match.
    destruct (search_from (keywords w ws) None 0 text) as [st|] eqn:Hs; [|reflexivity].
    exfalso. apply search_from_sound in Hs as (pre & suf & prev & E & Hm).
    apply match_here_Matches in Hm.
    unfold keywords, pattern, ignoreCase, Alts in Hm.
    assert (K : forall kw, In kw (w :: ws) ->
              forall st0 st1, m_rest st0 = suf -> Matches true (Lit kw) st0 st1 -> False).
    { intros kw Hin st0 st1 Hr HL.
      apply Matches_Lit in HL as (v & Ev & Mv & _).
      assert (Hk : existsb (fun k => mentions k text) (w :: ws) = true).
      { apply existsb_exists. exists kw. split; [exact Hin|].
        unfold mentions. rewrite E, <- Hr, Ev. apply includes_upper. exact Mv. }
      rewrite Hw in Hk. discriminate. }
    apply Matches_Alts in Hm as [Hm|(r & Hin & Hm)].
    + eapply K; [left; reflexivity | | exact Hm]. reflexivity.
    + apply in_map_iff in Hin as (kw & <- & Hin).
      eapply K; [right; exact Hin | | exact Hm]. reflexivity.
Qed.

(* ================================================================== *)
(** * The category and the brand of scrapeProductPage *)
(* ================================================================== *)

Lemma existsb_orb {A} (f g : A -> bool) l :
  existsb f l || existsb g l = existsb (fun x => f x || g x) l.
Proof.
  induction l as [|x l IH]; [reflexivity|]. cbn [existsb]. rewrite <- IH.
  destruct (f x), (g x), (existsb f l), (existsb g l); reflexivity.
Qed.

Lemma detect_category_words url html :
  detect_category url html categoryPatterns
  = option_map fst (find (fun cw => mentioned_in url html (snd cw)) category_words).
Proof.
  unfold categoryPatterns, category_words. cbn [detect_category find].
  rewrite !keywords_test, !existsb_orb. unfold mentioned_in. cbn [snd fst].
  repeat match goal with
         | |- context [if ?b then _ else _] => destruct b
         end; reflexivity.
Qed.

(** What a successful run of [scrapeProductPage] went through. *)
Lemma scrapeProductPage_inv p url pd :
  scrapeProductPage p url = Return pd ->
  exists html images pd1 pd2,
    axios_get p url = Return html
    /\ extractImages p html url = Return images
    /\ for_of jsonld_step (extractJsonLd html) (preferred html images) = Return pd1
    /\ (if truthy (brand pd1) then pd2 = pd1
        else exists hostname,
               URL_hostname p url = Return hostname
               /\ pd2 = set_brand (second_to_last (split_on 46 hostname)) pd1)
    /\ pd = match detect_category url html categoryPatterns with
            | Some c => set_category (Some c) pd2
            | None => pd2
            end.
Proof.
  intros H. unfold scrapeProductPage, try_catch in H.
  destruct (scrapeProductPage_body p url) as [pd'|e] eqn:Hb; [|discriminate].
  inversion H; subst pd'. clear H. unfold scrapeProductPage_body in Hb.
  destruct (axios_get p url) as [html|e] eqn:Hg; cbn [bind] in Hb; [|discriminate].
  destruct (extractImages p html url) as [images|e] eqn:Hi; cbn [bind] in Hb;
    [|discriminate].
  fold (preferred html images) in Hb.
  destruct (for_of jsonld_step (extractJsonLd html) (preferred html images))
    as [pd1|e] eqn:Hl; cbn [bind] in Hb; [|discriminate].
  exists html, images, pd1.
  destruct (truthy (brand pd1)) eqn:Ht; cbn [negb] in Hb.
  - cbn [bind] in Hb. exists pd1. inversion Hb. auto.
  - destruct (URL_hostname p url) as [h|e] eqn:Hh; cbn [bind] in Hb; [|discriminate].
    exists (set_brand (second_to_last (split_on 46 h)) pd1).
    inversion Hb. repeat split; auto. exists h. auto.
Qed.

Lemma jsonld_step_category pd d pd' :
  jsonld_step pd d = Return pd' -> category pd' = category pd.
Proof.
  intros H. apply jsonld_step_inv in H as [[_ ->]|(_ & n & b & ds & offers & image
    & pr & cur & img & _ & _ & _ & _ & _ & _ & _ & ->)]; reflexivity.
Qed.

Lemma jsonld_loop_category blocks : forall pd pd',
  for_of jsonld_step blocks pd = Return pd' -> category pd' = category pd.
Proof.
  induction blocks as [|d blocks IH]; intros pd pd' H; cbn [for_of] in H.
  - inversion H. reflexivity.
  - destruct (jsonld_step pd d) as [pd1|e] eqn:Hs; cbn [bind] in H; [|discriminate].
    rewrite (IH _ _ H). eapply jsonld_step_category. exact Hs.
Qed.

Lemma jsonld_loop_no_product blocks : forall pd pd',
  (forall d, In d blocks -> is_product d = Return false) ->
  for_of jsonld_step blocks pd = Return pd' -> pd' = pd.
Proof.
  induction blocks as [|d blocks IH]; intros pd pd' Hall H; cbn [for_of] in H.
  - inversion H. reflexivity.
  - unfold jsonld_step in H at 1. rewrite (Hall d (or_introl eq_refl)) in H.
    cbn [bind] in H. apply IH; [|exact H]. intros d' Hin. apply Hall. right. exact Hin.
Qed.

Lemma jsonld_step_brand pd d pd' b :
  jsonld_step pd d = Return pd' -> is_product d = Return true ->
  jsonld_brand d = Return b -> brand pd' = b.
Proof.
  intros H Hp Hb. apply jsonld_step_inv in H as [[Hp' _]|(_ & n & b' & ds & offers
    & image & pr & cur & img & _ & Hb' & _ & _ & _ & _ & _ & ->)].
  - rewrite Hp in Hp'. discriminate.
  - rewrite Hb in Hb'. inversion Hb'. reflexivity.
Qed.

Lemma jsonld_loop_brand before : forall pd pd' d after b,
  for_of jsonld_step (before ++ d :: after) pd = Return pd' ->
  is_product d = Return true ->
  (forall d', In d' after -> is_product d' = Return false) ->
  jsonld_brand d = Return b ->
  brand pd' = b.
Proof.
  induction before as [|d0 before IH]; intros pd pd' d after b H Hp Hafter Hb;
    cbn [app for_of] in H;
    (destruct (jsonld_step pd _) as [pd1|e] eqn:Hs; cbn [bind] in H; [|discriminate]).
  - rewrite (jsonld_loop_no_product after pd1 pd' Hafter H).
    eapply jsonld_step_brand; eauto.
  - eapply IH; eauto.
Qed.

Lemma jsonld_loop_null blocks : forall pd,
  In VNull blocks -> exists e, for_of jsonld_step blocks pd = Throw e.
Proof.
  induction blocks as [|d blocks IH]; intros pd Hin; [destruct Hin|].
  cbn [for_of]. destruct (jsonld_step pd d) as [pd1|e] eqn:Hs; cbn [bind].
  - destruct Hin as [->|Hin]; [|apply IH; exact Hin].
    cbn in Hs. discriminate.
  - exists e. reflexivity.
Qed.

Lemma split_on_dotless sep l :
  ~ In sep l -> split_on sep l = [l].
Proof.
  induction l as [|c l IH]; intros Hn; [reflexivity|]. cbn [split_on].
  unfold cu_eqb. destruct (N.eqb_spec c sep) as [->|_].
  - exfalso. apply Hn. left. reflexivity.
  - rewrite IH; [reflexivity|]. intros Hin. apply Hn. right. exact Hin.
Qed.

Lemma split_on_app sep l : forall rest,
  ~ In sep l ->
  split_on sep (l ++ sep :: rest) = l :: split_on sep rest.
Proof.
  induction l as [|c l IH]; intros rest Hn; cbn [app split_on].
  - unfold cu_eqb. rewrite N.eqb_refl. reflexivity.
  - unfold cu_eqb. destruct (N.eqb_spec c sep) as [->|_].
    + exfalso. apply Hn. left. reflexivity.
    + rewrite IH; [reflexivity|]. intros Hin. apply Hn. right. exact Hin.
Qed.

(** Splitting undoes joining when no label contains the separator. *)
Lemma split_on_join sep labels :
  labels <> [] -> Forall (fun l => ~ In sep l) labels ->
  split_on sep (join sep labels) = labels.
Proof.
  induction labels as [|l labels IH]; intros Hne Hall; [contradiction|].
  inversion Hall as [|? ? Hl Hrest]; subst.
  destruct labels as [|l' labels].
  - cbn [join]. apply split_on_dotless. exact Hl.
  - change (join sep (l :: l' :: labels)) with (l ++ sep :: join sep (l' :: labels)).
    rewrite split_on_app by exact Hl. rewrite IH; [reflexivity|discriminate|exact Hrest].
Qed.

Lemma second_to_last_app labels a b :
  second_to_last (labels ++ [a; b]) = VStr a.
Proof.
  unfold second_to_last. rewrite rev_app_distr. reflexivity.
Qed.

(** X1. The category of a scraped product is the first of shirt, pants,
    dress, shoes, jacket one of whose keywords occurs, in any letter
    case and anywhere inside a longer word, in the URL or in the page;
    it is absent when none occurs. *)
Theorem category_is_first_mentioned
    (p : platform) (url html : jsstring) (pd : ProductData) :
  scrapeProductPage p url = Return pd ->
  axios_get p url = Return html ->
  category pd
  = option_map fst (find (fun cw => mentioned_in url html (snd cw)) category_words).
Proof.
  intros H Hg.
  apply scrapeProductPage_inv in H as (html' & images & pd1 & pd2 & Hg' & _ & Hl & Hb & ->).
  rewrite Hg in Hg'. inversion Hg'; subst html'. clear Hg'.
  assert (C : category pd2 = None).
  { apply jsonld_loop_category in Hl.
    destruct (truthy (brand pd1)); [subst pd2; exact Hl|].
    destruct Hb as (h & _ & ->). exact Hl. }
  rewrite <- detect_category_words.
  destruct (detect_category url html categoryPatterns); [reflexivity | exact C].
Qed.

Lemma category_is_first_mentioned_witness :
  exists pd,
    scrapeProductPage (serving coat_page) plain_url = Return pd
    /\ category pd = Some (str "shirt").
Proof.
  destruct (scrapeProductPage (serving coat_page) plain_url) as [pd|e] eqn:Hs;
    [|vm_compute in Hs; discriminate].
  exists pd. split; [reflexivity|].
  rewrite (category_is_first_mentioned (serving coat_page) plain_url coat_page pd
             Hs eq_refl).
  vm_compute. reflexivity.
Defined.

(** X2. When the page has no JSON-LD block of type Product, the brand is
    the label before the last one of the host name: for a host name of
    the labels l1 ... ln, a, b joined by dots it is a, whatever b is, and
    for a host name without a dot it is undefined. *)
Theorem brand_falls_back_to_host_label
    (p : platform) (url html hostname : jsstring) (pd : ProductData) :
  scrapeProductPage p url = Return pd ->
  axios_get p url = Return html ->
  (forall d, In d (extractJsonLd html) -> is_product d = Return false) ->
  URL_hostname p url = Return hostname ->
  (forall labels a b,
     hostname = join dot (labels ++ [a; b]) ->
     Forall dotless (labels ++ [a; b]) ->
     brand pd = VStr a)
  /\ (dotless hostname -> brand pd = VUndefined).
Proof.
  intros H Hg Hnone Hh.
  apply scrapeProductPage_inv in H as (html' & images & pd1 & pd2 & Hg' & _ & Hl & Hb & ->).
  rewrite Hg in Hg'. inversion Hg'; subst html'. clear Hg'.
  apply (jsonld_loop_no_product _ _ _ Hnone) in Hl. subst pd1.
  change (truthy (brand (preferred html images))) with false in Hb.
  destruct Hb as (h & Hh' & ->). rewrite Hh in Hh'. inversion Hh'; subst h. clear Hh'.
  assert (B : forall pd2,
            brand (match detect_category url html categoryPatterns with
                   | Some c => set_category (Some c) pd2
                   | None => pd2
                   end) = brand pd2).
  { intros pd2. destruct (detect_category url html categoryPatterns); reflexivity. }
  rewrite B. cbn [brand set_brand]. split.
  - intros labels a b -> Hall.
    change 46%N with dot. rewrite split_on_join.
    + apply second_to_last_app.
    + destruct labels; discriminate.
    + exact Hall.
  - intros Hd. change 46%N with dot. rewrite split_on_dotless by exact Hd. reflexivity.
Qed.

Lemma brand_falls_back_to_host_label_witness :
  exists pd,
    scrapeProductPage (hosted uk_host coat_page) plain_url = Return pd
    /\ brand pd = VStr (str "co").
Proof.
  destruct (scrapeProductPage (hosted uk_host coat_page) plain_url) as [pd|e] eqn:Hs;
    [|vm_compute in Hs; discriminate].
  exists pd. split; [reflexivity|].
  assert (Hnone : forall d, In d (extractJsonLd coat_page) -> is_product d = Return false).
  { intros d Hin. vm_compute in Hin. destruct Hin. }
  apply (proj1 (brand_falls_back_to_host_label (hosted uk_host coat_page) plain_url
                  coat_page uk_host pd Hs eq_refl Hnone eq_refl)
           [str "shop"; str "example"] (str "co") (str "uk")).
  - vm_compute. reflexivity.
  - repeat constructor; unfold dotless; vm_compute; intuition discriminate.
Defined.

(** X3. When the page has JSON-LD blocks of type Product, the brand comes
    from the last of them only: it is that block's [brand.name], or its
    [manufacturer] when the name is missing or falsy, whatever earlier
    Product blocks offered; when that value is falsy the brand is the
    host-name label. *)
Theorem brand_is_the_last_products
    (p : platform) (url html : jsstring) (pd : ProductData)
    (before after : list value) (d b : value) :
  scrapeProductPage p url = Return pd ->
  axios_get p url = Return html ->
  extractJsonLd html = before ++ d :: after ->
  is_product d = Return true ->
  (forall d', In d' after -> is_product d' = Return false) ->
  jsonld_brand d = Return b ->
  (truthy b = true -> brand pd = b)
  /\ (truthy b = false ->
      forall hostname, URL_hostname p url = Return hostname ->
        brand pd = second_to_last (split_on dot hostname)).
Proof.
  intros H Hg Hblocks Hp Hafter Hb.
  apply scrapeProductPage_inv in H as (html' & images & pd1 & pd2 & Hg' & _ & Hl & Hf & ->).
  rewrite Hg in Hg'. inversion Hg'; subst html'. clear Hg'.
  rewrite Hblocks in Hl.
  pose proof (jsonld_loop_brand _ _ _ _ _ _ Hl Hp Hafter Hb) as Hbrand.
  assert (B : forall pd2,
            brand (match detect_category url html categoryPatterns with
                   | Some c => set_category (Some c) pd2
                   | None => pd2
                   end) = brand pd2).
  { intros pd0. destruct (detect_category url html categoryPatterns); reflexivity. }
  rewrite B. rewrite Hbrand in Hf. split; intros Ht; rewrite Ht in Hf.
  - subst pd2. exact Hbrand.
  - intros hostname Hh. destruct Hf as (h & Hh' & ->).
    rewrite Hh in Hh'. inversion Hh'. reflexivity.
Qed.

Lemma brand_is_the_last_products_witness :
  exists pd,
    scrapeProductPage (serving two_products) shop_url = Return pd
    /\ brand pd = VStr (str "Bolt").
Proof.
  destruct (extractJsonLd two_products) as [|b1 [|b2 [|b3 bs]]] eqn:Hb;
    try (vm_compute in Hb; discriminate).
  assert (Hp : is_product b2 = Return true).
  { vm_compute in Hb. inversion Hb. vm_compute. reflexivity. }
  assert (Hn : jsonld_brand b2 = Return (VStr (str "Bolt"))).
  { vm_compute in Hb. inversion Hb. vm_compute. reflexivity. }
  destruct (scrapeProductPage (serving two_products) shop_url) as [pd|e] eqn:Hs;
    [|vm_compute in Hs; discriminate].
  exists pd. split; [reflexivity|].
  apply (proj1 (brand_is_the_last_products (serving two_products) shop_url two_products
                  pd [b1] [] b2 (VStr (str "Bolt")) Hs eq_refl Hb Hp
                  (fun d' (Hin : In d' []) => match Hin with end) Hn)).
  reflexivity.
Defined.

(** X4. A page with a JSON-LD block whose text is the JSON value null is
    never scraped: the loop over the blocks reads a property of null,
    and the function fails with a message that starts with
    "Failed to scrape product page: ". *)
Theorem null_block_fails_the_scrape
    (p : platform) (url html : jsstring) :
  axios_get p url = Return html ->
  In VNull (extractJsonLd html) ->
  exists e, scrapeProductPage p url = Throw (failed_to_scrape e).
Proof.
  intros Hg Hin. unfold scrapeProductPage, scrapeProductPage_body.
  rewrite Hg. cbn [bind].
  destruct (extractImages p html url) as [images|e]; cbn [bind try_catch].
  - fold (preferred html images).
    destruct (jsonld_loop_null _ (preferred html images) Hin) as (e & ->).
    cbn [bind try_catch]. exists e. reflexivity.
  - exists e. reflexivity.
Qed.

Lemma null_block_fails_the_scrape_witness :
  exists e, scrapeProductPage (serving null_block_page) plain_url
            = Throw (failed_to_scrape e).
Proof.
  apply (null_block_fails_the_scrape (serving null_block_page) plain_url null_block_page).
  - reflexivity.
  - vm_compute. left. reflexivity.
Defined.

(* ================================================================== *)
(** * The set of images *)
(* ================================================================== *)

Lemma NoDup_snoc (x : jsstring) s :
  List.NoDup s -> ~ In x s -> List.NoDup (s ++ [x]).
Proof.
  induction s as [|y s IH]; intros Hs Hx; cbn [app].
  - constructor; [intros [] | constructor].
  - apply List.NoDup_cons_iff in Hs as [Hy Hs]. apply List.NoDup_cons.
    + intros Hin. apply in_app_or in Hin as [Hin|[->|[]]]; [auto|].
      apply Hx. left. reflexivity.
    + apply IH; [exact Hs|]. intros Hin. apply Hx. right. exact Hin.
Qed.

Lemma set_add_NoDup x s : List.NoDup s -> List.NoDup (set_add x s).
Proof.
  intros Hs. unfold set_add. destruct (existsb (str_eqb x) s) eqn:E; [exact Hs|].
  apply NoDup_snoc; [exact Hs|]. intros Hin.
  assert (T : existsb (str_eqb x) s = true).
  { apply existsb_exists. exists x. split; [exact Hin | apply str_eqb_refl]. }
  rewrite E in T. discriminate.
Qed.

Lemma for_of_invariant {A S} (P : S -> Prop) (body : S -> A -> outcome S) l :
  (forall s x s', body s x = Return s' -> P s -> P s') ->
  forall s s', for_of body l s = Return s' -> P s -> P s'.
Proof.
  intros Hstep. induction l as [|x l IH]; intros s s' H Hs; cbn [for_of] in H.
  - inversion H; subst. exact Hs.
  - destruct (body s x) as [s1|e] eqn:Hb; cbn [bind] in H; [|discriminate].
    apply (IH s1 s' H). apply (Hstep s x s1 Hb Hs).
Qed.

Lemma for_of_throws {A S} (body : S -> A -> outcome S) l x :
  In x l -> (forall s, exists e, body s x = Throw e) ->
  forall s, exists e, for_of body l s = Throw e.
Proof.
  intros Hin Hx. induction l as [|y l IH]; intros s; [destruct Hin|].
  cbn [for_of]. destruct (body s y) as [s1|e] eqn:Hb; cbn [bind].
  - destruct Hin as [->|Hin]; [|apply IH; exact Hin].
    destruct (Hx s) as (e & He). rewrite He in Hb. discriminate.
  - exists e. reflexivity.
Qed.

(** X5. [extractImages] returns every URL once: a URL met again, in an
    [img] tag or in a [data-src] attribute, is not added a second
    time. *)
Theorem extractImages_has_no_duplicates
    (p : platform) (html baseUrl : jsstring) (images : list jsstring) :
  extractImages p html baseUrl = Return images -> List.NoDup images.
Proof.
  unfold extractImages. intros H.
  destruct (for_of (add_src p baseUrl) (exec_all imgRegex html) []) as [i1|e] eqn:H1;
    cbn [bind] in H; [|discriminate].
  destruct (for_of (add_data_src p baseUrl) (exec_all dataSrcRegex html) i1)
    as [i2|e] eqn:H2; cbn [bind] in H; [|discriminate].
  inversion H; subst i2. clear H.
  eapply (for_of_invariant (@List.NoDup jsstring)); [|exact H2|].
  - intros s st s' Hb Hs. unfold add_data_src in Hb.
    destruct (nonempty (capture 1 st)); [|inversion Hb; subst; exact Hs].
    destruct (absolute p (capture 1 st) baseUrl); cbn [bind] in Hb; [|discriminate].
    inversion Hb. apply set_add_NoDup. exact Hs.
  - eapply (for_of_invariant (@List.NoDup jsstring)); [|exact H1|constructor].
    intros s st s' Hb Hs. unfold add_src in Hb.
    destruct (nonempty (capture 1 st) && negb (includes (capture 1 st) (str "icon"))
              && negb (includes (capture 1 st) (str "logo")));
      [|inversion Hb; subst; exact Hs].
    destruct (absolute p (capture 1 st) baseUrl); cbn [bind] in Hb; [|discriminate].
    inversion Hb. apply set_add_NoDup. exact Hs.
Qed.

Lemma extractImages_has_no_duplicates_witness :
  extractImages (serving repeated_image_page) repeated_image_page plain_url
  = Return [str "http://cdn.example/a.png"]
  /\ List.NoDup [str "http://cdn.example/a.png"].
Proof.
  assert (H : extractImages (serving repeated_image_page) repeated_image_page plain_url
              = Return [str "http://cdn.example/a.png"]) by (vm_compute; reflexivity).
  split; [exact H|].
  exact (extractImages_has_no_duplicates _ _ _ _ H).
Defined.

(** X6. One [data-src] reference that does not start with "http" and
    that the URL constructor rejects makes the whole scrape fail, also
    when the page names its image in an [og:image] tag: the error is
    caught only by the outer handler, which rethrows it. *)
Theorem unresolvable_data_src_fails_the_scrape
    (p : platform) (url html : jsstring) (st : mstate) (e0 : thrown) :
  axios_get p url = Return html ->
  In st (exec_all dataSrcRegex html) ->
  startsWith (capture 1 st) (str "http") = false ->
  URL_href p (capture 1 st) url = Throw e0 ->
  exists e, scrapeProductPage p url = Throw (failed_to_scrape e).
Proof.
  intros Hg Hin Hs Hu.
  assert (T : exists e, extractImages p html url = Throw e).
  { unfold extractImages.
    destruct (for_of (add_src p url) (exec_all imgRegex html) []) as [i1|e];
      cbn [bind]; [|exists e; reflexivity].
    destruct (for_of_throws (add_data_src p url) _ st Hin) with (s := i1) as (e & ->).
    - intros s. exists e0. unfold add_data_src.
      rewrite (dataSrc_capture_nonempty _ _ Hin). unfold absolute. rewrite Hs, Hu.
      reflexivity.
    - exists e. reflexivity. }
  destruct T as (e & He). exists e.
  unfold scrapeProductPage, scrapeProductPage_body. rewrite Hg. cbn [bind].
  rewrite He. reflexivity.
Qed.

Lemma unresolvable_data_src_fails_the_scrape_witness :
  exists e, scrapeProductPage (strict_urls empty_reference_page) plain_url
            = Throw (failed_to_scrape e).
Proof.
  destruct (exec_all dataSrcRegex empty_reference_page) as [|st ms] eqn:Hm;
    [vm_compute in Hm; discriminate|].
  assert (Hc : capture 1 st = str "//").
  { vm_compute in Hm. inversion Hm. vm_compute. reflexivity. }
  apply (unresolvable_data_src_fails_the_scrape (strict_urls empty_reference_page)
           plain_url empty_reference_page st (ErrorObject (str "Invalid URL"))).
  - reflexivity.
  - rewrite Hm. left. reflexivity.
  - rewrite Hc. vm_compute. reflexivity.
  - rewrite Hc. vm_compute. reflexivity.
Defined.

(* ================================================================== *)
(** * The keys and contents of extractMetaTags *)
(* ================================================================== *)

(** What a group [(C+)] over a character class records. *)
Lemma Matches_group_plus_class ic n negated items st st' :
  Matches ic (Group n (Plus (Class negated items))) st st' ->
  exists w, w <> []
            /\ Forall (fun x => class_matches ic negated items x = true) w
            /\ m_caps st' = (n, w) :: m_caps st.
Proof.
  intros H. apply Matches_Group_inv in H as (s0 & H1 & ->).
  unfold Plus in H1. apply Matches_Seq_inv in H1 as (sa & Ha & Hb).
  apply Matches_Class_inv in Ha as (x & rest & Hr & Hx & ->).
  apply Matches_star_class in Hb as (w & Ew & Lw & Fw & Cw).
  cbn [m_rest m_idx m_caps advance set_capture] in *.
  assert (E : consumed st s0 = x :: w).
  { apply consumed_eq; rewrite ?Hr, ?Ew, ?Lw; simpl; auto. }
  exists (x :: w). rewrite E, Cw. repeat split; [discriminate | constructor; assumption].
Qed.

Lemma not_quote_class w :
  w <> [] ->
  Forall (fun x => class_matches true true [CChar dquote; CChar squote] x = true) w ->
  quote_free w.
Proof.
  intros Hne Hall. split; [exact Hne|].
  rewrite List.Forall_forall in Hall.
  split; intros Hin; apply Hall in Hin; vm_compute in Hin; discriminate.
Qed.

Lemma meta_pattern_captures attr prefix st st' :
  Matches true (meta_pattern attr prefix) st st' ->
  quote_free (capture 1 st') /\ quote_free (capture 2 st').
Proof.
  intros H. unfold meta_pattern, Seqs in H. cbn [fold_right] in H.
  apply Matches_Seq_inv in H as (s1 & _ & H).
  apply Matches_Seq_inv in H as (s2 & _ & H).
  apply Matches_Seq_inv in H as (s3 & _ & H).
  apply Matches_Seq_inv in H as (s4 & _ & H).
  apply Matches_Seq_inv in H as (s5 & _ & H).
  apply Matches_Seq_inv in H as (s6 & G1 & H).
  apply Matches_Seq_inv in H as (s7 & Q7 & H).
  apply Matches_Seq_inv in H as (s8 & Q8 & H).
  apply Matches_Seq_inv in H as (s9 & Q9 & H).
  apply Matches_Seq_inv in H as (s10 & Q10 & H).
  apply Matches_Seq_inv in H as (s11 & G2 & H).
  apply Matches_Seq_inv in H as (s12 & Q12 & H).
  apply Matches_Empty_inv in H. subst st'.
  apply Matches_group_plus_class in G1 as (w1 & N1 & F1 & C1).
  apply Matches_group_plus_class in G2 as (w2 & N2 & F2 & C2).
  apply Matches_group_free in Q7; [|reflexivity].
  apply Matches_group_free in Q8; [|reflexivity].
  apply Matches_group_free in Q9; [|apply group_free_Lit].
  apply Matches_group_free in Q10; [|reflexivity].
  apply Matches_group_free in Q12; [|reflexivity].
  unfold capture. rewrite Q12, C2, Q10, Q9, Q8, Q7, C1. cbn [assoc_nat Nat.eqb].
  split; apply not_quote_class; assumption.
Qed.

Lemma quote_free_app a b :
  ~ In dquote a -> ~ In squote a -> quote_free b -> quote_free (a ++ b).
Proof.
  intros Ha1 Ha2 (Hb & Hb1 & Hb2). repeat split.
  - destruct a; [exact Hb | discriminate].
  - intros Hin. apply in_app_or in Hin as [?|?]; auto.
  - intros Hin. apply in_app_or in Hin as [?|?]; auto.
Qed.

Lemma store_tags_quote_free prefix ms : forall tags : gmap (list N) (list N),
  (forall st, In st ms -> quote_free (prefix ++ capture 1 st) /\ quote_free (capture 2 st)) ->
  (forall k v, tags !! k = Some v -> quote_free k /\ quote_free v) ->
  forall k v, store_tags prefix ms tags !! k = Some v -> quote_free k /\ quote_free v.
Proof.
  unfold store_tags.
  induction ms as [|m ms IH]; intros tags Hms Htags; cbn [fold_left]; [exact Htags|].
  apply IH.
  - intros st Hin. apply Hms. right. exact Hin.
  - unfold set_property.
    destruct (str_eqb (prefix ++ capture 1 m) (str "__proto__")); [exact Htags|].
    intros k v Hk. destruct (str_eqb (prefix ++ capture 1 m) k) eqn:E.
    + apply str_eqb_eq in E. subst k. rewrite lookup_insert_eq in Hk.
      inversion Hk; subst v. apply Hms. left. reflexivity.
    + rewrite lookup_insert_ne in Hk; [apply Htags; exact Hk|].
      intros Hk'. rewrite Hk', str_eqb_refl in E. discriminate.
Qed.

Lemma scanned_quote_free attr prefix html st :
  ~ In dquote prefix -> ~ In squote prefix ->
  In st (exec_all (mkRegExp (meta_pattern attr prefix) true) html) ->
  quote_free (prefix ++ capture 1 st) /\ quote_free (capture 2 st).
Proof.
  intros Hp1 Hp2 Hin.
  apply exec_all_In in Hin as (pre & suf & prev & idx & _ & Hm).
  apply match_here_Matches in Hm. cbn [pattern ignoreCase] in Hm.
  apply meta_pattern_captures in Hm as [H1 H2].
  split; [apply quote_free_app; assumption | exact H2].
Qed.

(** X7. Every key and every content that [extractMetaTags] returns is
    non-empty and holds neither a double nor a single quote: a tag with
    an empty content is not stored, and a content is cut at the first
    quote of either kind, whichever quote opened it. *)
Theorem meta_tags_are_cut_at_quotes (html key content : jsstring) :
  extractMetaTags html !! key = Some content ->
  quote_free key /\ quote_free content.
Proof.
  unfold extractMetaTags. revert key content.
  apply store_tags_quote_free.
  { intros st. apply (scanned_quote_free (str "name=") []); intros []. }
  apply store_tags_quote_free.
  { intros st. apply (scanned_quote_free (str "name=") (str "twitter:"));
      vm_compute; intuition discriminate. }
  apply store_tags_quote_free.
  { intros st. apply (scanned_quote_free (str "property=") (str "og:"));
      vm_compute; intuition discriminate. }
  intros k v Hk. rewrite lookup_empty in Hk. discriminate.
Qed.

Lemma meta_tags_are_cut_at_quotes_witness :
  extractMetaTags apostrophe_page !! str "description" = Some (str "Men")
  /\ quote_free (str "description") /\ quote_free (str "Men").
Proof.
  assert (H : extractMetaTags apostrophe_page !! str "description" = Some (str "Men"))
    by (vm_compute; reflexivity).
  split; [exact H|].
  exact (meta_tags_are_cut_at_quotes _ _ _ H).
Defined.

(* ================================================================== *)
(** * The sizes of extractSizes *)
(* ================================================================== *)

Lemma Matches_Lit_consumed ic w st st' :
  Matches ic (Lit w) st st' ->
  exists w', m_rest st = w' ++ m_rest st'
             /\ m_idx st' = m_idx st + length w'
             /\ List.map (canon ic) w' = List.map (canon ic) w.
Proof.
  intros H. destruct (Matches_rest _ _ _ _ H) as (v & Ev & Lv).
  apply Matches_Lit in H as (w' & Ew & Hm & _).
  assert (v = w') by (eapply app_inv_tail; rewrite <- Ev; exact Ew). subst v.
  exists w'. auto.
Qed.

Lemma Matches_plus_class ic negated items st st' :
  Matches ic (Plus (Class negated items)) st st' ->
  exists w, w <> []
            /\ m_rest st = w ++ m_rest st'
            /\ m_idx st' = m_idx st + length w
            /\ Forall (fun x => class_matches ic negated items x = true) w.
Proof.
  intros H. unfold Plus in H. apply Matches_Seq_inv in H as (sa & Ha & Hb).
  apply Matches_Class_inv in Ha as (x & rest & Hr & Hx & ->).
  apply Matches_star_class in Hb as (w & Ew & Lw & Fw & _).
  cbn [m_rest m_idx advance] in *.
  exists (x :: w). rewrite Hr, Ew, Lw. cbn [length app].
  repeat split; [discriminate | lia | constructor; assumption].
Qed.

(** The capture of a pattern [\b(body)\b]. *)
Lemma word_group_capture ic body st st' :
  Matches ic (Seqs [WordBoundary; Group 1 body; WordBoundary]) st st' ->
  exists sb, Matches ic body st sb /\ capture 1 st' = consumed st sb.
Proof.
  intros H. unfold Seqs in H. cbn [fold_right] in H.
  apply Matches_Seq_inv in H as (s1 & H1 & H).
  apply Matches_Seq_inv in H as (s2 & H2 & H).
  apply Matches_Seq_inv in H as (s3 & H3 & H).
  apply Matches_Empty_inv in H. subst st'.
  inversion H1; subst. inversion H3; subst.
  apply Matches_Group_inv in H2 as (sb & Hb & ->).
  exists sb. split; [exact Hb|]. unfold capture. reflexivity.
Qed.

Lemma map_canon_false w : List.map (canon false) w = w.
Proof. induction w as [|c w IH]; [reflexivity|]. cbn [List.map]. rewrite IH. reflexivity. Qed.

Lemma digit_upper x : in_range 48 57 (upper_cu x) = true -> is_digit x = true.
Proof.
  unfold upper_cu, in_range, is_digit. destruct (is_lower x) eqn:L; [|auto].
  unfold is_lower in L. apply andb_true_iff in L as [L1 L2]. apply N.leb_le in L1, L2.
  intros H. apply andb_true_iff in H as [H1 H2]. apply N.leb_le in H1, H2. lia.
Qed.

Lemma digit_lower x : in_range 48 57 (lower_cu x) = true -> is_digit x = true.
Proof.
  unfold lower_cu, in_range, is_digit. destruct (is_upper x) eqn:L; [|auto].
  unfold is_upper in L. apply andb_true_iff in L as [L1 L2]. apply N.leb_le in L1, L2.
  intros H. apply andb_true_iff in H as [H1 H2]. apply N.leb_le in H1, H2. lia.
Qed.

Lemma digit_class ic w :
  Forall (fun x => class_matches ic false [CRange 48 57] x = true) w ->
  forallb is_digit w = true /\ toUpperCase w = w.
Proof.
  induction 1 as [|x w Hx _ [IH1 IH2]]; [split; reflexivity|].
  assert (D : is_digit x = true).
  { unfold class_matches in Hx. cbn [existsb item_matches xorb] in Hx.
    rewrite orb_false_r in Hx. apply orb_true_iff in Hx as [Hx|Hx]; [exact Hx|].
    apply andb_true_iff in Hx as [_ Hx]. apply orb_true_iff in Hx as [Hx|Hx].
    - apply digit_upper. exact Hx.
    - apply digit_lower. exact Hx. }
  cbn [forallb]. rewrite D, IH1. split; [reflexivity|].
  unfold toUpperCase in *. cbn [List.map]. rewrite IH2.
  unfold upper_cu, is_lower. unfold is_digit in D.
  apply andb_true_iff in D as [D1 D2]. apply N.leb_le in D1, D2.
  destruct (N.leb_spec 97 x); [lia | reflexivity].
Qed.

Lemma space_class w :
  Forall (fun x => class_matches true false [CSpace false] x = true) w ->
  forallb is_space w = true /\ toUpperCase w = w.
Proof.
  induction 1 as [|x w Hx _ [IH1 IH2]]; [split; reflexivity|].
  assert (D : is_space x = true).
  { unfold class_matches in Hx. cbn [existsb item_matches xorb] in Hx.
    destruct (is_space x); [reflexivity | discriminate]. }
  cbn [forallb]. rewrite D, IH1. split; [reflexivity|].
  unfold toUpperCase in *. cbn [List.map]. rewrite IH2.
  unfold upper_cu, is_lower.
  destruct (N.leb_spec 97 x) as [L1|]; [|reflexivity].
  destruct (N.leb_spec x 122) as [L2|]; [|reflexivity].
  exfalso. unfold is_space in D.
  repeat match type of D with
         | context [N.leb ?a ?b] => destruct (N.leb_spec a b); try lia
         | context [N.eqb ?a ?b] => destruct (N.eqb_spec a b); try lia
         end;
    try discriminate.
Qed.

Lemma sizes_capture_shape re html st :
  In re sizePatterns -> In st (exec_all re html) ->
  size_shaped (toUpperCase (capture 1 st)).
Proof.
  intros Hre Hin.
  apply exec_all_In in Hin as (pre & suf & prev & idx & _ & Hm).
  apply match_here_Matches in Hm.
  destruct Hre as [<-|[<-|[<-|[]]]]; cbn [pattern ignoreCase] in Hm;
    apply word_group_capture in Hm as (sb & Hb & ->).
  - left.
    assert (K : forall w, Matches false (Lit w)
                            {| m_prev := prev; m_rest := suf; m_idx := idx; m_caps := [] |} sb ->
                          consumed {| m_prev := prev; m_rest := suf; m_idx := idx; m_caps := [] |} sb = w).
    { intros w Hw. apply Matches_Lit_consumed in Hw as (w' & E & L & Hc).
      rewrite !map_canon_false in Hc. subst w'. apply consumed_eq; assumption. }
    apply Matches_Alts in Hb as [Hb|(r & Hr & Hb)].
    + rewrite (K _ Hb). vm_compute. auto.
    + cbn [In] in Hr.
      repeat (destruct Hr as [<-|Hr]; [rewrite (K _ Hb); vm_compute; auto 10|]).
      destruct Hr.
  - right. left. unfold Seqs in Hb. cbn [fold_right] in Hb.
    apply Matches_Seq_inv in Hb as (s1 & H1 & Hb).
    apply Matches_Seq_inv in Hb as (s2 & H2 & Hb).
    apply Matches_Seq_inv in Hb as (s3 & H3 & Hb).
    apply Matches_Empty_inv in Hb. subst s3.
    apply Matches_Lit_consumed in H1 as (w1 & E1 & L1 & C1).
    apply Matches_star_class in H2 as (w2 & E2 & L2 & F2 & _).
    apply Matches_plus_class in H3 as (w3 & N3 & E3 & L3 & F3).
    cbn [m_rest m_idx] in *.
    rewrite (consumed_eq _ _ (w1 ++ w2 ++ w3)).
    + apply space_class in F2 as [F2 U2]. apply digit_class in F3 as [F3 U3].
      exists w2, w3. unfold toUpperCase in *. rewrite !map_app, U2, U3.
      change (List.map (canon true) w1 = List.map (canon true) (str "size")) in C1.
      change (canon true) with upper_cu in C1. rewrite C1.
      repeat split; auto.
    + cbn [m_rest]. rewrite E1, E2, E3, <- !app_assoc. reflexivity.
    + cbn [m_idx]. rewrite L3, L2, L1, !length_app. lia.
  - right. right. unfold Seqs in Hb. cbn [fold_right] in Hb.
    apply Matches_Seq_inv in Hb as (s1 & H1 & Hb).
    apply Matches_Seq_inv in Hb as (s2 & H2 & Hb).
    apply Matches_Empty_inv in Hb. subst s2.
    apply Matches_plus_class in H1 as (w1 & N1 & E1 & L1 & F1).
    apply Matches_Class_inv in H2 as (x & rest & Hr & Hx & ->).
    cbn [m_rest m_idx advance] in *.
    rewrite (consumed_eq _ _ (w1 ++ [x])).
    + apply digit_class in F1 as [F1 U1].
      assert (Ux : is_upper x = true).
      { unfold class_matches in Hx. cbn [existsb item_matches xorb andb orb] in Hx.
        unfold in_range in Hx. unfold is_upper.
        destruct ((65 <=? x)%N && (x <=? 90)%N); [reflexivity | discriminate]. }
      exists w1, x. unfold toUpperCase in *. rewrite map_app, U1. cbn [List.map].
      assert (upper_cu x = x) as ->.
      { unfold upper_cu, is_lower. unfold is_upper in Ux.
        apply andb_true_iff in Ux as [A B]. apply N.leb_le in A, B.
        destruct (N.leb_spec 97 x); [lia | reflexivity]. }
      repeat split; auto.
    + cbn [m_rest advance]. rewrite E1, Hr, <- app_assoc. reflexivity.
    + cbn [m_idx advance]. rewrite L1, length_app. cbn [length]. lia.
Qed.

Lemma fold_set_add_invariant {A} (P : list jsstring -> Prop) (f : A -> jsstring) l :
  (forall s x, In x l -> P s -> P (set_add (f x) s)) ->
  forall s, P s -> P (fold_left (fun s x => set_add (f x) s) l s).
Proof.
  induction l as [|x l IH]; intros Hstep s Hs; cbn [fold_left]; [exact Hs|].
  apply IH.
  - intros s' y Hy. apply Hstep. right. exact Hy.
  - apply Hstep; [left; reflexivity | exact Hs].
Qed.

Lemma extractSizes_invariant (P : list jsstring -> Prop) html :
  P [] ->
  (forall re st s, In re sizePatterns -> In st (exec_all re html) ->
     P s -> P (set_add (toUpperCase (capture 1 st)) s)) ->
  P (extractSizes html).
Proof.
  intros H0 Hstep. unfold extractSizes.
  assert (G : forall res s, (forall re, In re res -> In re sizePatterns) -> P s ->
            P (fold_left
                 (fun sizes re =>
                    fold_left (fun sizes st => set_add (toUpperCase (capture 1 st)) sizes)
                      (exec_all re html) sizes) res s)).
  { induction res as [|re res IH]; intros s Hres Hs; cbn [fold_left]; [exact Hs|].
    apply IH; [intros re' Hin; apply Hres; right; exact Hin|].
    apply (fold_set_add_invariant P (fun st => toUpperCase (capture 1 st))); [|exact Hs].
    intros s' st Hst Hs'. apply (Hstep re); [apply Hres; left; reflexivity|exact Hst|exact Hs']. }
  apply G; auto.
Qed.

(** X8. Every size that [extractSizes] returns has one of three shapes:
    one of the eight letter sizes; the word SIZE in capitals, white
    space or none, and digits; or digits followed by one capital letter.
    What the page wrote in lower case comes back in upper case. *)
Theorem extractSizes_shapes (html s : jsstring) :
  In s (extractSizes html) -> size_shaped s.
Proof.
  revert s.
  apply (extractSizes_invariant (fun l => forall s, In s l -> size_shaped s)).
  - intros s [].
  - intros re st l Hre Hst Hl s Hin.
    apply set_add_In_inv in Hin as [->|Hin]; [|apply Hl; exact Hin].
    eapply sizes_capture_shape; eassumption.
Qed.

Lemma extractSizes_shapes_witness :
  In (str "SIZE 10") (extractSizes sizes_page) /\ size_shaped (str "SIZE 10").
Proof.
  assert (H : In (str "SIZE 10") (extractSizes sizes_page)).
  { vm_compute. auto 10. }
  split; [exact H|]. exact (extractSizes_shapes _ _ H).
Defined.

(** X9. [extractSizes] returns every size once: the sizes are compared
    after the conversion to upper case, so "size 10" and "Size 10" are
    one entry. *)
Theorem extractSizes_has_no_duplicates (html : jsstring) :
  List.NoDup (extractSizes html).
Proof.
  apply (extractSizes_invariant (@List.NoDup jsstring)).
  - constructor.
  - intros re st l _ _ Hl. apply set_add_NoDup. exact Hl.
Qed.

(* ================================================================== *)
(** * The entries of a size chart *)
(* ================================================================== *)

Lemma fold_left_invariant {A B} (P : B -> Prop) (f : B -> A -> B) l :
  (forall b x, In x l -> P b -> P (f b x)) ->
  forall b, P b -> P (fold_left f l b).
Proof.
  induction l as [|x l IH]; intros Hstep b Hb; cbn [fold_left]; [exact Hb|].
  apply IH.
  - intros b' y Hy. apply Hstep. right. exact Hy.
  - apply Hstep; [left; reflexivity | exact Hb].
Qed.

Lemma measurements_no_NaN headers cells name x :
  measurements headers cells !! name = Some x -> isNaN x = false.
Proof.
  unfold measurements. revert name x.
  apply (fold_left_invariant
           (fun row : gmap (list N) float =>
              forall name x, row !! name = Some x -> isNaN x = false)).
  - intros row i _ Hrow name x.
    destruct (isNaN (parseFloat (nth i cells []))) eqn:Hn; cbn [negb]; [apply Hrow|].
    unfold set_property.
    destruct (str_eqb (toLowerCase (nth i headers [])) (str "__proto__"));
      [apply Hrow|].
    destruct (decide (toLowerCase (nth i headers []) = name)) as [<-|Hne].
    + rewrite lookup_insert_eq. intros Hx. inversion Hx; subst. exact Hn.
    + rewrite lookup_insert_ne by exact Hne. apply Hrow.
  - intros name x Hx. rewrite lookup_empty in Hx. discriminate.
Qed.

Lemma Matches_Bol_inv ic st st' :
  Matches ic Bol st st' -> st' = st /\ m_idx st = 0.
Proof. inversion 1; subst; auto. Qed.

Lemma Matches_Eol_inv ic st st' :
  Matches ic Eol st st' -> st' = st /\ m_rest st = [].
Proof. inversion 1; subst; auto. Qed.

(** The size test accepts the letter sizes in any letter case and the
    texts made of digits, and nothing else. *)
Lemma sizeLabel_test label :
  regex_test sizeLabelRegex label = true -> size_label label.
Proof.
  unfold regex_test, str_match. intros H.
  destruct (search_from sizeLabelRegex None 0 label) as [st|] eqn:Hs; [|discriminate].
  clear H. apply search_from_sound in Hs as (pre & suf & prev & E & Hm).
  apply match_here_Matches in Hm.
  unfold sizeLabelRegex, pattern, ignoreCase, Seqs in Hm. cbn [fold_right] in Hm.
  apply Matches_Seq_inv in Hm as (s1 & H1 & Hm).
  apply Matches_Seq_inv in Hm as (s2 & H2 & Hm).
  apply Matches_Seq_inv in Hm as (s3 & H3 & Hm).
  apply Matches_Empty_inv in Hm. subst st.
  apply Matches_Bol_inv in H1 as [-> Hz]. cbn [m_idx] in Hz.
  destruct pre; [|discriminate]. cbn [app] in E. subst suf.
  apply Matches_Group_inv in H2 as (sb & Hb & ->).
  apply Matches_Eol_inv in H3 as [_ Hr]. cbn [m_rest set_capture] in Hr.
  assert (K : forall w, m_rest {| m_prev := prev; m_rest := label; m_idx := 0 + 0; m_caps := [] |}
                        = w ++ m_rest sb -> label = w).
  { intros w Ew. cbn [m_rest] in Ew. rewrite Hr, app_nil_r in Ew. exact Ew. }
  apply Matches_Alts in Hb as [Hb|(r & Hin & Hb)].
  - left. apply Matches_Lit_consumed in Hb as (w & Ew & _ & Hc).
    apply K in Ew. subst w. change (canon true) with upper_cu in Hc.
    unfold toUpperCase. rewrite Hc. vm_compute. auto.
  - cbn [In] in Hin.
    repeat (destruct Hin as [<-|Hin];
            [left; apply Matches_Lit_consumed in Hb as (w & Ew & _ & Hc);
             apply K in Ew; subst w; change (canon true) with upper_cu in Hc;
             unfold toUpperCase; rewrite Hc; vm_compute; auto 10|]).
    destruct Hin as [<-|[]].
    right. apply Matches_plus_class in Hb as (w & Nw & Ew & _ & Fw).
    apply K in Ew. subst w. split; [exact Nw|].
    clear -Fw. induction Fw as [|x w Hx _ IH]; [reflexivity|].
    cbn [forallb]. rewrite IH.
    unfold class_matches in Hx. cbn [existsb item_matches xorb] in Hx.
    rewrite orb_false_r in Hx. rewrite Hx. reflexivity.
Qed.

Lemma table_rows_invariant (P : gmap (list N) (gmap (list N) float) -> Prop) tableHtml :
  (forall chart size cells,
     regex_test sizeLabelRegex size = true -> P chart ->
     P (<[size := measurements (trimmed_captures headerRegex tableHtml) (size :: cells)]>
          chart)) ->
  forall chart, P chart -> P (table_rows tableHtml chart).
Proof.
  intros Hstep. unfold table_rows. apply fold_left_invariant.
  intros chart rowMatch _ Hc. unfold row_step.
  destruct (trimmed_captures cellRegex (capture 1 rowMatch)) as [|size cells]; [exact Hc|].
  destruct (regex_test sizeLabelRegex size) eqn:Ht; [|exact Hc].
  apply Hstep; assumption.
Qed.

(** X10. Whatever page a size guide serves, and also when the request
    fails, every entry of the chart that [scrapeSizeChart] returns is
    filed under a label that is a letter size, in any letter case, or a
    text of digits, and none of its measurements is NaN. *)
Theorem size_chart_entries_are_well_formed
    (p : platform) (url label : jsstring)
    (chart : gmap (list N) (gmap (list N) float)) (row : gmap (list N) float) :
  scrapeSizeChart p url = Return chart ->
  chart !! label = Some row ->
  size_label label
  /\ forall name x, row !! name = Some x -> isNaN x = false.
Proof.
  unfold scrapeSizeChart. intros H.
  destruct (axios_get p url) as [html|e]; cbn [bind try_catch] in H;
    inversion H; subst chart; clear H.
  2: { intros Hl. rewrite lookup_empty in Hl. discriminate. }
  unfold parse_size_chart. rewrite scan_tables_first.
  destruct (find yields_sizes (tables_of html)) as [t|].
  2: { intros Hl. rewrite lookup_empty in Hl. discriminate. }
  revert label row.
  apply (table_rows_invariant
           (fun chart => forall label row, chart !! label = Some row ->
              size_label label /\ forall name x, row !! name = Some x -> isNaN x = false)).
  - intros chart size cells Ht Hc label row.
    destruct (decide (size = label)) as [<-|Hne].
    + rewrite lookup_insert_eq. intros Hr. inversion Hr; subst row.
      split; [apply sizeLabel_test; exact Ht|].
      intros name x. apply measurements_no_NaN.
    + rewrite lookup_insert_ne by exact Hne. apply Hc.
  - intros label row Hl. rewrite lookup_empty in Hl. discriminate.
Qed.

Lemma size_chart_entries_are_well_formed_witness :
  exists row,
    scrapeSizeChart (serving repeated_label_chart) plain_url
    = Return (parse_size_chart repeated_label_chart)
    /\ parse_size_chart repeated_label_chart !! str "M" = Some row
    /\ size_label (str "M")
    /\ forall name x, row !! name = Some x -> isNaN x = false.
Proof.
  assert (Hs : scrapeSizeChart (serving repeated_label_chart) plain_url
               = Return (parse_size_chart repeated_label_chart)) by reflexivity.
  destruct (parse_size_chart repeated_label_chart !! str "M") as [row|] eqn:Hr;
    [|vm_compute in Hr; discriminate].
  exists row. split; [exact Hs|]. split; [reflexivity|].
  exact (size_chart_entries_are_well_formed _ _ _ _ _ Hs Hr).
Defined.

Lemma find_snoc {A} (f : A -> bool) l x :
  find f (rev (x :: l)) =
  match find f (rev l) with
  | Some y => Some y
  | None => if f x then Some x else None
  end.
Proof.
  cbn [rev]. generalize (rev l) as r. intros r.
  induction r as [|y r IH]; cbn [app find]; [reflexivity|].
  destruct (f y); [reflexivity | exact IH].
Qed.

Lemma fold_rows_lookup headers label ms :
  forall chart : gmap (list N) (gmap (list N) float),
  fold_left (row_step headers) ms chart !! label
  = match find (labelled label)
            (rev (List.map (fun rowMatch => trimmed_captures cellRegex (capture 1 rowMatch))
                    ms)) with
    | Some cells => Some (measurements headers cells)
    | None => chart !! label
    end.
Proof.
  induction ms as [|m ms IH]; intros chart; [reflexivity|].
  cbn [fold_left List.map]. rewrite IH, find_snoc.
  destruct (find (labelled label) _) as [cells|]; [reflexivity|].
  unfold row_step, labelled.
  destruct (trimmed_captures cellRegex (capture 1 m)) as [|size cells]; [reflexivity|].
  destruct (regex_test sizeLabelRegex size); rewrite ?andb_false_r, ?andb_true_r.
  - destruct (str_eqb size label) eqn:E.
    + apply str_eqb_eq in E. subst. apply lookup_insert_eq.
    + apply lookup_insert_ne. intros ->. rewrite str_eqb_refl in E. discriminate.
  - reflexivity.
Qed.

(** X11. Within one table, the entry of a label is built from the last
    row that starts with that label and passes the size test, and from
    that row alone: the assignment of an empty object at each row
    discards what an earlier row with the same label had stored. *)
Theorem later_row_replaces_earlier_one (tableHtml label : jsstring) :
  table_rows tableHtml ∅ !! label
  = option_map (measurements (trimmed_captures headerRegex tableHtml))
      (find (labelled label) (rev (rows_of tableHtml))).
Proof.
  unfold table_rows, rows_of. rewrite fold_rows_lookup.
  destruct (find (labelled label) _); [reflexivity | apply lookup_empty].
Qed.

(* ================================================================== *)
(** * More on checkFitCompatibility *)
(* ================================================================== *)

Lemma Forall2_snoc {A B} (R : A -> B -> Prop) l1 l2 x y :
  List.Forall2 R l1 l2 -> R x y -> List.Forall2 R (l1 ++ [x]) (l2 ++ [y]).
Proof.
  intros H Hxy. induction H; cbn [app];
    [constructor; [exact Hxy | constructor] | constructor; assumption].
Qed.

Lemma fit_loop_paired item all user : forall st,
  (forall e, In e user -> In (fst e) (List.map fst all)) ->
  List.Forall2 (paired all) (st_warnings st) (st_recommendations st) ->
  List.Forall2 (paired all)
    (st_warnings (fold_left (fit_step item) user st))
    (st_recommendations (fold_left (fit_step item) user st)).
Proof.
  induction user as [|[key u] user IH]; intros st Hin Hst; cbn [fold_left]; [exact Hst|].
  apply IH; [intros e He; apply Hin; right; exact He|].
  assert (Hk : In key (List.map fst all)) by (apply (Hin (key, u)); left; reflexivity).
  unfold fit_step.
  destruct (truthy_property (read_property item key)); [|exact Hst].
  set (d := percent_diff u (property_number (read_property item key))).
  destruct (PrimFloat.ltb d (-5)%float); [|destruct (PrimFloat.ltb 10%float d)];
    cbn [st_warnings st_recommendations]; [| |exact Hst];
    apply Forall2_snoc; try exact Hst;
    exists key, d; split; auto.
Qed.

(** X12. The recommendations run parallel to the warnings: there are as
    many, in the same order, and the recommendation at a position is the
    one for the key and the direction, tight or loose, of the warning at
    that position. *)
Theorem recommendations_follow_warnings
    (user : list (list N * float)) (item : gmap (list N) float) :
  let r := checkFitCompatibility user item in
  List.Forall2 (paired user) (warnings r) (recommendations r)
  /\ length (recommendations r) = length (warnings r).
Proof.
  cbn zeta. unfold checkFitCompatibility. cbn [warnings recommendations].
  assert (F : List.Forall2 (paired user)
                (st_warnings (fold_left (fit_step item) user
                                (mkFitState [] [] 0%float 0%float)))
                (st_recommendations (fold_left (fit_step item) user
                                       (mkFitState [] [] 0%float 0%float)))).
  { apply fit_loop_paired; [|constructor].
    intros e He. apply in_map. exact He. }
  split; [exact F|]. symmetry. eapply List.Forall2_length. exact F.
Qed.

(** X13. The score is never negative: it is NaN, zero, or greater than
    zero, whatever the measurements are. *)
Theorem score_is_never_negative
    (user : list (list N * float)) (item : gmap (list N) float) :
  let s := score (checkFitCompatibility user item) in
  is_nan s = true \/ s = 0%float \/ PrimFloat.ltb 0%float s = true.
Proof.
  cbn zeta. unfold checkFitCompatibility. cbn [score].
  generalize (100 - (if PrimFloat.ltb 0 (measurementCount
                          (fold_left (fit_step item) user
                             (mkFitState [] [] 0%float 0%float)))
                     then (totalDiff (fold_left (fit_step item) user
                             (mkFitState [] [] 0%float 0%float))
                           / measurementCount (fold_left (fit_step item) user
                             (mkFitState [] [] 0%float 0%float)))
                     else 100))%float as x.
  intros x. unfold Math_max.
  destruct (is_nan 0 || is_nan x); [left; reflexivity|].
  destruct (PrimFloat.ltb 0 x) eqn:L; [right; right; exact L|].
  destruct (PrimFloat.ltb x 0); [right; left; reflexivity|].
  right. left. reflexivity.
Qed.

Lemma fit_step_insert item k v st key u :
  key <> k -> fit_step (<[k := v]> item) st (key, u) = fit_step item st (key, u).
Proof.
  intros Hne. unfold fit_step, read_property.
  rewrite lookup_insert_ne by congruence. reflexivity.
Qed.

Lemma fit_loop_insert item k v user : forall st,
  ~ In k (List.map fst user) ->
  fold_left (fit_step (<[k := v]> item)) user st = fold_left (fit_step item) user st.
Proof.
  induction user as [|[key u] user IH]; intros st Hk; cbn [fold_left]; [reflexivity|].
  cbn [List.map fst In] in Hk.
  rewrite fit_step_insert by (intros ->; apply Hk; left; reflexivity).
  apply IH. intros Hin. apply Hk. right. exact Hin.
Qed.

(** X14. A measurement of the item under a key the user does not have
    changes nothing: the loop runs over the user's keys only, so the
    score, the verdict, the warnings and the recommendations are those
    of the item without that measurement. *)
Theorem item_only_measurement_is_ignored
    (user : list (list N * float)) (item : gmap (list N) float)
    (key : jsstring) (value : float) :
  ~ In key (List.map fst user) ->
  checkFitCompatibility user (<[key := value]> item) = checkFitCompatibility user item.
Proof.
  intros Hk. unfold checkFitCompatibility. rewrite fit_loop_insert by exact Hk.
  reflexivity.
Qed.

Lemma item_only_measurement_is_ignored_witness :
  checkFitCompatibility [(chest, 100%float)]
    (<[hips := 40%float]> (<[chest := 90%float]> ∅))
  = checkFitCompatibility [(chest, 100%float)] (<[chest := 90%float]> ∅).
Proof.
  apply item_only_measurement_is_ignored.
  cbn [List.map fst In]. intros [H|[]]. vm_compute in H. discriminate.
Defined.

(* ================================================================== *)
(** * getSizeChartUrl *)
(* ================================================================== *)

Lemma brand_key_app a b : brand_key (a ++ b) = brand_key a ++ brand_key b.
Proof. unfold brand_key. apply flat_map_app. Qed.

Lemma lower_letters_upper c : lower_letters (upper_cu c) = lower_letters c.
Proof.
  unfold upper_cu. destruct (is_lower c) eqn:L; [|reflexivity].
  unfold lower_letters. rewrite L.
  unfold is_lower, is_upper in *. apply andb_true_iff in L as [L1 L2].
  apply N.leb_le in L1, L2.
  destruct (N.leb_spec 97 (c - 32)); [lia|]. cbn [andb].
  destruct (N.leb_spec 65 (c - 32)); [|lia].
  destruct (N.leb_spec (c - 32) 90); [|lia]. cbn [andb].
  f_equal. lia.
Qed.

Lemma brand_key_upper brand : brand_key (toUpperCase brand) = brand_key brand.
Proof.
  unfold brand_key, toUpperCase.
  induction brand as [|c brand IH]; [reflexivity|].
  cbn [List.map flat_map]. rewrite IH, lower_letters_upper. reflexivity.
Qed.

(** X15. The size-guide URL depends on the letters of the brand only: a
    code unit that is neither an ASCII letter nor one of the two code
    units whose lower-case form holds one can be inserted anywhere, the
    ASCII letters of the brand can be written in capitals, and the
    category can be anything, without changing the result. *)
Theorem getSizeChartUrl_reads_letters_only
    (before after : jsstring) (c : N) (category category' : option jsstring) :
  no_letter c ->
  getSizeChartUrl (before ++ c :: after) category
  = getSizeChartUrl (before ++ after) category'
  /\ getSizeChartUrl (List.map upper_cu (before ++ c :: after)) category
     = getSizeChartUrl (before ++ after) category'.
Proof.
  intros (Hl & Hu & Hk & Hi). unfold getSizeChartUrl.
  assert (E : brand_key (before ++ c :: after) = brand_key (before ++ after)).
  { rewrite !brand_key_app. f_equal. unfold brand_key. cbn [flat_map].
    unfold lower_letters. rewrite Hl, Hu.
    destruct (N.eqb_spec c 8490); [contradiction|].
    destruct (N.eqb_spec c 304); [contradiction|]. reflexivity. }
  change (List.map upper_cu (before ++ c :: after))
    with (toUpperCase (before ++ c :: after)).
  rewrite brand_key_upper, E. split; reflexivity.
Qed.

Lemma getSizeChartUrl_reads_letters_only_witness :
  getSizeChartUrl (str "H&M") None
  = ChartUrl (str "https://www2.hm.com/en_us/customer-service/size-guide.html")
  /\ getSizeChartUrl (str "H" ++ 38%N :: str "m") None
     = getSizeChartUrl (str "H" ++ str "m") (Some (str "shirt")).
Proof.
  split; [vm_compute; reflexivity|].
  apply (getSizeChartUrl_reads_letters_only (str "H") (str "m") 38 None (Some (str "shirt"))).
  vm_compute. repeat split; discriminate.
Defined.

(* ================================================================== *)
(** * fileToPart and handleApiResponse *)
(* ================================================================== *)

Lemma find_first {A} (f : A -> bool) l x :
  find f l = Some x ->
  exists before after,
    l = before ++ x :: after /\ f x = true /\ forall y, In y before -> f y = false.
Proof.
  induction l as [|y l IH]; intros H; cbn [find] in H; [discriminate|].
  destruct (f y) eqn:Hy.
  - inversion H; subst. exists [], l. repeat split; auto. intros ? [].
  - apply IH in H as (before & after & -> & Hx & Hb).
    exists (y :: before), after. repeat split; auto.
    intros z [<-|Hz]; auto.
Qed.

(** X16. What [handleApiResponse] returns is the data URL of the first
    part with inline data of the first candidate: the prompt was not
    blocked, later parts and later candidates are not looked at, and the
    context and the finish reason play no role. *)
Theorem handleApiResponse_returns_first_image
    (response : GenerateContentResponse) (context url : jsstring) :
  handleApiResponse response context = Return url ->
  (forall feedback, promptFeedback response = Some feedback ->
     truthy_str (blockReason feedback) = false)
  /\ exists c others before image note after,
       candidates response = Some (c :: others)
       /\ parts c = Some (before ++ mkPart (Some image) note :: after)
       /\ (forall part, In part before -> inlineData part = None)
       /\ url = data_url image.
Proof.
  unfold handleApiResponse. intros H.
  assert (B : forall feedback, promptFeedback response = Some feedback ->
                truthy_str (blockReason feedback) = false).
  { intros feedback Hf. rewrite Hf in H.
    destruct (truthy_str (blockReason feedback)); [discriminate | reflexivity]. }
  split; [exact B|].
  destruct (promptFeedback response) as [feedback|].
  - rewrite (B feedback eq_refl) in H. revert H.
    unfold first_candidate. destruct (candidates response) as [[|c others]|];
      try (destruct (truthy_str None && _); discriminate).
    destruct (parts c) as [ps|] eqn:Hp.
    2: { destruct (truthy_str (finishReason c) && _); discriminate. }
    destruct (find has_inline_data ps) as [[[image|] note]|] eqn:Hf;
      try (destruct (truthy_str (finishReason c) && _); discriminate).
    intros H. inversion H; subst url.
    apply find_first in Hf as (before & after & -> & _ & Hb).
    exists c, others, before, image, note, after. repeat split; auto.
    intros part Hin. apply Hb in Hin. unfold has_inline_data in Hin.
    destruct (inlineData part); [discriminate | reflexivity].
  - revert H.
    unfold first_candidate. destruct (candidates response) as [[|c others]|];
      try (destruct (truthy_str None && _); discriminate).
    destruct (parts c) as [ps|] eqn:Hp.
    2: { destruct (truthy_str (finishReason c) && _); discriminate. }
    destruct (find has_inline_data ps) as [[[image|] note]|] eqn:Hf;
      try (destruct (truthy_str (finishReason c) && _); discriminate).
    intros H. inversion H; subst url.
    apply find_first in Hf as (before & after & -> & _ & Hb).
    exists c, others, before, image, note, after. repeat split; auto.
    intros part Hin. apply Hb in Hin. unfold has_inline_data in Hin.
    destruct (inlineData part); [discriminate | reflexivity].
Qed.

Lemma handleApiResponse_returns_first_image_witness :
  handleApiResponse two_images (str "edit")
  = Return (str "data:image/png;base64,iVBORw0KGgo=")
  /\ exists c others before image note after,
       candidates two_images = Some (c :: others)
       /\ parts c = Some (before ++ mkPart (Some image) note :: after)
       /\ (forall part, In part before -> inlineData part = None)
       /\ str "data:image/png;base64,iVBORw0KGgo=" = data_url image.
Proof.
  assert (H : handleApiResponse two_images (str "edit")
              = Return (str "data:image/png;base64,iVBORw0KGgo="))
    by (vm_compute; reflexivity).
  split; [exact H|].
  exact (proj2 (handleApiResponse_returns_first_image _ _ _ H)).
Defined.

(** A lazy run over a character class stops at the first position where
    the rest of the pattern matches. *)
Lemma lazy_star_class ic negated items k r : forall w st rest fuel,
  m_rest st = w ++ rest ->
  length w <= fuel ->
  Forall (fun x => class_matches ic negated items x = true) w ->
  (forall pre x post, w = pre ++ x :: post ->
     k (mkState (prev_after (m_prev st) pre) (x :: post ++ rest)
          (m_idx st + length pre) (m_caps st)) = None) ->
  k (mkState (prev_after (m_prev st) w) rest (m_idx st + length w) (m_caps st)) = Some r ->
  star_loop false (rmatch ic (Class negated items)) fuel st k = Some r.
Proof.
  induction w as [|x w IH]; intros st rest fuel Hr Hf Hall Hno Hyes.
  - cbn [app prev_after length] in *. rewrite Nat.add_0_r in Hyes.
    assert (E : mkState (m_prev st) rest (m_idx st) (m_caps st) = st).
    { destruct st; cbn in *; subst; reflexivity. }
    rewrite E in Hyes. destruct fuel; cbn [star_loop]; rewrite Hyes; reflexivity.
  - destruct fuel as [|f]; [cbn in Hf; lia|]. cbn [star_loop].
    pose proof (Hno [] x w eq_refl) as H0.
    cbn [prev_after length] in H0. rewrite Nat.add_0_r in H0.
    assert (E : mkState (m_prev st) (x :: w ++ rest) (m_idx st) (m_caps st) = st).
    { destruct st; cbn in *; subst; reflexivity. }
    rewrite E in H0. rewrite H0.
    cbn [rmatch]. rewrite Hr. cbn [app].
    inversion Hall as [|? ? Hx Hw]; subst. rewrite Hx.
    cbn [advance m_idx]. rewrite (proj2 (Nat.eqb_neq _ _)) by lia.
    apply (IH _ rest).
    + reflexivity.
    + cbn in Hf. lia.
    + exact Hw.
    + intros pre y post Ew. cbn [advance m_prev m_idx m_caps].
      specialize (Hno (x :: pre) y post). cbn [prev_after length app] in Hno.
      replace (S (m_idx st) + length pre) with (m_idx st + S (length pre)) by lia.
      apply Hno. rewrite Ew. reflexivity.
    + cbn [advance m_prev m_idx m_caps]. cbn [prev_after length] in Hyes.
      replace (S (m_idx st) + length w) with (m_idx st + S (length w)) by lia.
      exact Hyes.
Qed.

Lemma search_from_miss re prev idx c s :
  match_here re prev idx (c :: s) = None ->
  search_from re prev idx (c :: s) = search_from re (Some c) (S idx) s.
Proof. intros H. cbn [search_from]. rewrite H. reflexivity. Qed.

Lemma plain_mime_inv mime :
  forallb (fun c => negb (is_line_terminator c) && negb (c =? 44)%N
                    && negb (c =? 59)%N) mime = true ->
  Forall (fun x => class_matches false true
                     [CChar 10; CChar 13; CChar 8232; CChar 8233] x = true) mime
  /\ ~ In 44%N mime /\ ~ In 59%N mime.
Proof.
  induction mime as [|c mime IH]; intros H; [repeat split; auto; constructor|].
  cbn [forallb] in H. apply andb_true_iff in H as [Hc H].
  apply IH in H as (F & C & Hsemi).
  apply andb_true_iff in Hc as [Hc Hs]. apply andb_true_iff in Hc as [Hl Hc].
  apply negb_true_iff in Hl, Hc, Hs. apply N.eqb_neq in Hc, Hs.
  repeat split.
  - constructor; [|exact F].
    unfold class_matches. cbn [existsb item_matches canon xorb].
    unfold is_line_terminator in Hl. unfold cu_eqb.
    rewrite !(N.eqb_sym _ c), orb_false_r, <- !orb_assoc in *. rewrite Hl. reflexivity.
  - intros [E|Hin]; [congruence | auto].
  - intros [E|Hin]; [congruence | auto].
Qed.

(** The pattern of [fileToPart] on the head of a data URL. *)
Lemma mimeRegex_reads_mime mime :
  plain_mime mime ->
  exists m, str_match mimeRegex (str "data:" ++ mime ++ str ";base64") = Some m
            /\ capture 1 m = mime.
Proof.
  intros [Hne Hp]. apply plain_mime_inv in Hp as (F & _ & Hsemi).
  unfold str_match.
  change (str "data:" ++ mime ++ str ";base64")
    with (100 :: 97 :: 116 :: 97 :: 58 :: mime ++ str ";base64")%N.
  do 4 (rewrite search_from_miss by reflexivity).
  set (st1 := mkState (Some 58%N) (mime ++ str ";base64") 5 []).
  set (k := fun st' : mstate =>
              rmatch false (Seq (Lit (str ";")) Empty)
                (set_capture 1 (consumed st1 st') st') Some).
  assert (E : match_here mimeRegex (Some 97%N) 4 (58%N :: mime ++ str ";base64")
              = star_loop false (rmatch false not_newline)
                  (length (mime ++ str ";base64")) st1 k) by reflexivity.
  set (end_state := mkState (prev_after (Some 58%N) mime) (str ";base64")
                      (5 + length mime) []).
  assert (C : consumed st1 end_state = mime).
  { apply consumed_eq; reflexivity. }
  assert (Y : k end_state
              = Some (mkState (Some 59%N) (str "base64") (S (5 + length mime))
                        [(1, mime)])).
  { unfold k. rewrite C. reflexivity. }
  assert (L : star_loop false (rmatch false not_newline)
                (length (mime ++ str ";base64")) st1 k
              = Some (mkState (Some 59%N) (str "base64") (S (5 + length mime))
                        [(1, mime)])).
  { apply (lazy_star_class false true _ k _ mime st1 (str ";base64")).
    - reflexivity.
    - rewrite length_app. lia.
    - exact F.
    - intros pre x post Ew. unfold k.
      change (Lit (str ";")) with (Seq (Char 59) Empty).
      cbn [rmatch set_capture m_rest canon]. unfold cu_eqb. destruct (N.eqb_spec 59 x) as [<-|_]; [|reflexivity].
      exfalso. apply Hsemi. rewrite Ew. apply in_or_app. right. left. reflexivity.
    - exact Y. }
  cbn [search_from]. rewrite E, L. eexists. split; [reflexivity|]. reflexivity.
Qed.

Lemma split_on_pieces sep s piece :
  In piece (split_on sep s) -> ~ In sep piece.
Proof.
  revert piece. induction s as [|c s IH]; intros piece H; cbn [split_on] in H.
  - destruct H as [<-|[]]. intros [].
  - unfold cu_eqb in H. destruct (N.eqb_spec c sep) as [->|Hne].
    + destruct H as [<-|H]; [intros [] | apply IH; exact H].
    + destruct (split_on sep s) as [|w ws] eqn:Es.
      * destruct H as [<-|[]]. intros [E|[]]. congruence.
      * destruct H as [<-|H].
        -- intros [E|Hin]; [congruence|]. apply (IH w); [left; reflexivity | exact Hin].
        -- apply IH. right. exact H.
Qed.

(** X17. A data URL as [handleApiResponse] builds it goes through the
    File branch of [fileToPart] unchanged: for a MIME type that is not
    empty, stands on one line and has no comma and no semicolon, and a
    payload without a comma, the part that comes back holds the same
    MIME type and the same payload. *)
Theorem data_url_round_trip (image : InlineData) (declared : option jsstring) :
  plain_mime (mimeType image) ->
  ~ In 44%N (data image) ->
  fileToPart (FileObject (Return (data_url image))) declared
  = Return (mkPart (Some image) None).
Proof.
  intros Hm Hd. unfold fileToPart, data_url. cbn [bind].
  assert (A : split_on 44 (str "data:" ++ mimeType image ++ str ";base64," ++ data image)
              = [str "data:" ++ mimeType image ++ str ";base64"; data image]).
  { replace (str "data:" ++ mimeType image ++ str ";base64," ++ data image)
      with ((str "data:" ++ mimeType image ++ str ";base64") ++ 44%N :: data image).
    - rewrite split_on_app.
      + rewrite split_on_dotless by exact Hd. reflexivity.
      + destruct Hm as [_ Hp]. apply plain_mime_inv in Hp as (_ & Hc & _).
        intros Hin. apply in_app_or in Hin as [Hin|Hin].
        * vm_compute in Hin. intuition discriminate.
        * apply in_app_or in Hin as [Hin|Hin]; [auto|].
          vm_compute in Hin. intuition discriminate.
    - rewrite <- !app_assoc. reflexivity. }
  rewrite A. cbn [length Nat.ltb Nat.leb nth].
  destruct (mimeRegex_reads_mime _ Hm) as (m & -> & ->).
  destruct Hm as [Hne _]. destruct image as [mime payload]. cbn [mimeType data] in *.
  destruct mime; [contradiction | reflexivity].
Qed.

Lemma data_url_round_trip_witness :
  fileToPart (FileObject (Return (str "data:image/png;base64,iVBORw0KGgo="))) None
  = Return (mkPart (Some png) None).
Proof.
  apply (data_url_round_trip png None).
  - split; [discriminate | vm_compute; reflexivity].
  - vm_compute. intuition discriminate.
Defined.

(** X18. A part that [fileToPart] returns always names a MIME type: a
    Buffer without a declared type, or with an empty one, is sent as
    image/jpeg, and a File whose data URL yields an empty type is
    refused. The payload of a File holds no comma: of a data URL with
    several commas only the text between the first two is kept. *)
Theorem fileToPart_names_a_mime_type
    (file : file_or_buffer) (declared : option jsstring) (part : Part) :
  fileToPart file declared = Return part ->
  exists image,
    part = mkPart (Some image) None
    /\ mimeType image <> []
    /\ match file with
       | FileObject _ => ~ In 44%N (data image)
       | BufferObject base64 =>
           data image = base64
           /\ (truthy_str declared = false -> mimeType image = str "image/jpeg")
       end.
Proof.
  unfold fileToPart. destruct file as [[dataUrl|e]|base64]; cbn [bind]; intros H;
    try discriminate.
  - destruct (Nat.ltb (length (split_on 44 dataUrl)) 2) eqn:Hl; [discriminate|].
    destruct (str_match mimeRegex (nth 0 (split_on 44 dataUrl) [])) as [m|];
      [|discriminate].
    destruct (nonempty (capture 1 m)) eqn:Hn; [|discriminate].
    inversion H; subst part. eexists. split; [reflexivity|]. cbn [mimeType data].
    split.
    + intros E. rewrite E in Hn. discriminate.
    + apply (split_on_pieces 44 dataUrl). apply nth_In.
      apply Nat.ltb_ge in Hl. lia.
  - inversion H; subst part. eexists. split; [reflexivity|]. cbn [mimeType data].
    split; [|split].
    + destruct declared as [[|c s]|]; discriminate.
    + reflexivity.
    + intros Ht. destruct declared as [[|c s]|]; try reflexivity. discriminate.
Qed.

Lemma fileToPart_names_a_mime_type_witness :
  exists image,
    mkPart (Some (mkInlineData (str "image/jpeg") (str "AAAA"))) None
    = mkPart (Some image) None
    /\ mimeType image <> []
    /\ data image = str "AAAA"
    /\ (truthy_str (Some []) = false -> mimeType image = str "image/jpeg").
Proof.
  apply (fileToPart_names_a_mime_type (BufferObject (str "AAAA")) (Some [])).
  reflexivity.
Defined.

(* ================================================================== *)
(** * The import route *)
(* ================================================================== *)

Lemma scrapeProductPage_throws p url e :
  scrapeProductPage p url = Throw e -> exists e0, e = failed_to_scrape e0.
Proof.
  unfold scrapeProductPage, try_catch.
  destruct (scrapeProductPage_body p url) as [pd|e0]; [discriminate|].
  intros H. inversion H. exists e0. reflexivity.
Qed.

(** The handler up to the call of [scrapeProductPage]. *)
Lemma POST_body_requests p s id u :
  requests s id u ->
  POST_body p s
  = let! productData := scrapeProductPage p u in
    if negb (truthy (imageUrl productData)) then
      Return (json (ErrorBody (str "Could not extract product image from URL") None) 400)
    else
      let! chart := brand_size_chart p s productData in
      let sizingData := with_measurements s productData chart in
      let! clothingItem :=
        clothingItem_create s (item_data s id u productData sizingData) in
      Return (json (ImportedBody clothingItem productData sizingData) 200).
Proof.
  intros (session & parsed & Hs & Hi & Ht & Hr & Hd & Hu).
  unfold POST_body. rewrite Hs. cbn [bind]. rewrite Hi. cbn [bind].
  rewrite Ht. cbn [negb]. rewrite Hr. cbn [bind]. rewrite Hd. cbn [bind].
  unfold checked_url. destruct u as [|c u]; [discriminate|].
  cbn [truthy negb]. rewrite Hu. reflexivity.
Qed.

(** X19. When the page cannot be scraped, a signed-in request with a
    valid URL is answered with status 500, and the details are the
    scraper's message, which starts with
    "Failed to scrape product page: ". *)
Theorem scrape_failure_is_answered_with_500
    (p : platform) (s : services) (id : value) (u : jsstring) (e : thrown) :
  requests s id u ->
  scrapeProductPage p u = Throw e ->
  exists message,
    POST p s = failed_import (str "Failed to scrape product page: " ++ message).
Proof.
  intros Hreq He. unfold POST. rewrite (POST_body_requests p s id u Hreq), He.
  cbn [bind]. apply scrapeProductPage_throws in He as (e0 & ->).
  unfold failed_to_scrape, failed_import. eexists. reflexivity.
Qed.

Lemma scrape_failure_is_answered_with_500_witness :
  exists message,
    POST (serving null_block_page) signed_in
    = failed_import (str "Failed to scrape product page: " ++ message).
Proof.
  destruct (scrapeProductPage (serving null_block_page) plain_url) as [pd|e] eqn:Hs;
    [vm_compute in Hs; discriminate|].
  apply (scrape_failure_is_answered_with_500 (serving null_block_page) signed_in
           (VStr (str "u1")) plain_url e); [|exact Hs].
  eexists _, _. repeat split.
Defined.

(** X20. A brand that is truthy but not a string, as when the last
    Product block gives [manufacturer] as an object, fails the import:
    [getSizeChartUrl] calls [toLowerCase] on it, and the request is
    answered with status 500 although the page was scraped and has an
    image. *)
Theorem non_string_brand_fails_the_import
    (p : platform) (s : services) (id : value) (u : jsstring) (pd : ProductData) :
  requests s id u ->
  scrapeProductPage p u = Return pd ->
  truthy (imageUrl pd) = true ->
  truthy (brand pd) = true ->
  is_string (brand pd) = false ->
  POST p s = failed_import (str "brand.toLowerCase is not a function").
Proof.
  intros Hreq Hs Hi Hb Hn. unfold POST.
  rewrite (POST_body_requests p s id u Hreq), Hs. cbn [bind]. rewrite Hi. cbn [negb].
  unfold brand_size_chart. rewrite Hb.
  destruct (brand pd); try discriminate; reflexivity.
Qed.

Lemma non_string_brand_fails_the_import_witness :
  POST (serving manufacturer_page) signed_in
  = failed_import (str "brand.toLowerCase is not a function").
Proof.
  destruct (scrapeProductPage (serving manufacturer_page) plain_url) as [pd|e] eqn:Hs;
    [|vm_compute in Hs; discriminate].
  apply (non_string_brand_fails_the_import (serving manufacturer_page) signed_in
           (VStr (str "u1")) plain_url pd).
  - eexists _, _. repeat split.
  - exact Hs.
  - vm_compute in Hs. inversion Hs. reflexivity.
  - vm_compute in Hs. inversion Hs. reflexivity.
  - vm_compute in Hs. inversion Hs. reflexivity.
Defined.

Lemma brand_size_chart_returns p s pd :
  (truthy (brand pd) = true -> is_string (brand pd) = true) ->
  exists chart, brand_size_chart p s pd = Return chart.
Proof.
  intros Hb. unfold brand_size_chart.
  destruct (truthy (brand pd)) eqn:Ht; [|eexists; reflexivity].
  specialize (Hb eq_refl). destruct (brand pd) as [| | | |b| |]; try discriminate.
  cbn [bind].
  destruct (getSizeChartUrl b (category pd)) as [u0| |].
  - destruct (nonempty u0); [|eexists; reflexivity].
    unfold scrapeSizeChart. destruct (axios_get p u0); eexists; reflexivity.
  - eexists; reflexivity.
  - destruct (axios_get_Object s); eexists; reflexivity.
Qed.

(** X21. Neither the size guide nor the measurement can fail an import:
    for a signed-in request with a valid URL, a page that was scraped
    with an image and a brand that is a string or absent, and a database
    that stores what it is given, the answer has status 200 whatever the
    size-guide request and the measurement service do. *)
Theorem size_guide_and_measurement_are_optional
    (p : platform) (s : services) (id : value) (u : jsstring) (pd : ProductData) :
  requests s id u ->
  scrapeProductPage p u = Return pd ->
  truthy (imageUrl pd) = true ->
  (truthy (brand pd) = true -> is_string (brand pd) = true) ->
  (forall d, exists item, clothingItem_create s d = Return item) ->
  exists item sizingData,
    POST p s = json (ImportedBody item pd sizingData) 200.
Proof.
  intros Hreq Hs Hi Hb Hc. unfold POST.
  rewrite (POST_body_requests p s id u Hreq), Hs. cbn [bind]. rewrite Hi. cbn [negb].
  destruct (brand_size_chart_returns p s pd Hb) as (chart & ->). cbn [bind].
  destruct (Hc (item_data s id u pd (with_measurements s pd chart))) as (item & ->).
  cbn [bind]. eexists _, _. reflexivity.
Qed.

Lemma size_guide_and_measurement_are_optional_witness :
  exists item sizingData pd,
    POST (unreachable_guides image_page) signed_in
    = json (ImportedBody item pd sizingData) 200.
Proof.
  destruct (scrapeProductPage (unreachable_guides image_page) plain_url) as [pd|e] eqn:Hs;
    [|vm_compute in Hs; discriminate].
  destruct (size_guide_and_measurement_are_optional (unreachable_guides image_page)
              signed_in (VStr (str "u1")) plain_url pd) as (item & sizingData & H).
  - eexists _, _. repeat split.
  - exact Hs.
  - vm_compute in Hs. inversion Hs. reflexivity.
  - intros _. vm_compute in Hs. inversion Hs. reflexivity.
  - intros d. eexists. reflexivity.
  - exists item, sizingData, pd. exact H.
Defined.

(** X22. An answer with status 200 means that the user was signed in,
    that the URL of the request starts with "http", that the page was
    scraped and gave an image URL, and that the item was stored with
    that user, that URL and that product; the answer carries the stored
    item and the scraped product. *)
Theorem status_200_means_stored
    (p : platform) (s : services) :
  status (POST p s) = 200 ->
  exists id u pd sizingData item,
    requests s id u
    /\ scrapeProductPage p u = Return pd
    /\ truthy (imageUrl pd) = true
    /\ clothingItem_create s (item_data s id u pd sizingData) = Return item
    /\ POST p s = json (ImportedBody item pd sizingData) 200.
Proof.
  unfold POST, POST_body, requests.
  destruct (getServerSession s) as [session|e]; cbn [bind status]; [|discriminate].
  destruct (session_user_id session) as [id|e] eqn:Hid; cbn [bind status];
    [|discriminate].
  destruct (truthy id) eqn:Ht; cbn [negb status]; [|discriminate].
  destruct (req_json s) as [parsed|e]; cbn [bind status]; [|discriminate].
  destruct (destructure parsed (str "url")) as [url|e] eqn:Hd; cbn [bind status];
    [|discriminate].
  unfold checked_url. destruct (truthy url) eqn:Hu; cbn [negb bind status]; [|discriminate].
  destruct url as [| | | |u| |]; cbn [bind status]; try discriminate.
  destruct (startsWith u (str "http")) eqn:Hh; cbn [status]; [|discriminate].
  destruct (scrapeProductPage p u) as [pd|e] eqn:Hs; cbn [bind status]; [|discriminate].
  destruct (truthy (imageUrl pd)) eqn:Hi; cbn [negb status]; [|discriminate].
  destruct (brand_size_chart p s pd) as [chart|e]; cbn [bind status]; [|discriminate].
  destruct (clothingItem_create s _) as [item|e] eqn:Hc; cbn [bind status]; [|discriminate].
  intros _. exists id, u, pd, (with_measurements s pd chart), item.
  split; [exists session, parsed; repeat split; auto|].
  repeat split; auto.
Qed.

Lemma status_200_means_stored_witness :
  exists id u pd sizingData item,
    requests signed_in id u
    /\ scrapeProductPage (unreachable_guides image_page) u = Return pd
    /\ truthy (imageUrl pd) = true
    /\ clothingItem_create signed_in (item_data signed_in id u pd sizingData) = Return item
    /\ POST (unreachable_guides image_page) signed_in
       = json (ImportedBody item pd sizingData) 200.
Proof.
  apply (status_200_means_stored (unreachable_guides image_page) signed_in).
  vm_compute. reflexivity.
Defined.

(* ================================================================== *)
(** * Keys of Object.prototype *)
(* ================================================================== *)

(** X23. When the test of the loop holds for no key of the user's
    mapping, that is when none reads a truthy value from the item
    mapping, be it an own number or an inherited property, and in
    particular when both mappings are empty, the average difference
    defaults to 100: the score is [0], [fits] is false and there is no
    warning. *)
Theorem no_compared_key_scores_zero
    (user : list (list N * float)) (item : gmap (list N) float) :
  (forall key u, In (key, u) user -> compared item key = false) ->
  score (checkFitCompatibility user item) = 0%float
  /\ fits (checkFitCompatibility user item) = false
  /\ warnings (checkFitCompatibility user item) = [].
Proof.
  intros H. unfold checkFitCompatibility.
  rewrite (fit_loop_skip item user _ H). cbn. repeat split; reflexivity.
Qed.

Lemma no_compared_key_scores_zero_witness :
  (forall key u, In (key, u) [(chest, 100%float)] ->
     compared (<[waist := 80%float]> ∅) key = false)
  /\ score (checkFitCompatibility [(chest, 100%float)] (<[waist := 80%float]> ∅)) = 0%float
  /\ fits (checkFitCompatibility [(chest, 100%float)] (<[waist := 80%float]> ∅)) = false
  /\ score (checkFitCompatibility [] ∅) = 0%float
  /\ fits (checkFitCompatibility [] ∅) = false.
Proof.
  assert (H : forall key u, In (key, u) [(chest, 100%float)] ->
     compared (<[waist := 80%float]> ∅) key = false).
  { intros key u [E|[]]. inversion E; subst. vm_compute. reflexivity. }
  assert (H0 : forall (key : list N) (u : float),
            In (key, u) [] -> compared ∅ key = false)
    by (intros key u []).
  pose proof (no_compared_key_scores_zero _ _ H) as (S1 & F1 & _).
  pose proof (no_compared_key_scores_zero _ _ H0) as (S0 & F0 & _).
  split; [exact H|]. split; [exact S1|]. split; [exact F1|].
  split; [exact S0 | exact F0].
Defined.

Lemma store_tags_no_proto prefix ms : forall tags : gmap (list N) (list N),
  tags !! str "__proto__" = None ->
  store_tags prefix ms tags !! str "__proto__" = None.
Proof.
  unfold store_tags.
  induction ms as [|m ms IH]; intros tags Ht; cbn [fold_left]; [exact Ht|].
  apply IH. unfold set_property.
  destruct (str_eqb (prefix ++ capture 1 m) (str "__proto__")) eqn:E; [exact Ht|].
  rewrite lookup_insert_ne; [exact Ht|].
  intros Hk. rewrite Hk, str_eqb_refl in E. discriminate E.
Qed.

(** X24. The mapping that [extractMetaTags] returns never has the key
    [__proto__]: a tag [<meta name="__proto__" content="...">] is
    matched, but the assignment stores nothing. *)
Theorem meta_tag_named_proto_is_not_stored (html : jsstring) :
  extractMetaTags html !! str "__proto__" = None.
Proof.
  unfold extractMetaTags.
  do 3 apply store_tags_no_proto. apply lookup_empty.
Qed.
